(** * PackedArray: random access array of tightly packed unsigned integers

    A shallow embedding of [PackedArray.c] (the per-width specialised
    implementation together with its self-test) and of the width-agnostic
    implementation of the same interface with its own self-test, followed
    by the verification of their documented properties and of further
    properties that the code shows.

    Conventions.
    - A [uint32_t] or [uint64_t] value is a [Z]; every operation that can
      wrap in C has its wrap-around written out ([wrap32], [wrap64]).
      [size_t] is taken to have 64 bits, and the one signed computation
      ([int32_t n], [32 * n]) to wrap in two's complement.
    - Memory blocks ([a->buffer], the [in] and [out] arrays) are [list Z];
      a pointer into a block is a [Z] index.  An access outside the block
      is reported as [Err OutOfBounds].  Blocks passed as two arguments do
      not overlap (the pointers are [__restrict]).
    - [PACKEDARRAY_ASSERT] / [assert] depend on the build: every function
      that asserts takes [ndebug : bool] ([true] when [NDEBUG] is defined and
      the assertions are compiled out).  The assertions that a pointer is not
      [NULL] have no counterpart: a block always exists. *)

From Stdlib Require Import ZArith List Lia Bool.
From coqutil Require Import Z.bitblast.
Import ListNotations.
Local Open Scope Z_scope.

(** ** Machine integers *)

Definition wrap32 (x : Z) : Z := x mod 2 ^ 32.
Definition wrap64 (x : Z) : Z := x mod 2 ^ 64.

(** Conversion of an unsigned 32-bit value to [int32_t] (two's complement). *)
Definition to_int32 (x : Z) : Z :=
  let u := wrap32 x in if u <? 2 ^ 31 then u else u - 2 ^ 32.

(** [~x] on [uint32_t]. *)
Definition not32 (x : Z) : Z := wrap32 (Z.lnot x).
(** [x << n] on [uint32_t]. *)
Definition shl32 (x n : Z) : Z := wrap32 (Z.shiftl x n).
(** [x << n] on [uint64_t]. *)
Definition shl64 (x n : Z) : Z := wrap64 (Z.shiftl x n).

Definition is_u32 (x : Z) : Prop := 0 <= x < 2 ^ 32.

(** ** Errors and memory blocks *)

Inductive fault : Type :=
| OutOfBounds
| AssertionFailed.

Inductive res (A : Type) : Type :=
| Ok (a : A)
| Err (e : fault).
Arguments Ok {A} a.
Arguments Err {A} e.

Definition bind {A B : Type} (c : res A) (k : A -> res B) : res B :=
  match c with
  | Ok a => k a
  | Err e => Err e
  end.

Notation "x <- c ;; k" := (bind c (fun x => k))
  (at level 61, c at next level, right associativity).
Notation "c ;;; k" := (bind c (fun _ => k))
  (at level 61, right associativity).

(** [assert(c)]: a no-op when [NDEBUG] is defined. *)
Definition PACKEDARRAY_ASSERT (ndebug c : bool) : res unit :=
  if ndebug || c then Ok tt else Err AssertionFailed.

Fixpoint upd (m : list Z) (i : nat) (v : Z) : list Z :=
  match m, i with
  | [], _ => []
  | _ :: t, O => v :: t
  | h :: t, S j => h :: upd t j v
  end.

Definition in_block (m : list Z) (i : Z) : bool :=
  (0 <=? i) && (i <? Z.of_nat (length m)).

Definition peek (m : list Z) (i : Z) : Z := nth (Z.to_nat i) m 0.

(** [m[i]] read. *)
Definition load (m : list Z) (i : Z) : res Z :=
  if in_block m i then Ok (peek m i) else Err OutOfBounds.

(** [m[i] = v]. *)
Definition store (m : list Z) (i : Z) (v : Z) : res (list Z) :=
  if in_block m i then Ok (upd m (Z.to_nat i) v) else Err OutOfBounds.

(** ** The container *)

Record PackedArray : Type := mkPackedArray {
  bitsPerItem : Z;
  count : Z;
  buffer : list Z
}.

Definition with_buffer (a : PackedArray) (b : list Z) : PackedArray :=
  mkPackedArray (bitsPerItem a) (count a) b.

(** [(uint32_t)(1ULL << bitsPerItem) - 1], as computed by [get], [set] and
    the generic engine. *)
Definition mask_of (bitsPerItem : Z) : Z :=
  wrap32 (wrap32 (shl64 1 bitsPerItem) - 1).

(** [PACKEDARRAY_IMPL_MASK]: [(uint32_t)((1ULL << B) - 1)]. *)
Definition PACKEDARRAY_IMPL_MASK (B : Z) : Z :=
  wrap32 (wrap64 (shl64 1 B - 1)).

(** [PackedArray_create].  [heap] is the outcome of [malloc]: [None] when it
    returns [NULL], otherwise the (arbitrary) initial content of the
    allocated words, by index. *)
Definition PackedArray_create (ndebug : bool) (heap : option (Z -> Z))
    (bitsPerItem count : Z) : res (option PackedArray) :=
  PACKEDARRAY_ASSERT ndebug (0 <? bitsPerItem) ;;;
  PACKEDARRAY_ASSERT ndebug (bitsPerItem <=? 32) ;;;
  let words := wrap64 (wrap64 (bitsPerItem * count) + 31) / 32 in
  let bufferSize := wrap64 (4 * words) in
  match heap with
  | None => Ok None
  | Some content =>
      let block :=
        map (fun i => wrap32 (content (Z.of_nat i)))
            (seq 0 (Z.to_nat (bufferSize / 4))) in
      b <- store block (wrap64 (words - 1)) 0 ;;
      Ok (Some (mkPackedArray bitsPerItem count b))
  end.

(** [PackedArray_bufferSize]. *)
Definition PackedArray_bufferSize (a : PackedArray) : Z :=
  wrap32 (wrap64 (wrap64 (bitsPerItem a * count a) + 31) / 32).

(** ** Width inference *)

Definition multiplyDeBruijnBitPosition : list Z :=
  [0; 9; 1; 10; 13; 21; 2; 29; 11; 14; 16; 18; 22; 25; 3; 30;
   8; 12; 20; 28; 15; 17; 24; 7; 19; 27; 23; 6; 26; 5; 4; 31].

(** [__PackedArray_log2]: the portable fallback. *)
Definition __PackedArray_log2 (v : Z) : Z :=
  let v := Z.lor v (Z.shiftr v 1) in
  let v := Z.lor v (Z.shiftr v 2) in
  let v := Z.lor v (Z.shiftr v 4) in
  let v := Z.lor v (Z.shiftr v 8) in
  let v := Z.lor v (Z.shiftr v 16) in
  peek multiplyDeBruijnBitPosition (Z.shiftr (wrap32 (v * 0x7C4ACDD)) 27).

(** The compiler intrinsics used by the two other branches of
    [__PackedArray_highestBitSet], by a scan from bit 31 down. *)
Fixpoint clz_from (n : nat) (v : Z) : Z :=
  match n with
  | O => 0
  | S k => if Z.testbit v (Z.of_nat k) then 0 else 1 + clz_from k v
  end.

(** [__builtin_clz] (its result is undefined at 0). *)
Definition __builtin_clz (v : Z) : Z := clz_from 32 v.

(** [_BitScanReverse(&index, v)]: [None] when it returns 0. *)
Definition _BitScanReverse (v : Z) : option Z :=
  if v =? 0 then None else Some (31 - clz_from 32 v).

Inductive toolchain : Type := MSVC | GNUC | Portable.

(** [__PackedArray_highestBitSet], one branch per preprocessor case. *)
Definition __PackedArray_highestBitSet (tc : toolchain) (v : Z) : Z :=
  match tc with
  | MSVC => match _BitScanReverse v with Some index => index | None => -1 end
  | GNUC => if v =? 0 then -1 else 31 - __builtin_clz v
  | Portable => if negb (v =? 0) then __PackedArray_log2 v else -1
  end.

(** The [for] loop of [PackedArray_computeBitsPerItem]: [i] runs from its
    current value while [i < count]. *)
Fixpoint scan_max (n : nat) (input : list Z) (i in_max : Z) : res Z :=
  match n with
  | O => Ok in_max
  | S k =>
      x <- load input i ;;
      scan_max k input (i + 1) (if x >? in_max then x else in_max)
  end.

(** [PackedArray_computeBitsPerItem]. *)
Definition PackedArray_computeBitsPerItem (tc : toolchain)
    (input : list Z) (count : Z) : res Z :=
  in_max <- scan_max (Z.to_nat count) input 0 0 ;;
  let bitsPerItem := wrap32 (__PackedArray_highestBitSet tc in_max + 1) in
  Ok (if bitsPerItem =? 0 then 1 else bitsPerItem).

(** ** Single item access *)

(** [PackedArray_set]. *)
Definition PackedArray_set (ndebug : bool) (a : PackedArray)
    (offset : Z) (v : Z) : res PackedArray :=
  let bitsPerItem := bitsPerItem a in
  let out := wrap64 (offset * bitsPerItem) / 32 in
  let startBit := wrap32 (wrap64 (offset * bitsPerItem) mod 32) in
  let bitsAvailable := wrap32 (32 - startBit) in
  let mask := mask_of bitsPerItem in
  PACKEDARRAY_ASSERT ndebug (0 =? Z.land (not32 mask) v) ;;;
  if bitsPerItem <=? bitsAvailable then
    w0 <- load (buffer a) out ;;
    b <- store (buffer a) out
           (Z.lor (Z.land w0 (not32 (shl32 mask startBit))) (shl32 v startBit)) ;;
    Ok (with_buffer a b)
  else
    (* value spans 2 buffer cells *)
    let low := shl32 v startBit in
    let high := Z.shiftr v bitsAvailable in
    w0 <- load (buffer a) out ;;
    b <- store (buffer a) out
           (Z.lor (Z.land w0 (not32 (shl32 mask startBit))) low) ;;
    w1 <- load b (out + 1) ;;
    b <- store b (out + 1)
           (Z.lor (Z.land w1 (not32 (Z.shiftr mask (wrap32 (32 - startBit))))) high) ;;
    Ok (with_buffer a b).

(** [PackedArray_get]. *)
Definition PackedArray_get (a : PackedArray) (offset : Z) : res Z :=
  let bitsPerItem := bitsPerItem a in
  let in_ := wrap64 (offset * bitsPerItem) / 32 in
  let startBit := wrap32 (wrap64 (offset * bitsPerItem) mod 32) in
  let bitsAvailable := wrap32 (32 - startBit) in
  let mask := mask_of bitsPerItem in
  if bitsPerItem <=? bitsAvailable then
    w0 <- load (buffer a) in_ ;;
    Ok (Z.land (Z.shiftr w0 startBit) mask)
  else
    (* out spans 2 buffer cells *)
    w0 <- load (buffer a) in_ ;;
    let low := Z.shiftr w0 startBit in
    w1 <- load (buffer a) (in_ + 1) ;;
    let high := shl32 w1 (wrap32 (32 - startBit)) in
    Ok (Z.lxor low
          (Z.land (Z.lxor low high)
                  (shl32 (Z.shiftr mask bitsAvailable) bitsAvailable))).

(** ** The generic engine

    The cursor loop of the width-agnostic [PackedArray_pack] and
    [PackedArray_unpack]; [PackedArray_pack_reference] and
    [PackedArray_unpack_reference] of the self-test have the same body
    behind an additional [assert(count != 0)]. *)

Record pack_cursor : Type := mkPackCursor {
  pc_out : Z;            (* index of the word [out] points to *)
  pc_startBit : Z;
  pc_bitsAvailable : Z;
  pc_packed : Z;
  pc_in : Z;             (* index of the value [in] points to *)
  pc_buf : list Z
}.

(** One iteration of [while (count--)] in the generic pack. *)
Definition pack_iter (ndebug : bool) (bitsPerItem mask : Z) (input : list Z)
    (s : pack_cursor) : res pack_cursor :=
  let '(mkPackCursor out startBit bitsAvailable packed in_ buf) := s in
  value <- load input in_ ;;
  PACKEDARRAY_ASSERT ndebug (0 =? Z.land (not32 mask) value) ;;;
  if bitsPerItem <=? bitsAvailable then
    let packed :=
      Z.lor (Z.land packed (not32 (shl32 mask startBit))) (shl32 value startBit) in
    Ok (mkPackCursor out (wrap32 (startBit + bitsPerItem))
          (wrap32 (bitsAvailable - bitsPerItem)) packed (in_ + 1) buf)
  else if bitsAvailable =? 0 then
    buf <- store buf out packed ;;
    packed <- load buf (out + 1) ;;
    let packed := Z.lor (Z.land packed (not32 mask)) value in
    Ok (mkPackCursor (out + 1) (wrap32 (0 + bitsPerItem))
          (wrap32 (32 - bitsPerItem)) packed (in_ + 1) buf)
  else
    (* value spans 2 buffer cells *)
    let low := shl32 value startBit in
    let high := Z.shiftr value bitsAvailable in
    let packed := Z.lor (Z.land packed (not32 (shl32 mask startBit))) low in
    buf <- store buf out packed ;;
    packed <- load buf (out + 1) ;;
    let packed :=
      Z.lor (Z.land packed (not32 (Z.shiftr mask (wrap32 (32 - startBit))))) high in
    let startBit := wrap32 (startBit + bitsPerItem) mod 32 in
    Ok (mkPackCursor (out + 1) startBit (wrap32 (32 - startBit)) packed
          (in_ + 1) buf).

Fixpoint pack_loop (ndebug : bool) (bitsPerItem mask : Z) (input : list Z)
    (n : nat) (s : pack_cursor) : res pack_cursor :=
  match n with
  | O => Ok s
  | S k =>
      s <- pack_iter ndebug bitsPerItem mask input s ;;
      pack_loop ndebug bitsPerItem mask input k s
  end.

Definition generic_pack (ndebug : bool) (a : PackedArray) (offset : Z)
    (input : list Z) (count : Z) : res PackedArray :=
  let bitsPerItem := bitsPerItem a in
  let out := wrap64 (offset * bitsPerItem) / 32 in
  let startBit := wrap32 (wrap64 (offset * bitsPerItem) mod 32) in
  let bitsAvailable := wrap32 (32 - startBit) in
  let mask := mask_of bitsPerItem in
  packed <- load (buffer a) out ;;
  s <- pack_loop ndebug bitsPerItem mask input (Z.to_nat count)
         (mkPackCursor out startBit bitsAvailable packed 0 (buffer a)) ;;
  b <- store (pc_buf s) (pc_out s) (pc_packed s) ;;
  Ok (with_buffer a b).

Record unpack_cursor : Type := mkUnpackCursor {
  uc_in : Z;             (* index of the word [in] points to *)
  uc_startBit : Z;
  uc_bitsAvailable : Z;
  uc_packed : Z;
  uc_out : Z;            (* index of the slot [out] points to *)
  uc_dst : list Z        (* the output array *)
}.

(** One iteration of [while (count--)] in the generic unpack. *)
Definition unpack_iter (bitsPerItem mask : Z) (buf : list Z)
    (s : unpack_cursor) : res unpack_cursor :=
  let '(mkUnpackCursor in_ startBit bitsAvailable packed out dst) := s in
  if bitsPerItem <=? bitsAvailable then
    let value := Z.land (Z.shiftr packed startBit) mask in
    dst <- store dst out value ;;
    Ok (mkUnpackCursor in_ (wrap32 (startBit + bitsPerItem))
          (wrap32 (bitsAvailable - bitsPerItem)) packed (out + 1) dst)
  else if bitsAvailable =? 0 then
    packed <- load buf (in_ + 1) ;;
    let value := Z.land packed mask in
    dst <- store dst out value ;;
    Ok (mkUnpackCursor (in_ + 1) bitsPerItem (wrap32 (32 - bitsPerItem))
          packed (out + 1) dst)
  else
    (* value spans 2 buffer cells *)
    let low := Z.shiftr packed startBit in
    packed <- load buf (in_ + 1) ;;
    let high := shl32 packed (wrap32 (32 - startBit)) in
    let value :=
      Z.lxor low
        (Z.land (Z.lxor low high)
                (shl32 (Z.shiftr mask bitsAvailable) bitsAvailable)) in
    dst <- store dst out value ;;
    let startBit := wrap32 (startBit + bitsPerItem) mod 32 in
    Ok (mkUnpackCursor (in_ + 1) startBit (wrap32 (32 - startBit)) packed
          (out + 1) dst).

Fixpoint unpack_loop (bitsPerItem mask : Z) (buf : list Z)
    (n : nat) (s : unpack_cursor) : res unpack_cursor :=
  match n with
  | O => Ok s
  | S k =>
      s <- unpack_iter bitsPerItem mask buf s ;;
      unpack_loop bitsPerItem mask buf k s
  end.

Definition generic_unpack (a : PackedArray) (offset : Z)
    (dst : list Z) (count : Z) : res (list Z) :=
  let bitsPerItem := bitsPerItem a in
  let in_ := wrap64 (offset * bitsPerItem) / 32 in
  let startBit := wrap32 (wrap64 (offset * bitsPerItem) mod 32) in
  let bitsAvailable := wrap32 (32 - startBit) in
  let mask := mask_of bitsPerItem in
  packed <- load (buffer a) in_ ;;
  s <- unpack_loop bitsPerItem mask (buffer a) (Z.to_nat count)
         (mkUnpackCursor in_ startBit bitsAvailable packed 0 dst) ;;
  Ok (uc_dst s).

(** The width-agnostic implementation of the interface. *)
Module Generic.

Definition PackedArray_pack := generic_pack.

Definition PackedArray_unpack := generic_unpack.

End Generic.

(** The reference functions of the self-test. *)
Definition PackedArray_pack_reference (ndebug : bool) (a : PackedArray)
    (offset : Z) (input : list Z) (count : Z) : res PackedArray :=
  PACKEDARRAY_ASSERT ndebug (negb (count =? 0)) ;;;
  generic_pack ndebug a offset input count.

Definition PackedArray_unpack_reference (ndebug : bool) (a : PackedArray)
    (offset : Z) (dst : list Z) (count : Z) : res (list Z) :=
  PACKEDARRAY_ASSERT ndebug (negb (count =? 0)) ;;;
  generic_unpack a offset dst count.

(** ** The specialised engine

    [PackedArray.c] includes itself once per width [B] in 1..32 to generate
    [__PackedArray_pack_B] and [__PackedArray_unpack_B], and 32 times more
    inside each of them to generate the [case I:] labels of a [switch].  The
    template is embedded once, with [B] and [I] as arguments. *)

Definition PACKEDARRAY_IMPL_START_BIT (B I : Z) : Z := (I * B) mod 32.
Definition PACKEDARRAY_IMPL_BITS_AVAILABLE (B I : Z) : Z := 32 - (I * B) mod 32.

Record pack_state : Type := mkPackState {
  ps_out : Z;            (* index of the word [out] points to *)
  ps_in : Z;             (* index of the value [in] points to *)
  ps_packed : Z;
  ps_buf : list Z
}.

(** [PACKEDARRAY_IMPL_PACK_CASE_BREAK]: empty ([None]) in the batch loop,
    [if (in == end) break;] ([Some end]) in the closing [switch].  The
    result tells whether [break] was taken. *)
Definition pack_case_break (brk : option Z) (s : pack_state) : bool :=
  match brk with
  | None => false
  | Some end_ => ps_in s =? end_
  end.

(** The statements under [case I:] of the pack template. *)
Definition pack_case (B I : Z) (brk : option Z) (input : list Z)
    (s : pack_state) : res (pack_state * bool) :=
  let '(mkPackState out in_ packed buf) := s in
  s <- (if B <=? PACKEDARRAY_IMPL_BITS_AVAILABLE B I then
          v <- load input in_ ;;
          let packed := Z.lor packed (shl32 v (PACKEDARRAY_IMPL_START_BIT B I)) in
          if B =? PACKEDARRAY_IMPL_BITS_AVAILABLE B I then
            buf <- store buf out packed ;;
            Ok (mkPackState (out + 1) (in_ + 1) 0 buf)
          else
            Ok (mkPackState out (in_ + 1) packed buf)
        else
          v <- load input in_ ;;
          let packed := Z.lor packed (shl32 v (PACKEDARRAY_IMPL_START_BIT B I)) in
          buf <- store buf out packed ;;
          let packed := Z.shiftr v (PACKEDARRAY_IMPL_BITS_AVAILABLE B I) in
          Ok (mkPackState (out + 1) (in_ + 1) packed buf)) ;;
  Ok (s, pack_case_break brk s).

(** Fall-through from [case I:] over the [n] labels that remain. *)
Fixpoint pack_cases (B : Z) (brk : option Z) (input : list Z)
    (n : nat) (I : Z) (s : pack_state) : res pack_state :=
  match n with
  | O => Ok s
  | S k =>
      r <- pack_case B I brk input s ;;
      if snd r then Ok (fst r) else pack_cases B brk input k (I + 1) (fst r)
  end.

(** The closing [switch (offset) { case 0: ... case 31: ... }], whose
    labels end in [if (in == end) break;]: control enters at
    [case offset:]; no label matches an [offset] outside 0..31. *)
Definition pack_switch (B : Z) (end_ : Z) (input : list Z)
    (offset : Z) (s : pack_state) : res pack_state :=
  if (0 <=? offset) && (offset <=? 31)
  then pack_cases B (Some end_) input (Z.to_nat (32 - offset)) offset s
  else Ok s.

(** The passes of [do { ... } while (--n > 0)] that follow the first one;
    each starts again at [case 0:]. *)
Fixpoint pack_again (B : Z) (input : list Z) (passes : nat)
    (s : pack_state) : res pack_state :=
  match passes with
  | O => Ok s
  | S k =>
      s <- pack_cases B None input 32 0 s ;;
      pack_again B input k s
  end.

(** The batch loop [switch (offset) { do { case 0: ... case 31: ... }
    while (--n > 0); }]: the first pass is entered at [case offset:], the
    body runs once and then again while the decremented [n] is positive,
    that is [n - 1] more times. *)
Definition pack_batch (B : Z) (input : list Z) (offset n : Z)
    (s : pack_state) : res pack_state :=
  if (0 <=? offset) && (offset <=? 31) then
    s <- pack_cases B None input (Z.to_nat (32 - offset)) offset s ;;
    pack_again B input (Z.to_nat (n - 1)) s
  else Ok s.

(** From [end = in + count;] to the end of [__PackedArray_pack_B]. *)
Definition pack_finish (ndebug : bool) (B : Z) (input : list Z)
    (count offset startBit : Z) (s : pack_state) : res (list Z) :=
  let end_ := ps_in s + count in
  s <- pack_switch B end_ input offset s ;;
  PACKEDARRAY_ASSERT ndebug (ps_in s =? end_) ;;;
  if negb (wrap32 (wrap32 (count * B) + startBit) mod 32 =? 0) then
    w <- load (ps_buf s) (ps_out s) ;;
    let keep :=
      not32 (wrap32 (wrap32 (shl64 1
               (wrap64 (wrap64 (count * B) + startBit - 1) mod 32 + 1)) - 1)) in
    store (ps_buf s) (ps_out s) (Z.lor (ps_packed s) (Z.land w keep))
  else
    Ok (ps_buf s).

(** [__PackedArray_pack_B]. *)
Definition __PackedArray_pack_ (ndebug : bool) (B : Z) (buf : list Z)
    (offset : Z) (input : list Z) (count : Z) : res (list Z) :=
  let out := wrap64 (offset * B) / 32 in
  let startBit := wrap32 (wrap64 (offset * B) mod 32) in
  w <- load buf out ;;
  let packed := Z.land w (wrap32 (wrap64 (shl64 1 startBit - 1))) in
  let offset := offset mod 32 in
  let s := mkPackState out 0 packed buf in
  if count >=? wrap32 (32 - offset) then
    let n := to_int32 (wrap32 (count + offset) / 32) in
    let count := wrap32 (count - wrap32 (to_int32 (32 * n) - offset)) in
    s <- pack_batch B input offset n s ;;
    if count =? 0 then Ok (ps_buf s)
    else pack_finish ndebug B input count 0 0 s
  else
    pack_finish ndebug B input count offset startBit s.

Record unpack_state : Type := mkUnpackState {
  us_in : Z;             (* index of the word [in] points to *)
  us_packed : Z;
  us_out : Z;            (* index of the slot [out] points to *)
  us_dst : list Z        (* the output array *)
}.

(** The statements under [case I:] of the unpack template;
    [PACKEDARRAY_IMPL_UNPACK_CASE_BREAK] is empty ([None]) or
    [if (out == end) break;] ([Some end]). *)
Definition unpack_case (B I : Z) (brk : option Z) (buf : list Z)
    (s : unpack_state) : res (unpack_state * bool) :=
  let '(mkUnpackState in_ packed out dst) := s in
  let broke out := match brk with None => false | Some end_ => out =? end_ end in
  if B <=? PACKEDARRAY_IMPL_BITS_AVAILABLE B I then
    dst <- store dst out
             (Z.land (Z.shiftr packed (PACKEDARRAY_IMPL_START_BIT B I))
                     (PACKEDARRAY_IMPL_MASK B)) ;;
    if broke (out + 1) then Ok (mkUnpackState in_ packed (out + 1) dst, true)
    else if (I <? 31) && (B =? PACKEDARRAY_IMPL_BITS_AVAILABLE B I) then
      packed <- load buf (in_ + 1) ;;
      Ok (mkUnpackState (in_ + 1) packed (out + 1) dst, false)
    else Ok (mkUnpackState in_ packed (out + 1) dst, false)
  else
    let low := Z.shiftr packed (PACKEDARRAY_IMPL_START_BIT B I) in
    packed <- load buf (in_ + 1) ;;
    let high := shl32 packed (PACKEDARRAY_IMPL_BITS_AVAILABLE B I) in
    dst <- store dst out (Z.land (Z.lor low high) (PACKEDARRAY_IMPL_MASK B)) ;;
    Ok (mkUnpackState (in_ + 1) packed (out + 1) dst, broke (out + 1)).

Fixpoint unpack_cases (B : Z) (brk : option Z) (buf : list Z)
    (n : nat) (I : Z) (s : unpack_state) : res unpack_state :=
  match n with
  | O => Ok s
  | S k =>
      r <- unpack_case B I brk buf s ;;
      if snd r then Ok (fst r) else unpack_cases B brk buf k (I + 1) (fst r)
  end.

(** The closing [switch (offset)], whose labels hold
    [if (out == end) break;]. *)
Definition unpack_switch (B : Z) (end_ : Z) (buf : list Z)
    (offset : Z) (s : unpack_state) : res unpack_state :=
  if (0 <=? offset) && (offset <=? 31)
  then unpack_cases B (Some end_) buf (Z.to_nat (32 - offset)) offset s
  else Ok s.

(** [packed = *++in;]. *)
Definition next_word (buf : list Z) (s : unpack_state) : res unpack_state :=
  packed <- load buf (us_in s + 1) ;;
  Ok (mkUnpackState (us_in s + 1) packed (us_out s) (us_dst s)).

(** The passes of [do { packed = *++in; ... } while (--n > 0)] that follow
    the first one (which is entered at [case offset:], past the load). *)
Fixpoint unpack_again (B : Z) (buf : list Z) (passes : nat)
    (s : unpack_state) : res unpack_state :=
  match passes with
  | O => Ok s
  | S k =>
      s <- next_word buf s ;;
      s <- unpack_cases B None buf 32 0 s ;;
      unpack_again B buf k s
  end.

(** The batch loop [switch (offset) { do { packed = *++in; case 0: ...
    case 31: ... } while (--n > 0); }]. *)
Definition unpack_batch (B : Z) (buf : list Z) (offset n : Z)
    (s : unpack_state) : res unpack_state :=
  if (0 <=? offset) && (offset <=? 31) then
    s <- unpack_cases B None buf (Z.to_nat (32 - offset)) offset s ;;
    unpack_again B buf (Z.to_nat (n - 1)) s
  else Ok s.

(** From [end = out + count;] to the end of [__PackedArray_unpack_B]. *)
Definition unpack_finish (ndebug : bool) (B : Z) (buf : list Z)
    (count offset : Z) (s : unpack_state) : res (list Z) :=
  let end_ := us_out s + count in
  s <- unpack_switch B end_ buf offset s ;;
  PACKEDARRAY_ASSERT ndebug (us_out s =? end_) ;;;
  Ok (us_dst s).

(** [__PackedArray_unpack_B]. *)
Definition __PackedArray_unpack_ (ndebug : bool) (B : Z) (buf : list Z)
    (offset : Z) (dst : list Z) (count : Z) : res (list Z) :=
  let in_ := wrap64 (offset * B) / 32 in
  packed <- load buf in_ ;;
  let offset := offset mod 32 in
  let s := mkUnpackState in_ packed 0 dst in
  if count >=? wrap32 (32 - offset) then
    let n := to_int32 (wrap32 (count + offset) / 32) in
    let count := wrap32 (count - wrap32 (to_int32 (32 * n) - offset)) in
    s <- unpack_batch B buf offset n s ;;
    if count =? 0 then Ok (us_dst s)
    else
      s <- next_word buf s ;;
      unpack_finish ndebug B buf count 0 s
  else
    unpack_finish ndebug B buf count offset s.

(** [PackedArray_pack]: dispatch on [a->bitsPerItem]; the [switch] has the
    32 cases 1..32 and no [default]. *)
Definition PackedArray_pack (ndebug : bool) (a : PackedArray) (offset : Z)
    (input : list Z) (count : Z) : res PackedArray :=
  if (1 <=? bitsPerItem a) && (bitsPerItem a <=? 32) then
    b <- __PackedArray_pack_ ndebug (bitsPerItem a) (buffer a) offset input count ;;
    Ok (with_buffer a b)
  else Ok a.

(** [PackedArray_unpack]: the same dispatch. *)
Definition PackedArray_unpack (ndebug : bool) (a : PackedArray) (offset : Z)
    (dst : list Z) (count : Z) : res (list Z) :=
  if (1 <=? bitsPerItem a) && (bitsPerItem a <=? 32) then
    __PackedArray_unpack_ ndebug (bitsPerItem a) (buffer a) offset dst count
  else Ok dst.

(** ** Destruction *)

(** [PackedArray_destroy]; the pointer is [None] when it is [NULL].
    [PACKEDARRAY_FREE] has no effect on the blocks of the model. *)
Definition PackedArray_destroy (ndebug : bool) (a : option PackedArray)
    : res unit :=
  PACKEDARRAY_ASSERT ndebug (match a with Some _ => true | None => false end).

(** ** The self-test

    [main] under [PACKEDARRAY_SELF_TEST].  The test takes two things from
    its environment: the results of [rand()], and the outcome of each
    allocation ([NULL], or the content of the memory obtained).  The calls
    of [printf] have no counterpart, and [free] has no effect on the blocks
    of the model.  In the self-test of the specialised
    implementation [assert] is always compiled in ([NDEBUG] is undefined
    before [main] and the reference functions), whereas the library
    functions above them follow the build. *)

Record test_env : Type := mkTestEnv {
  rand_result : nat -> Z;
  malloc_result : nat -> option (Z -> Z)
}.

(** The number of calls of [rand] and of allocations so far. *)
Record test_state : Type := mkTestState {
  rand_calls : nat;
  malloc_calls : nat
}.

Definition test (A : Type) : Type := test_state -> res (A * test_state).

Definition test_ret {A : Type} (x : A) : test A := fun st => Ok (x, st).

Definition test_bind {A B : Type} (c : test A) (k : A -> test B) : test B :=
  fun st => r <- c st ;; k (fst r) (snd r).

Notation "x <~ c ;; k" := (test_bind c (fun x => k))
  (at level 61, c at next level, right associativity).
Notation "c ~;; k" := (test_bind c (fun _ => k))
  (at level 61, right associativity).

Definition lift {A : Type} (c : res A) : test A :=
  fun st => x <- c ;; Ok (x, st).

(** [rand()]. *)
Definition rand (env : test_env) : test Z :=
  fun st =>
    Ok (rand_result env (rand_calls st),
        mkTestState (S (rand_calls st)) (malloc_calls st)).

(** [malloc(sizeof(uint32_t) * words)]: [NULL], or a block of [words]
    words that hold what the environment says. *)
Definition malloc (env : test_env) (words : Z) : test (option (list Z)) :=
  fun st =>
    Ok (option_map
          (fun content =>
             map (fun i => wrap32 (content (Z.of_nat i)))
                 (seq 0 (Z.to_nat words)))
          (malloc_result env (malloc_calls st)),
        mkTestState (rand_calls st) (S (malloc_calls st))).

(** [PackedArray_create] with the allocation of the environment. *)
Definition test_create (env : test_env) (ndebug : bool) (bitsPerItem count : Z)
    : test (option PackedArray) :=
  fun st =>
    a <- PackedArray_create ndebug (malloc_result env (malloc_calls st))
           bitsPerItem count ;;
    Ok (a, mkTestState (rand_calls st) (S (malloc_calls st))).

(** An access through a pointer: through [NULL] it is outside every
    block. *)
Definition deref {A : Type} (p : option A) : res A :=
  match p with
  | Some a => Ok a
  | None => Err OutOfBounds
  end.

(** [assert(c)] of the self-test. *)
Definition test_assert (ndebug c : bool) : test unit :=
  lift (PACKEDARRAY_ASSERT ndebug c).

Fixpoint words_eqb (x y : list Z) : bool :=
  match x, y with
  | [], [] => true
  | a :: x, b :: y => (a =? b) && words_eqb x y
  | _, _ => false
  end.

(** [memcmp(x, y, n * sizeof(uint32_t)) == 0]. *)
Definition memcmp_is_0 (x y : list Z) (n : Z) : res bool :=
  if (n <=? Z.of_nat (length x)) && (n <=? Z.of_nat (length y))
  then Ok (words_eqb (firstn (Z.to_nat n) x) (firstn (Z.to_nat n) y))
  else Err OutOfBounds.

(** [for (i = lo; i < hi; ++i) body], on the variables [s] that the body
    updates: [for_up] runs the [n] iterations from [i].  The bound is
    evaluated once: no loop of the self-tests changes its own bound. *)
Fixpoint for_up {V : Type} (n : nat) (i : Z) (body : Z -> V -> test V) (s : V)
    : test V :=
  match n with
  | O => test_ret s
  | S k => s <~ body i s ;; for_up k (i + 1) body s
  end.

Definition for_ {V : Type} (lo hi : Z) (body : Z -> V -> test V) (s : V)
    : test V :=
  for_up (Z.to_nat (hi - lo)) lo body s.

(** [for (i = hi; i >= lo; --i) body]. *)
Fixpoint for_down_from {V : Type} (n : nat) (i : Z) (body : Z -> V -> test V)
    (s : V) : test V :=
  match n with
  | O => test_ret s
  | S k => s <~ body i s ;; for_down_from k (i - 1) body s
  end.

Definition for_down {V : Type} (hi lo : Z) (body : Z -> V -> test V) (s : V)
    : test V :=
  for_down_from (Z.to_nat (hi - lo + 1)) hi body s.

(** [a1->buffer[i] = a2->buffer[i] = rand();]. *)
Definition fill_item (env : test_env) (i : Z) (a : PackedArray * PackedArray)
    : test (PackedArray * PackedArray) :=
  r <~ rand env ;;
  b2 <~ lift (store (buffer (snd a)) i (wrap32 r)) ;;
  b1 <~ lift (store (buffer (fst a)) i (wrap32 r)) ;;
  test_ret (with_buffer (fst a) b1, with_buffer (snd a) b2).

(** The body of the two [for] loops over [i] of the 1 by 1 test. *)
Definition one_by_one_item (env : test_env) (ndebug : bool) (mask i : Z)
    (a : PackedArray * PackedArray) : test (PackedArray * PackedArray) :=
  r <~ rand env ;;
  let v1 := Z.land (wrap32 r) mask in
  let v2 := wrap32 (v1 + 1) in
  a1 <~ lift (PackedArray_pack ndebug (fst a) (wrap32 i) [v1] 1) ;;
  a2 <~ lift (PackedArray_pack_reference false (snd a) (wrap32 i) [v1] 1) ;;
  e <~ lift (memcmp_is_0 (buffer a1) (buffer a2) (PackedArray_bufferSize a1)) ;;
  test_assert false e ~;;
  a1 <~ lift (PackedArray_set ndebug a1 (wrap32 i) v1) ;;
  e <~ lift (memcmp_is_0 (buffer a1) (buffer a2) (PackedArray_bufferSize a1)) ;;
  test_assert false e ~;;
  out <~ lift (PackedArray_unpack ndebug a1 (wrap32 i) [v2] 1) ;;
  let v2 := peek out 0 in
  test_assert false (v1 =? v2) ~;;
  out <~ lift (PackedArray_unpack_reference false a2 (wrap32 i) [v2] 1) ;;
  let v2 := peek out 0 in
  test_assert false (v1 =? v2) ~;;
  v2 <~ lift (PackedArray_get a2 (wrap32 i)) ;;
  test_assert false (v1 =? v2) ~;;
  test_ret (a1, a2).

(** The body of [for (count = 1; count <= 1024; ++count)] of the 1 by 1
    test; [bits] and [cnt] are the variables [bitsPerItem] and [count] of
    [main]. *)
Definition one_by_one_count (env : test_env) (ndebug : bool)
    (bits mask cnt : Z) (_ : unit) : test unit :=
  p1 <~ test_create env ndebug bits (wrap32 cnt) ;;
  p2 <~ test_create env ndebug bits (wrap32 cnt) ;;
  a1 <~ lift (deref p1) ;;
  test_assert false (count a1 =? wrap32 cnt) ~;;
  a2 <~ lift (deref p2) ;;
  test_assert false (count a2 =? wrap32 cnt) ~;;
  test_assert false (bitsPerItem a1 =? bits) ~;;
  test_assert false (bitsPerItem a2 =? bits) ~;;
  test_assert false (PackedArray_bufferSize a1 =? PackedArray_bufferSize a2) ~;;
  a <~ for_ 0 (to_int32 (PackedArray_bufferSize a1)) (fill_item env) (a1, a2) ;;
  a <~ for_ 0 cnt (one_by_one_item env ndebug mask) a ;;
  a <~ for_down (cnt - 1) 0 (one_by_one_item env ndebug mask) a ;;
  lift (PackedArray_destroy ndebug (Some (fst a))) ~;;
  lift (PackedArray_destroy ndebug (Some (snd a))) ~;;
  test_ret tt.

(** The 1 by 1 packing / unpacking test. *)
Definition one_by_one (env : test_env) (ndebug : bool) : test unit :=
  for_ 1 33
    (fun bits _ =>
       let mask := mask_of bits in
       for_ 1 1025 (one_by_one_count env ndebug bits mask) tt)
    tt.

(** [v1[i] = rand() & mask;]. *)
Definition draw_item (env : test_env) (mask i : Z) (v1 : list Z)
    : test (list Z) :=
  r <~ rand env ;;
  lift (store v1 i (Z.land (wrap32 r) mask)).

(** The body of [for (j = 1; j <= count - i; ++j)] of the bulk test, on
    the two containers and the array [v2]. *)
Definition bulk_item (env : test_env) (ndebug : bool) (tc : toolchain)
    (bits : Z) (v1 : list Z) (i j : Z)
    (s : PackedArray * PackedArray * list Z)
    : test (PackedArray * PackedArray * list Z) :=
  a1 <~ lift (PackedArray_pack ndebug (fst (fst s)) (wrap32 i) v1 (wrap32 j)) ;;
  a2 <~ lift (PackedArray_pack_reference false (snd (fst s)) (wrap32 i) v1
                (wrap32 j)) ;;
  e <~ lift (memcmp_is_0 (buffer a1) (buffer a2) (PackedArray_bufferSize a1)) ;;
  test_assert false e ~;;
  v2 <~ lift (PackedArray_unpack ndebug a1 (wrap32 i) (snd s) (wrap32 j)) ;;
  w <~ lift (PackedArray_computeBitsPerItem tc v2 (wrap32 j)) ;;
  test_assert false (bits >=? w) ~;;
  e <~ lift (memcmp_is_0 v1 v2 j) ;;
  test_assert false e ~;;
  v2 <~ lift (PackedArray_unpack_reference false a2 (wrap32 i) v2 (wrap32 j)) ;;
  e <~ lift (memcmp_is_0 v1 v2 j) ;;
  test_assert false e ~;;
  test_ret (a1, a2, v2).

(** The body of [for (count = 1; count <= 128; ++count)] of the bulk
    test. *)
Definition bulk_count (env : test_env) (ndebug : bool) (tc : toolchain)
    (bits mask cnt : Z) (_ : unit) : test unit :=
  v1 <~ malloc env cnt ;;
  test_assert false (match v1 with Some _ => true | None => false end) ~;;
  v2 <~ malloc env cnt ;;
  test_assert false (match v2 with Some _ => true | None => false end) ~;;
  p1 <~ test_create env ndebug bits (wrap32 cnt) ;;
  test_assert false (match p1 with Some _ => true | None => false end) ~;;
  p2 <~ test_create env ndebug bits (wrap32 cnt) ;;
  test_assert false (match p2 with Some _ => true | None => false end) ~;;
  a1 <~ lift (deref p1) ;;
  a2 <~ lift (deref p2) ;;
  a <~ for_ 0 (to_int32 (PackedArray_bufferSize a1)) (fill_item env) (a1, a2) ;;
  v1 <~ lift (deref v1) ;;
  v1 <~ for_ 0 cnt (draw_item env mask) v1 ;;
  w <~ lift (PackedArray_computeBitsPerItem tc v1 (wrap32 cnt)) ;;
  test_assert false (bits >=? w) ~;;
  v2 <~ lift (deref v2) ;;
  s <~ for_ 0 cnt
        (fun i s => for_ 1 (cnt - i + 1) (bulk_item env ndebug tc bits v1 i) s)
        (a, v2) ;;
  lift (PackedArray_destroy ndebug (Some (fst (fst s)))) ~;;
  lift (PackedArray_destroy ndebug (Some (snd (fst s)))) ~;;
  test_ret tt.

(** The bulk packing / unpacking test. *)
Definition bulk (env : test_env) (ndebug : bool) (tc : toolchain) : test unit :=
  for_ 1 33
    (fun bits _ =>
       let mask := mask_of bits in
       for_ 1 129 (bulk_count env ndebug tc bits mask) tt)
    tt.

(** [main] of the self-test of the specialised implementation. *)
Definition main (env : test_env) (ndebug : bool) (tc : toolchain) : test Z :=
  one_by_one env ndebug ~;;
  bulk env ndebug tc ~;;
  test_ret 0.

(** ** The self-test of the width-agnostic implementation

    Its [main] has the same two tests on one container, without reference
    functions; its [assert] follows the build like the rest of the file,
    and under [NDEBUG] the asserted expression is not evaluated. *)
Module GenericTest.

(** [assert(c)]. *)
Definition checked (ndebug : bool) (c : test bool) : test unit :=
  if ndebug then test_ret tt
  else e <~ c ;; lift (PACKEDARRAY_ASSERT false e).

(** The body of the two [for] loops over [i] of the 1 by 1 test. *)
Definition one_by_one_item (env : test_env) (ndebug : bool) (mask i : Z)
    (a : PackedArray) : test PackedArray :=
  r <~ rand env ;;
  let v1 := Z.land (wrap32 r) mask in
  let v2 := wrap32 (v1 + 1) in
  a <~ lift (Generic.PackedArray_pack ndebug a (wrap32 i) [v1] 1) ;;
  out <~ lift (Generic.PackedArray_unpack a (wrap32 i) [v2] 1) ;;
  let v2 := peek out 0 in
  checked ndebug (test_ret (v1 =? v2)) ~;;
  test_ret a.

(** The body of [for (count = 1; count <= 1024; ++count)]. *)
Definition one_by_one_count (env : test_env) (ndebug : bool)
    (bits mask cnt : Z) (_ : unit) : test unit :=
  array <~ test_create env ndebug bits (wrap32 cnt) ;;
  checked ndebug (a <~ lift (deref array) ;; test_ret (count a =? wrap32 cnt)) ~;;
  checked ndebug (a <~ lift (deref array) ;; test_ret (bitsPerItem a =? bits)) ~;;
  a <~ lift (deref array) ;;
  a <~ for_ 0 cnt (one_by_one_item env ndebug mask) a ;;
  a <~ for_down (cnt - 1) 0 (one_by_one_item env ndebug mask) a ;;
  lift (PackedArray_destroy ndebug array) ~;;
  test_ret tt.

Definition one_by_one (env : test_env) (ndebug : bool) : test unit :=
  for_ 1 33
    (fun bits _ =>
       let mask := mask_of bits in
       for_ 1 1025 (one_by_one_count env ndebug bits mask) tt)
    tt.

(** The body of [for (j = 1; j <= count - i; ++j)] of the bulk test, on
    the container and the array [v2]. *)
Definition bulk_item (env : test_env) (ndebug : bool) (v1 : list Z) (i j : Z)
    (s : PackedArray * list Z) : test (PackedArray * list Z) :=
  a <~ lift (Generic.PackedArray_pack ndebug (fst s) (wrap32 i) v1 (wrap32 j)) ;;
  v2 <~ lift (Generic.PackedArray_unpack a (wrap32 i) (snd s) (wrap32 j)) ;;
  checked ndebug (lift (memcmp_is_0 v1 v2 j)) ~;;
  test_ret (a, v2).

(** The body of [for (count = 1; count <= 128; ++count)]. *)
Definition bulk_count (env : test_env) (ndebug : bool)
    (bits mask cnt : Z) (_ : unit) : test unit :=
  v1 <~ malloc env cnt ;;
  checked ndebug
    (test_ret match v1 with Some _ => true | None => false end) ~;;
  v2 <~ malloc env cnt ;;
  checked ndebug
    (test_ret match v2 with Some _ => true | None => false end) ~;;
  array <~ test_create env ndebug bits (wrap32 cnt) ;;
  checked ndebug
    (test_ret match array with Some _ => true | None => false end) ~;;
  v1 <~ lift (deref v1) ;;
  v1 <~ for_ 0 cnt (draw_item env mask) v1 ;;
  a <~ lift (deref array) ;;
  v2 <~ lift (deref v2) ;;
  s <~ for_ 0 cnt
        (fun i s => for_ 1 (cnt - i + 1) (bulk_item env ndebug v1 i) s)
        (a, v2) ;;
  lift (PackedArray_destroy ndebug array) ~;;
  test_ret tt.

Definition bulk (env : test_env) (ndebug : bool) : test unit :=
  for_ 1 33
    (fun bits _ =>
       let mask := mask_of bits in
       for_ 1 129 (bulk_count env ndebug bits mask) tt)
    tt.

(** [main] of the self-test of the width-agnostic implementation. *)
Definition main (env : test_env) (ndebug : bool) : test Z :=
  one_by_one env ndebug ~;;
  bulk env ndebug ~;;
  test_ret 0.

End GenericTest.

(** ** Specification vocabulary

    The data model of the container, in the words of its documentation:
    the items are tightly packed, item [i] occupying the bits
    [[i * bitsPerItem, (i + 1) * bitsPerItem)] of the buffer read as one
    little-endian bit string (bit [b] of word [w] is bit [32 * w + b]). *)

(** The buffer as one bit string. *)
Fixpoint bits_of (m : list Z) : Z :=
  match m with
  | [] => 0
  | w :: t => Z.lor w (Z.shiftl (bits_of t) 32)
  end.

(** The value held by the bit window of item [i]. *)
Definition item_at (B : Z) (m : list Z) (i : Z) : Z :=
  Z.land (Z.shiftr (bits_of m) (i * B)) (Z.ones B).

(** The bit string [x] with the window of item [i] replaced by [v]. *)
Definition write_item (B : Z) (x : Z) (i : Z) (v : Z) : Z :=
  Z.lor (Z.ldiff x (Z.shiftl (Z.ones B) (i * B))) (Z.shiftl v (i * B)).

(** [write_item] for consecutive items [i], [i + 1], ... *)
Fixpoint write_items (B : Z) (x : Z) (i : Z) (vs : list Z) : Z :=
  match vs with
  | [] => x
  | v :: t => write_items B (write_item B x i v) (i + 1) t
  end.

(** The items [offset], ..., [offset + n - 1]. *)
Definition items_at (B : Z) (m : list Z) (offset : Z) (n : nat) : list Z :=
  map (fun j => item_at B m (offset + Z.of_nat j)) (seq 0 n).

(** [v] is representable in [B] bits. *)
Definition fits (B v : Z) : Prop := 0 <= v < 2 ^ B.

(** [ceil(x / 32)], as the least number of 32-bit words that hold [x] bits. *)
Definition is_ceil_div32 (x n : Z) : Prop := 32 * (n - 1) < x <= 32 * n.

(** A container as [PackedArray_create] makes them, whatever its words. *)
Record wf_array (a : PackedArray) : Prop := mkWf {
  wf_bits : 1 <= bitsPerItem a <= 32;
  wf_count : 0 <= count a < 2 ^ 32;
  wf_length : Z.of_nat (length (buffer a)) = (bitsPerItem a * count a + 31) / 32;
  wf_words : Forall is_u32 (buffer a)
}.

(** The widths the implementation is generated for. *)
Definition widths : list Z := map Z.of_nat (seq 1 32).

(** The word the specialised pack will eventually store at [ps_out]: the
    bits below the cursor come from [ps_packed], the others are still those
    of the buffer. *)
Definition pending_word (sb packed old : Z) : Z :=
  Z.lor packed (Z.land old (not32 (Z.ones sb))).

Definition pending (sb : Z) (s : pack_state) : list Z :=
  upd (ps_buf s) (Z.to_nat (ps_out s))
      (pending_word sb (ps_packed s) (peek (ps_buf s) (ps_out s))).

(** The largest of the values, 0 for none. *)
Definition maximum (l : list Z) : Z := fold_right Z.max 0 l.

(** Bit [i] of [x] is set exactly when one of the [m] bits of [v] from [i]
    up is: the state of the smearing [v |= v >> 1; v |= v >> 2; ...] of
    [__PackedArray_log2]. *)
Definition reaches (v x m : Z) : Prop :=
  forall i, 0 <= i ->
    (Z.testbit x i = true <->
     exists d, 0 <= d < m /\ Z.testbit v (i + d) = true).

(** Item [i] lies inside a buffer of [len] words. *)
Definition item_in (B len i : Z) : Prop := 0 <= i /\ (i + 1) * B <= 32 * len.

(** The cursor of the generic engine before the item that starts at bit
    [p]: it is either on the word of that bit, or still on the previous
    word, which the last item filled exactly. *)
Definition cursor_at (p out startBit bitsAvailable : Z) : Prop :=
  (startBit = p mod 32 /\ out = p / 32 /\ bitsAvailable = 32 - p mod 32) \/
  (startBit = 32 /\ p mod 32 = 0 /\ out = p / 32 - 1 /\ bitsAvailable = 0).

(** The state of the generic pack loop after [k] items: the buffer with
    the accumulator stored at the cursor holds the first [k] values. *)
Record generic_pack_inv (B : Z) (buf0 : list Z) (offset : Z) (input : list Z)
    (k : nat) (s : pack_cursor) : Prop := mkGenericPackInv {
  gpi_in : pc_in s = Z.of_nat k;
  gpi_len : length (pc_buf s) = length buf0;
  gpi_words : Forall is_u32 (pc_buf s);
  gpi_packed : is_u32 (pc_packed s);
  gpi_out : 0 <= pc_out s < Z.of_nat (length buf0);
  gpi_cursor :
    cursor_at ((offset + Z.of_nat k) * B)
      (pc_out s) (pc_startBit s) (pc_bitsAvailable s);
  gpi_bits :
    bits_of (upd (pc_buf s) (Z.to_nat (pc_out s)) (pc_packed s)) =
    write_items B (bits_of buf0) offset (firstn k input)
}.

(** The state of the generic unpack loop after [k] items. *)
Record generic_unpack_inv (B : Z) (buf : list Z) (offset : Z) (dst0 : list Z)
    (k : nat) (s : unpack_cursor) : Prop := mkGenericUnpackInv {
  gui_out : uc_out s = Z.of_nat k;
  gui_dst : uc_dst s = items_at B buf offset k ++ skipn k dst0;
  gui_in : 0 <= uc_in s;
  gui_packed : uc_packed s = peek buf (uc_in s);
  gui_cursor :
    cursor_at ((offset + Z.of_nat k) * B)
      (uc_in s) (uc_startBit s) (uc_bitsAvailable s)
}.

(** The state of the specialised pack after [k] items: the words before
    the cursor are final, the accumulator holds the bits below the cursor
    of the current word, and the buffer completed by the pending word holds
    the first [k] values. *)
Record pack_inv (B : Z) (buf0 : list Z) (offset : Z) (input : list Z)
    (k : nat) (s : pack_state) : Prop := mkPackInv {
  pi_in : ps_in s = Z.of_nat k;
  pi_out : ps_out s = (offset + Z.of_nat k) * B / 32;
  pi_len : length (ps_buf s) = length buf0;
  pi_words : Forall is_u32 (ps_buf s);
  pi_packed : fits (((offset + Z.of_nat k) * B) mod 32) (ps_packed s);
  pi_bits :
    bits_of (pending (((offset + Z.of_nat k) * B) mod 32) s) =
    write_items B (bits_of buf0) offset (firstn k input)
}.

(** Where a fall-through over [n] labels that starts after [k] items stops:
    after [c] more items, at the [break] or at the last label. *)
Definition stops_after (brk : option Z) (k n c : nat) : Prop :=
  match brk with
  | None => c = n
  | Some end_ => (1 <= c <= n)%nat /\ end_ = Z.of_nat (k + c)
  end.

(** The state of the specialised unpack after [k] items.  [fresh] tells
    whether [us_packed] already is the word of the next item; otherwise the
    next item starts the word after [us_in], which is still to be loaded. *)
Record unpack_inv (B : Z) (buf : list Z) (offset : Z) (dst0 : list Z)
    (fresh : bool) (k : nat) (s : unpack_state) : Prop := mkUnpackInv {
  ui_out : us_out s = Z.of_nat k;
  ui_dst : us_dst s = items_at B buf offset k ++ skipn k dst0;
  ui_in :
    if fresh then
      us_in s = (offset + Z.of_nat k) * B / 32 /\
      us_packed s = peek buf (us_in s)
    else
      ((offset + Z.of_nat k) * B) mod 32 = 0 /\
      us_in s = (offset + Z.of_nat k) * B / 32 - 1
}.

(** Bit [k] of the buffer: bit [k mod 32] of word [k / 32]. *)
Definition buffer_bit (a : PackedArray) (k : Z) : bool :=
  Z.testbit (peek (buffer a) (k / 32)) (k mod 32).

(** Every slot of [dst'] either is as in [dst] or holds a value that fits
    [B] bits. *)
Definition masked_update (B : Z) (dst dst' : list Z) : Prop :=
  forall j, nth j dst' 0 = nth j dst 0 \/ fits B (nth j dst' 0).

(** ** Vocabulary of the further properties *)

(** [PackedArray_set] of consecutive items, one call per value. *)
Fixpoint set_each (ndebug : bool) (a : PackedArray) (i : Z) (vs : list Z)
    : res PackedArray :=
  match vs with
  | [] => Ok a
  | v :: t => a <- PackedArray_set ndebug a i v ;; set_each ndebug a (i + 1) t
  end.

(** [PackedArray_get] of [n] consecutive items, one call per item. *)
Fixpoint get_each (a : PackedArray) (i : Z) (n : nat) : res (list Z) :=
  match n with
  | O => Ok []
  | S k =>
      v <- PackedArray_get a i ;;
      t <- get_each a (i + 1) k ;;
      Ok (v :: t)
  end.

(** Two states of the specialised pack with the same cursors, on buffers
    of the same size. *)
Definition same_shape (s s' : pack_state) : Prop :=
  ps_out s = ps_out s' /\ ps_in s = ps_in s' /\
  length (ps_buf s) = length (ps_buf s').

(** Two outcomes that differ in the values computed only. *)
Definition alike {A : Type} (R : A -> A -> Prop) (r r' : res A) : Prop :=
  match r, r' with
  | Ok x, Ok y => R x y
  | Err e, Err e' => e = e'
  | _, _ => False
  end.

Definition same_length (b b' : list Z) : Prop := length b = length b'.

(** [c] returns, with a result that satisfies [P], from every state. *)
Definition runs {A : Type} (c : test A) (P : A -> Prop) : Prop :=
  forall st, exists x st', c st = Ok (x, st') /\ P x.

(** The environments of the self-test: [rand] returns an [int] that is not
    negative, and no allocation fails. *)
Definition obliging (env : test_env) : Prop :=
  (forall k, 0 <= rand_result env k < 2 ^ 31) /\
  (forall k, malloc_result env k <> None).

(** Two containers with the same content, of [bits] bits per item and
    [cnt] items. *)
Definition twins (bits cnt : Z) (a : PackedArray * PackedArray) : Prop :=
  wf_array (fst a) /\ snd a = fst a /\
  bitsPerItem (fst a) = bits /\ count (fst a) = cnt.

(** The state of the loop that fills both buffers, before word [j]. *)
Definition filled (bits cnt j : Z) (a : PackedArray * PackedArray) : Prop :=
  wf_array (fst a) /\ wf_array (snd a) /\
  bitsPerItem (fst a) = bits /\ bitsPerItem (snd a) = bits /\
  count (fst a) = cnt /\ count (snd a) = cnt /\
  forall k, 0 <= k < j -> peek (buffer (fst a)) k = peek (buffer (snd a)) k.

(** The variables of the inner loops of the bulk test: two containers
    with the same content and the array [v2]. *)
Definition bulk_vars (bits cnt : Z) (s : PackedArray * PackedArray * list Z)
    : Prop :=
  twins bits cnt (fst s) /\ Z.of_nat (length (snd s)) = cnt /\
  Forall is_u32 (snd s).

(** The array [v1] before its item [j] is drawn. *)
Definition drawn (bits cnt j : Z) (v1 : list Z) : Prop :=
  Z.of_nat (length v1) = cnt /\ Forall is_u32 v1 /\
  forall k, 0 <= k < j -> fits bits (peek v1 k).

(** A container of [bits] bits per item and [cnt] items. *)
Definition sized (bits cnt : Z) (a : PackedArray) : Prop :=
  wf_array a /\ bitsPerItem a = bits /\ count a = cnt.

(** The variables of the inner loops of the generic bulk test. *)
Definition generic_bulk_vars (bits cnt : Z) (s : PackedArray * list Z) : Prop :=
  sized bits cnt (fst s) /\ Z.of_nat (length (snd s)) = cnt.

(** * Verification *)

(** ** Machine arithmetic *)

Lemma wrap32_small x : 0 <= x < 2 ^ 32 -> wrap32 x = x.
Proof. intros H. unfold wrap32. apply Z.mod_small. exact H. Qed.

Lemma wrap64_small x : 0 <= x < 2 ^ 64 -> wrap64 x = x.
Proof. intros H. unfold wrap64. apply Z.mod_small. exact H. Qed.

Lemma wrap32_range x : 0 <= wrap32 x < 2 ^ 32.
Proof. unfold wrap32. apply Z.mod_pos_bound. reflexivity. Qed.

Lemma to_int32_small x : 0 <= x < 2 ^ 31 -> to_int32 x = x.
Proof.
  intros H. unfold to_int32. rewrite wrap32_small by lia.
  destruct (Z.ltb_spec x (2 ^ 31)); lia.
Qed.

Lemma widths_complete (P : Z -> bool) :
  forallb P widths = true -> forall B, 1 <= B <= 32 -> P B = true.
Proof.
  intros H B HB. rewrite forallb_forall in H. apply H.
  unfold widths. apply in_map_iff. exists (Z.to_nat B). split; [lia|].
  apply in_seq. lia.
Qed.

Lemma mask_of_ones B : 1 <= B <= 32 -> mask_of B = Z.ones B.
Proof.
  intros HB. apply Z.eqb_eq.
  apply (widths_complete (fun B => mask_of B =? Z.ones B)); [|exact HB].
  vm_compute. reflexivity.
Qed.

Lemma IMPL_MASK_ones B : 1 <= B <= 32 -> PACKEDARRAY_IMPL_MASK B = Z.ones B.
Proof.
  intros HB. apply Z.eqb_eq.
  apply (widths_complete (fun B => PACKEDARRAY_IMPL_MASK B =? Z.ones B));
    [|exact HB].
  vm_compute. reflexivity.
Qed.

(** C8: for every width [B] in 1..32 the item mask is [2^B - 1] as a 32-bit
    word, in both forms the implementation computes it
    ([(uint32_t)(1ULL << B) - 1] in [get], [set] and the generic engine,
    [PACKEDARRAY_IMPL_MASK] in the specialised one); at width 32 it is the
    all-ones word [0xFFFFFFFF]: the 64-bit shift does not overflow. *)
Theorem C8_mask_is_pow2_minus_1 B :
  1 <= B <= 32 ->
  mask_of B = 2 ^ B - 1 /\ PACKEDARRAY_IMPL_MASK B = 2 ^ B - 1 /\
  is_u32 (mask_of B) /\
  (B = 32 -> mask_of B = 0xFFFFFFFF /\ PACKEDARRAY_IMPL_MASK B = 0xFFFFFFFF).
Proof.
  intros HB. rewrite mask_of_ones, IMPL_MASK_ones by exact HB.
  rewrite Z.ones_equiv, <- Z.sub_1_r.
  assert (2 ^ B <= 2 ^ 32) by (apply Z.pow_le_mono_r; lia).
  assert (0 < 2 ^ B) by (apply Z.pow_pos_nonneg; lia).
  repeat split; try lia; subst B; reflexivity.
Qed.

Lemma C8_mask_witness :
  mask_of 32 = 2 ^ 32 - 1 /\ PACKEDARRAY_IMPL_MASK 32 = 2 ^ 32 - 1 /\
  is_u32 (mask_of 32) /\
  (32 = 32 -> mask_of 32 = 0xFFFFFFFF /\ PACKEDARRAY_IMPL_MASK 32 = 0xFFFFFFFF).
Proof. apply (C8_mask_is_pow2_minus_1 32). lia. Defined.

(** ** Memory blocks *)

Lemma upd_length m i v : length (upd m i v) = length m.
Proof.
  revert i. induction m as [|h t IH]; intros [|i]; simpl; auto.
Qed.

Lemma nth_upd m i j v :
  nth j (upd m i v) 0 = if (Nat.eqb j i && Nat.ltb i (length m))%bool then v else nth j m 0.
Proof.
  revert i j. induction m as [|h t IH]; intros i j.
  - simpl. rewrite andb_false_r. destruct i, j; reflexivity.
  - destruct i as [|i], j as [|j]; simpl; auto.
Qed.

Lemma upd_out_of_range m i v : (length m <= i)%nat -> upd m i v = m.
Proof.
  revert i. induction m as [|h t IH]; intros [|i] H; simpl in *; auto; try lia.
  f_equal. apply IH. lia.
Qed.

Lemma upd_same m i : upd m i (nth i m 0) = m.
Proof.
  revert i. induction m as [|h t IH]; intros [|i]; simpl; auto.
  f_equal. apply IH.
Qed.

Lemma upd_upd m i v w : upd (upd m i v) i w = upd m i w.
Proof.
  revert i. induction m as [|h t IH]; intros [|i]; simpl; auto.
  f_equal. apply IH.
Qed.

Lemma Forall_upd (P : Z -> Prop) m i v :
  Forall P m -> P v -> Forall P (upd m i v).
Proof.
  intros Hm Hv. revert i.
  induction Hm as [|h t Hh Ht IH]; intros [|i]; simpl; auto.
Qed.

Lemma Forall_peek (P : Z -> Prop) m i :
  Forall P m -> P 0 -> P (peek m i).
Proof.
  intros Hm H0. unfold peek.
  destruct (Nat.lt_ge_cases (Z.to_nat i) (length m)) as [Hlt|Hge].
  - rewrite Forall_forall in Hm. apply Hm. apply nth_In. exact Hlt.
  - rewrite nth_overflow by exact Hge. exact H0.
Qed.

Lemma is_u32_0 : is_u32 0.
Proof. unfold is_u32. lia. Qed.

Lemma peek_u32 m i : Forall is_u32 m -> is_u32 (peek m i).
Proof. intros H. apply Forall_peek; [exact H | exact is_u32_0]. Qed.

Lemma in_block_true m i :
  0 <= i < Z.of_nat (length m) -> in_block m i = true.
Proof.
  intros H. unfold in_block.
  apply andb_true_intro. split; [apply Z.leb_le | apply Z.ltb_lt]; lia.
Qed.

Lemma load_ok m i : 0 <= i < Z.of_nat (length m) -> load m i = Ok (peek m i).
Proof. intros H. unfold load. rewrite in_block_true by exact H. reflexivity. Qed.

Lemma store_ok m i v :
  0 <= i < Z.of_nat (length m) -> store m i v = Ok (upd m (Z.to_nat i) v).
Proof. intros H. unfold store. rewrite in_block_true by exact H. reflexivity. Qed.

Lemma peek_upd m i j v :
  0 <= i -> 0 <= j ->
  peek (upd m (Z.to_nat i) v) j =
  if (j =? i) && (i <? Z.of_nat (length m)) then v else peek m j.
Proof.
  intros Hi Hj. unfold peek. rewrite nth_upd.
  destruct (Z.eqb_spec j i) as [->|Hne].
  - rewrite Nat.eqb_refl. simpl.
    destruct (Z.ltb_spec i (Z.of_nat (length m))) as [Hlt|Hge].
    + replace (Z.to_nat i <? length m)%nat with true; [reflexivity|].
      symmetry. apply Nat.ltb_lt. lia.
    + replace (Z.to_nat i <? length m)%nat with false; [reflexivity|].
      symmetry. apply Nat.ltb_ge. lia.
  - replace (Z.to_nat j =? Z.to_nat i)%nat with false; [reflexivity|].
    symmetry. apply Nat.eqb_neq. lia.
Qed.

(** ** Creation and sizing *)

Lemma words_no_wrap B n :
  1 <= B <= 32 -> 0 <= n < 2 ^ 32 ->
  wrap64 (wrap64 (B * n) + 31) / 32 = (B * n + 31) / 32 /\
  0 <= (B * n + 31) / 32 < 2 ^ 32.
Proof.
  intros HB Hn.
  assert (0 <= B * n <= 32 * (2 ^ 32 - 1)) by nia.
  rewrite (wrap64_small (B * n)) by lia. rewrite wrap64_small by lia.
  split; [reflexivity|].
  split; [apply Z.div_pos; lia|]. apply Z.div_lt_upper_bound; lia.
Qed.

Lemma ceil_div32_spec x : 0 <= x -> is_ceil_div32 x ((x + 31) / 32).
Proof.
  intros Hx. unfold is_ceil_div32.
  pose proof (Z.div_mod (x + 31) 32 ltac:(lia)).
  pose proof (Z.mod_pos_bound (x + 31) 32 ltac:(lia)). lia.
Qed.

(** [PackedArray_create] succeeds for at least one item, and makes a
    well-formed container whose last word is zero. *)
Lemma create_ok ndebug content B n :
  1 <= B <= 32 -> 1 <= n < 2 ^ 32 ->
  exists a,
    PackedArray_create ndebug (Some content) B n = Ok (Some a) /\
    bitsPerItem a = B /\ count a = n /\ wf_array a /\
    peek (buffer a) ((B * n + 31) / 32 - 1) = 0.
Proof.
  intros HB Hn. unfold PackedArray_create.
  destruct (words_no_wrap B n HB ltac:(lia)) as [Hw Hr]. rewrite Hw.
  set (words := (B * n + 31) / 32) in *.
  assert (1 <= words).
  { unfold words. apply Z.div_le_lower_bound; nia. }
  replace (0 <? B) with true by (symmetry; apply Z.ltb_lt; lia).
  replace (B <=? 32) with true by (symmetry; apply Z.leb_le; lia).
  unfold PACKEDARRAY_ASSERT. rewrite !orb_true_r. cbn [bind].
  rewrite (wrap64_small (4 * words)) by lia.
  replace (4 * words / 4) with words by (symmetry; rewrite Z.mul_comm; apply Z.div_mul; lia).
  rewrite (wrap64_small (words - 1)) by lia.
  set (block := map _ _).
  assert (Hlen : Z.of_nat (length block) = words).
  { unfold block. rewrite length_map, length_seq. lia. }
  assert (Hblock : Forall is_u32 block).
  { unfold block. apply Forall_forall. intros x Hx.
    apply in_map_iff in Hx. destruct Hx as [i [<- _]]. apply wrap32_range. }
  rewrite store_ok by lia. cbn [bind].
  eexists. split; [reflexivity|]. simpl.
  repeat split; simpl; try lia.
  - rewrite upd_length. exact Hlen.
  - apply Forall_upd; [exact Hblock | exact is_u32_0].
  - rewrite peek_upd by lia. rewrite Z.eqb_refl.
    replace (words - 1 <? Z.of_nat (length block)) with true; [reflexivity|].
    symmetry. apply Z.ltb_lt. lia.
Qed.

(** C7: for every width 1..32 and every count, [PackedArray_bufferSize] of a
    container with those parameters is [ceil(bitsPerItem * count / 32)], and
    for a container returned by [PackedArray_create] with them it is also
    the length of the buffer; 9 bits and 10 items give 3 words. *)
Theorem C7_bufferSize_is_ceil ndebug content B n words :
  1 <= B <= 32 -> 0 <= n < 2 ^ 32 ->
  is_ceil_div32 (B * n) (PackedArray_bufferSize (mkPackedArray B n words)) /\
  PackedArray_bufferSize (mkPackedArray 9 10 words) = 3 /\
  (forall heap a,
      PackedArray_create ndebug heap B n = Ok (Some a) ->
      bitsPerItem a = B /\ count a = n /\
      is_ceil_div32 (B * n) (PackedArray_bufferSize a) /\
      PackedArray_bufferSize a = Z.of_nat (length (buffer a))) /\
  (n = 0 \/
   exists a, PackedArray_create ndebug (Some content) B n = Ok (Some a)).
Proof.
  intros HB Hn.
  destruct (words_no_wrap B n HB Hn) as [Hw Hr].
  assert (Hsize : forall words,
             PackedArray_bufferSize (mkPackedArray B n words) = (B * n + 31) / 32).
  { intros ws. unfold PackedArray_bufferSize. cbn [bitsPerItem count].
    rewrite Hw. apply wrap32_small. exact Hr. }
  split; [|split; [|split]].
  - rewrite Hsize. apply ceil_div32_spec. nia.
  - reflexivity.
  - intros heap a Hc. unfold PackedArray_create in Hc.
    destruct (PACKEDARRAY_ASSERT ndebug (0 <? B)); [|discriminate].
    destruct (PACKEDARRAY_ASSERT ndebug (B <=? 32)); [|discriminate].
    cbn [bind] in Hc. destruct heap as [c|]; [|discriminate].
    rewrite Hw in Hc. set (ws := (B * n + 31) / 32) in *.
    rewrite (wrap64_small (4 * ws)) in Hc by lia.
    replace (4 * ws / 4) with ws in Hc
      by (symmetry; rewrite Z.mul_comm; apply Z.div_mul; lia).
    unfold store in Hc.
    destruct (in_block _ _); [|discriminate]. cbn [bind] in Hc.
    injection Hc as <-. rewrite Hsize. cbn [bitsPerItem count buffer].
    split; [reflexivity|]. split; [reflexivity|]. split.
    + apply ceil_div32_spec. nia.
    + rewrite upd_length, length_map, length_seq. fold ws. lia.
  - destruct (Z.eq_dec n 0) as [Hz|Hnz]; [left; exact Hz|right].
    destruct (create_ok ndebug content B n HB ltac:(lia)) as [a [Ha _]].
    exists a. exact Ha.
Qed.

Lemma C7_bufferSize_witness :
  is_ceil_div32 (9 * 10) (PackedArray_bufferSize (mkPackedArray 9 10 [])) /\
  PackedArray_bufferSize (mkPackedArray 9 10 []) = 3 /\
  (forall heap a,
      PackedArray_create false heap 9 10 = Ok (Some a) ->
      bitsPerItem a = 9 /\ count a = 10 /\
      is_ceil_div32 (9 * 10) (PackedArray_bufferSize a) /\
      PackedArray_bufferSize a = Z.of_nat (length (buffer a))) /\
  (10 = 0 \/
   exists a, PackedArray_create false (Some (fun _ => 0)) 9 10 = Ok (Some a)).
Proof.
  apply (C7_bufferSize_is_ceil false (fun _ => 0) 9 10 []); lia.
Defined.

(** C10 (the code fails the claim at [count = 0]): with no item to store,
    the buffer has no word and the index
    [ceil(bitsPerItem * count / 32) - 1] of the zero-initialising store of
    [PackedArray_create] underflows to [2^64 - 1], outside the buffer, for
    every width and in both builds. *)
Theorem C10_create_zero_count_out_of_bounds ndebug content B :
  1 <= B <= 32 ->
  wrap64 (wrap64 (B * 0) + 31) / 32 = 0 /\
  wrap64 (wrap64 (wrap64 (B * 0) + 31) / 32 - 1) = 2 ^ 64 - 1 /\
  PackedArray_create ndebug (Some content) B 0 = Err OutOfBounds.
Proof.
  intros HB. rewrite Z.mul_0_r. split; [reflexivity|]. split; [reflexivity|].
  unfold PackedArray_create.
  replace (0 <? B) with true by (symmetry; apply Z.ltb_lt; lia).
  replace (B <=? 32) with true by (symmetry; apply Z.leb_le; lia).
  unfold PACKEDARRAY_ASSERT. rewrite !orb_true_r. cbn [bind].
  rewrite Z.mul_0_r. reflexivity.
Qed.

Lemma C10_create_zero_count_witness :
  wrap64 (wrap64 (1 * 0) + 31) / 32 = 0 /\
  wrap64 (wrap64 (wrap64 (1 * 0) + 31) / 32 - 1) = 2 ^ 64 - 1 /\
  PackedArray_create false (Some (fun _ => 0)) 1 0 = Err OutOfBounds.
Proof.
  apply (C10_create_zero_count_out_of_bounds false (fun _ => 0) 1). lia.
Defined.

(** ** Width inference *)

Lemma testbit_false_lt v k :
  0 <= k -> 0 <= v < 2 ^ (k + 1) -> Z.testbit v k = false -> v < 2 ^ k.
Proof.
  intros Hk Hv Hb. apply Z.testbit_false in Hb; [|exact Hk].
  assert (Hp : 0 < 2 ^ k) by (apply Z.pow_pos_nonneg; lia).
  rewrite Z.pow_add_r, Z.pow_1_r in Hv by lia.
  assert (v / 2 ^ k < 2) by (apply Z.div_lt_upper_bound; lia).
  assert (0 <= v / 2 ^ k) by (apply Z.div_pos; lia).
  assert (Hq : v / 2 ^ k = 0).
  { pose proof (Z.mod_small (v / 2 ^ k) 2 ltac:(lia)). lia. }
  apply Z.div_small_iff in Hq; lia.
Qed.

Lemma testbit_true_ge v k :
  0 <= k -> 0 <= v -> Z.testbit v k = true -> 2 ^ k <= v.
Proof.
  intros Hk Hv Hb.
  destruct (Z.lt_ge_cases v (2 ^ k)) as [Hlt|Hge]; [|exact Hge].
  apply Z.testbit_true in Hb; [|exact Hk].
  rewrite Z.div_small in Hb by lia. discriminate.
Qed.

Lemma clz_from_log2 n v :
  0 < v < 2 ^ Z.of_nat n -> clz_from n v = Z.of_nat n - 1 - Z.log2 v.
Proof.
  induction n as [|k IH]; intros Hv.
  - simpl in Hv. lia.
  - cbn [clz_from]. destruct (Z.testbit v (Z.of_nat k)) eqn:Hb.
    + apply testbit_true_ge in Hb; try lia.
      rewrite (Z.log2_unique v (Z.of_nat k)); lia.
    + apply testbit_false_lt in Hb; lia.
Qed.


Lemma reaches_init v : reaches v v 1.
Proof.
  intros i Hi. split.
  - intros H. exists 0. rewrite Z.add_0_r. split; [lia | exact H].
  - intros [d [Hd H]]. replace (i + d) with i in H by lia. exact H.
Qed.

Lemma reaches_step v x m :
  0 < m -> reaches v x m -> reaches v (Z.lor x (Z.shiftr x m)) (2 * m).
Proof.
  intros Hm Hx i Hi.
  rewrite Z.lor_spec, Z.shiftr_spec, orb_true_iff by exact Hi.
  rewrite (Hx i Hi), (Hx (i + m) ltac:(lia)). split.
  - intros [[d [Hd H]]|[d [Hd H]]].
    + exists d. split; [lia | exact H].
    + exists (m + d). split; [lia|]. rewrite Z.add_assoc. exact H.
  - intros [d [Hd H]]. destruct (Z.lt_ge_cases d m).
    + left. exists d. split; [lia | exact H].
    + right. exists (d - m). split; [lia|].
      replace (i + m + (d - m)) with (i + d) by lia. exact H.
Qed.

Lemma log2_table_correct B :
  1 <= B <= 32 ->
  peek multiplyDeBruijnBitPosition
       (Z.shiftr (wrap32 (Z.ones B * 0x7C4ACDD)) 27) = B - 1.
Proof.
  intros HB. apply Z.eqb_eq.
  apply (widths_complete
           (fun B => peek multiplyDeBruijnBitPosition
                       (Z.shiftr (wrap32 (Z.ones B * 0x7C4ACDD)) 27) =? B - 1));
    [|exact HB].
  vm_compute. reflexivity.
Qed.

Lemma PackedArray_log2_correct v :
  0 < v < 2 ^ 32 -> __PackedArray_log2 v = Z.log2 v.
Proof.
  intros Hv. unfold __PackedArray_log2.
  set (x1 := Z.lor v (Z.shiftr v 1)).
  set (x2 := Z.lor x1 (Z.shiftr x1 2)).
  set (x4 := Z.lor x2 (Z.shiftr x2 4)).
  set (x8 := Z.lor x4 (Z.shiftr x4 8)).
  set (x16 := Z.lor x8 (Z.shiftr x8 16)).
  assert (H32 : reaches v x16 32).
  { pose proof (reaches_step v v 1 ltac:(lia) (reaches_init v)) as H2.
    pose proof (reaches_step v x1 2 ltac:(lia) H2) as H4.
    pose proof (reaches_step v x2 4 ltac:(lia) H4) as H8.
    pose proof (reaches_step v x4 8 ltac:(lia) H8) as H16.
    exact (reaches_step v x8 16 ltac:(lia) H16). }
  assert (Hlog : 0 <= Z.log2 v < 32).
  { split; [apply Z.log2_nonneg|]. apply Z.log2_lt_pow2; lia. }
  assert (Hx : x16 = Z.ones (Z.log2 v + 1)).
  { apply Z.bits_inj'. intros i Hi.
    rewrite Z.testbit_ones_nonneg by lia.
    destruct (Z.ltb_spec i (Z.log2 v + 1)) as [Hlt|Hge].
    - apply H32; [exact Hi|]. exists (Z.log2 v - i). split; [lia|].
      replace (i + (Z.log2 v - i)) with (Z.log2 v) by lia.
      apply Z.bit_log2. lia.
    - destruct (Z.testbit x16 i) eqn:Hb; [|reflexivity].
      apply H32 in Hb; [|exact Hi]. destruct Hb as [d [Hd Hb]].
      rewrite Z.bits_above_log2 in Hb by lia. discriminate. }
  rewrite Hx, log2_table_correct by lia. lia.
Qed.

Lemma highestBitSet_correct tc v :
  0 <= v < 2 ^ 32 ->
  __PackedArray_highestBitSet tc v = if v =? 0 then -1 else Z.log2 v.
Proof.
  intros Hv. unfold __PackedArray_highestBitSet, _BitScanReverse, __builtin_clz.
  destruct (Z.eqb_spec v 0) as [->|Hne].
  - destruct tc; reflexivity.
  - assert (Hc : clz_from 32 v = 31 - Z.log2 v).
    { rewrite clz_from_log2; simpl Z.of_nat; lia. }
    destruct tc; cbn [negb]; rewrite ?Hc, ?PackedArray_log2_correct; lia.
Qed.


Lemma maximum_u32 l : Forall is_u32 l -> is_u32 (maximum l).
Proof.
  induction 1 as [|h t Hh Ht IH]; simpl; [exact is_u32_0|].
  unfold is_u32 in *. lia.
Qed.

Lemma scan_max_correct n input i m :
  (i + n <= length input)%nat -> 0 <= m ->
  scan_max n input (Z.of_nat i) m =
  Ok (Z.max m (maximum (firstn n (skipn i input)))).
Proof.
  revert i m. induction n as [|k IH]; intros i m Hlen Hm.
  - cbn [scan_max firstn]. unfold maximum. cbn [fold_right].
    f_equal. lia.
  - cbn [scan_max]. rewrite load_ok by lia. cbn [bind].
    replace (Z.of_nat i + 1) with (Z.of_nat (S i)) by lia.
    replace (if peek input (Z.of_nat i) >? m then peek input (Z.of_nat i) else m)
      with (Z.max m (peek input (Z.of_nat i)))
      by (destruct (Z.gtb_spec (peek input (Z.of_nat i)) m); lia).
    rewrite IH by lia.
    assert (Hs : skipn i input = peek input (Z.of_nat i) :: skipn (S i) input).
    { unfold peek. rewrite Nat2Z.id.
      clear - Hlen. revert i Hlen.
      induction input as [|h t IHt]; intros [|i] Hlen; simpl in *; try lia; auto.
      apply IHt. lia. }
    rewrite Hs. cbn [firstn maximum fold_right]. fold (maximum (firstn k (skipn (S i) input))).
    f_equal. lia.
Qed.

(** C6: [PackedArray_computeBitsPerItem] returns the position of the
    highest set bit of the maximum plus one when the maximum is non-zero,
    and 1 when all values are zero or there is none, whichever branch of
    [__PackedArray_highestBitSet] the toolchain selects; so [[0]] gives 1,
    [[131071]] gives 17 and the empty sequence gives 1. *)
Theorem C6_computeBitsPerItem_spec tc input :
  Forall is_u32 input ->
  PackedArray_computeBitsPerItem tc input (Z.of_nat (length input)) =
    Ok (if maximum input =? 0 then 1 else Z.log2 (maximum input) + 1) /\
  PackedArray_computeBitsPerItem tc [0] 1 = Ok 1 /\
  PackedArray_computeBitsPerItem tc [131071] 1 = Ok 17 /\
  PackedArray_computeBitsPerItem tc [] 0 = Ok 1.
Proof.
  assert (Hgen : forall l, Forall is_u32 l ->
    PackedArray_computeBitsPerItem tc l (Z.of_nat (length l)) =
      Ok (if maximum l =? 0 then 1 else Z.log2 (maximum l) + 1)).
  { intros l Hl. unfold PackedArray_computeBitsPerItem.
    rewrite Nat2Z.id.
    change 0 with (Z.of_nat 0) at 1.
    rewrite (scan_max_correct (length l) l 0 0) by (simpl; lia).
    cbn [bind skipn]. rewrite firstn_all, Z.max_r
      by (apply maximum_u32 in Hl; unfold is_u32 in Hl; lia).
    pose proof (maximum_u32 l Hl) as Hm.
    rewrite highestBitSet_correct by exact Hm.
    f_equal. destruct (Z.eqb_spec (maximum l) 0) as [H0|H0].
    - reflexivity.
    - assert (0 <= Z.log2 (maximum l) < 32).
      { split; [apply Z.log2_nonneg|].
        unfold is_u32 in Hm. apply Z.log2_lt_pow2; lia. }
      rewrite wrap32_small by lia.
      destruct (Z.eqb_spec (Z.log2 (maximum l) + 1) 0); lia. }
  intros Hin. split; [apply Hgen; exact Hin|].
  split; [|split].
  - apply (Hgen [0]). repeat constructor; unfold is_u32; lia.
  - apply (Hgen [131071]). repeat constructor; unfold is_u32; lia.
  - apply (Hgen []). constructor.
Qed.

Lemma C6_computeBitsPerItem_witness :
  PackedArray_computeBitsPerItem Portable [5; 131071; 12] 3 =
    Ok (if maximum [5; 131071; 12] =? 0 then 1
        else Z.log2 (maximum [5; 131071; 12]) + 1) /\
  PackedArray_computeBitsPerItem Portable [0] 1 = Ok 1 /\
  PackedArray_computeBitsPerItem Portable [131071] 1 = Ok 17 /\
  PackedArray_computeBitsPerItem Portable [] 0 = Ok 1.
Proof.
  apply (C6_computeBitsPerItem_spec Portable [5; 131071; 12]).
  repeat constructor; unfold is_u32; lia.
Defined.

(** ** Bit-level reasoning *)

Lemma fits_testbit B v r : 0 <= B -> fits B v -> B <= r -> Z.testbit v r = false.
Proof.
  intros HB Hv Hr. unfold fits in Hv.
  rewrite <- (Z.mod_small v (2 ^ B)) by exact Hv.
  apply Z.mod_pow2_bits_high. lia.
Qed.

Lemma u32_testbit w r : is_u32 w -> 32 <= r -> Z.testbit w r = false.
Proof. intros Hw Hr. apply (fits_testbit 32); [lia | exact Hw | exact Hr]. Qed.

Ltac split_cmp :=
  repeat match goal with
  | |- context [?a <? ?b] => destruct (Z.ltb_spec a b); try (exfalso; lia)
  | |- context [?a <=? ?b] => destruct (Z.leb_spec a b); try (exfalso; lia)
  | |- context [?a =? ?b] => destruct (Z.eqb_spec a b); try (exfalso; lia)
  end.

Ltac kill_bits :=
  repeat match goal with
  | |- context [Z.testbit ?a ?i] =>
      first
        [ rewrite (Z.testbit_neg_r a i) by lia
        | match goal with
          | H : fits ?B a |- _ => rewrite (fits_testbit B a i) by (assumption || lia)
          | H : is_u32 a |- _ => rewrite (u32_testbit a i) by (assumption || lia)
          end ]
  end.

Ltac same_bits :=
  repeat match goal with
  | |- context [Z.testbit ?a ?i] =>
      match goal with
      | |- context [Z.testbit a ?j] =>
          lazymatch i with j => fail | _ => idtac end;
          replace (Z.testbit a j) with (Z.testbit a i) by (f_equal; lia)
      end
  end.

Ltac bits_finish :=
  split_cmp; cbn [andb orb negb xorb]; kill_bits; same_bits;
  cbn [andb orb negb xorb];
  repeat match goal with
  | |- context [Z.testbit ?a ?i] => destruct (Z.testbit a i)
  end; try reflexivity; try (exfalso; lia).

Ltac bits := Z.rewrite_bitwise; bits_finish.

Lemma merge_word B sb w v r :
  1 <= B <= 32 -> 0 <= sb < 32 -> is_u32 w -> fits B v -> 0 <= r < 32 ->
  Z.testbit (Z.lor (Z.land w (not32 (shl32 (Z.ones B) sb))) (shl32 v sb)) r =
  if (sb <=? r) && (r <? sb + B) then Z.testbit v (r - sb) else Z.testbit w r.
Proof.
  intros HB Hsb Hw Hv Hr. unfold not32, shl32, wrap32.
  bits.
Qed.

Lemma high_word B sb w v r :
  1 <= B <= 32 -> 0 < sb < 32 -> 32 < sb + B -> is_u32 w -> fits B v ->
  0 <= r < 32 ->
  Z.testbit (Z.lor (Z.land w (not32 (Z.shiftr (Z.ones B) (32 - sb))))
                   (Z.shiftr v (32 - sb))) r =
  if r <? sb + B - 32 then Z.testbit v (r + (32 - sb)) else Z.testbit w r.
Proof.
  intros HB Hsb Hs Hw Hv Hr. unfold not32, shl32, wrap32.
  bits.
Qed.

Lemma bounded_by_bits n x :
  0 <= n -> (forall r, n <= r -> Z.testbit x r = false) -> 0 <= x < 2 ^ n.
Proof.
  intros Hn Hx.
  assert (Heq : x = x mod 2 ^ n).
  { apply Z.bits_inj'. intros r Hr.
    destruct (Z.lt_ge_cases r n).
    - rewrite Z.mod_pow2_bits_low by lia. reflexivity.
    - rewrite Z.mod_pow2_bits_high by lia. apply Hx. lia. }
  rewrite Heq. apply Z.mod_pos_bound. apply Z.pow_pos_nonneg; lia.
Qed.

Lemma lor_u32 a b : is_u32 a -> is_u32 b -> is_u32 (Z.lor a b).
Proof.
  intros Ha Hb. apply (bounded_by_bits 32); [lia|]. intros r Hr.
  rewrite Z.lor_spec, (u32_testbit a), (u32_testbit b) by assumption.
  reflexivity.
Qed.

Lemma land_u32 a b : is_u32 a -> is_u32 (Z.land a b).
Proof.
  intros Ha. apply (bounded_by_bits 32); [lia|]. intros r Hr.
  rewrite Z.land_spec, (u32_testbit a) by assumption. reflexivity.
Qed.

Lemma land_u32_r a b : is_u32 b -> is_u32 (Z.land a b).
Proof. intros Hb. rewrite Z.land_comm. apply land_u32. exact Hb. Qed.

Lemma shiftr_u32 a n : is_u32 a -> 0 <= n -> is_u32 (Z.shiftr a n).
Proof.
  intros Ha Hn. apply (bounded_by_bits 32); [lia|]. intros r Hr.
  rewrite Z.shiftr_spec, (u32_testbit a) by (assumption || lia). reflexivity.
Qed.

Lemma fits_u32 B v : 0 <= B <= 32 -> fits B v -> is_u32 v.
Proof.
  intros HB [H0 H1]. split; [exact H0|].
  assert (2 ^ B <= 2 ^ 32) by (apply Z.pow_le_mono_r; lia). lia.
Qed.

Create HintDb u32.
#[export] Hint Resolve lor_u32 land_u32 land_u32_r shiftr_u32 wrap32_range
  is_u32_0 peek_u32 : u32.

Lemma not32_u32 x : is_u32 (not32 x).
Proof. apply wrap32_range. Qed.
Lemma shl32_u32 x n : is_u32 (shl32 x n).
Proof. apply wrap32_range. Qed.
#[export] Hint Resolve not32_u32 shl32_u32 : u32.
#[export] Hint Extern 1 (_ <= _) => lia : u32.
#[export] Hint Extern 1 (_ < _) => lia : u32.

(** ** The buffer as a bit string *)

Lemma bits_of_nonneg m : Forall is_u32 m -> 0 <= bits_of m.
Proof.
  induction 1 as [|w t Hw Ht IH]; cbn [bits_of]; [lia|].
  apply Z.lor_nonneg. split; [apply Hw|]. apply Z.shiftl_nonneg. exact IH.
Qed.

Lemma peek_cons w t i : 1 <= i -> peek (w :: t) i = peek t (i - 1).
Proof.
  intros Hi. unfold peek.
  replace (Z.to_nat i) with (S (Z.to_nat (i - 1))) by lia. reflexivity.
Qed.

Lemma bits_of_testbit m k :
  Forall is_u32 m -> 0 <= k ->
  Z.testbit (bits_of m) k = Z.testbit (peek m (k / 32)) (k mod 32).
Proof.
  intros Hm. revert k. induction Hm as [|w t Hw Ht IH]; intros k Hk.
  - unfold peek. simpl. destruct (Z.to_nat (k / 32)); rewrite !Z.testbit_0_l; reflexivity.
  - cbn [bits_of]. rewrite Z.lor_spec, Z.shiftl_spec by exact Hk.
    destruct (Z.lt_ge_cases k 32) as [Hlt|Hge].
    + rewrite (Z.testbit_neg_r _ (k - 32)) by lia.
      rewrite Z.div_small, Z.mod_small by lia.
      rewrite orb_false_r. reflexivity.
    + rewrite (u32_testbit w k) by assumption.
      rewrite IH by lia. cbn [orb].
      replace k with ((k - 32) + 1 * 32) at 3 4 by lia.
      rewrite Z.div_add, Z.mod_add by lia.
      rewrite peek_cons by (pose proof (Z.div_pos (k - 32) 32); lia).
      replace ((k - 32) / 32 + 1 - 1) with ((k - 32) / 32) by lia.
      reflexivity.
Qed.

Lemma bits_of_inj m1 m2 :
  length m1 = length m2 -> Forall is_u32 m1 -> Forall is_u32 m2 ->
  bits_of m1 = bits_of m2 -> m1 = m2.
Proof.
  intros Hlen H1. revert m2 Hlen.
  induction H1 as [|w1 t1 Hw1 Ht1 IH]; intros [|w2 t2] Hlen H2 Heq;
    try discriminate; [reflexivity|].
  inversion H2 as [|? ? Hw2 Ht2]; subst.
  cbn [bits_of] in Heq.
  assert (Hw : w1 = w2).
  { apply Z.bits_inj'. intros r Hr.
    destruct (Z.lt_ge_cases r 32).
    - assert (Hb := f_equal (fun x => Z.testbit x r) Heq). cbv beta in Hb.
      rewrite !Z.lor_spec, !Z.shiftl_spec in Hb by lia.
      rewrite !(Z.testbit_neg_r _ (r - 32)) in Hb by lia.
      rewrite !orb_false_r in Hb. exact Hb.
    - rewrite !u32_testbit by assumption. reflexivity. }
  subst w2. f_equal. apply IH; [simpl in Hlen; lia | exact Ht2 |].
  apply Z.bits_inj'. intros r Hr.
  assert (Hb := f_equal (fun x => Z.testbit x (r + 32)) Heq). cbv beta in Hb.
  rewrite !Z.lor_spec, !Z.shiftl_spec in Hb by lia.
  rewrite (u32_testbit w1) in Hb by (assumption || lia).
  replace (r + 32 - 32) with r in Hb by lia. exact Hb.
Qed.

(** Bit [k] of the buffer after [m[o] = x]. *)
Lemma bits_of_upd m o x k :
  Forall is_u32 m -> is_u32 x -> 0 <= o < Z.of_nat (length m) -> 0 <= k ->
  Z.testbit (bits_of (upd m (Z.to_nat o) x)) k =
  if k / 32 =? o then Z.testbit x (k mod 32) else Z.testbit (bits_of m) k.
Proof.
  intros Hm Hx Ho Hk.
  rewrite !bits_of_testbit by (try apply Forall_upd; assumption).
  assert (0 <= k / 32) by (apply Z.div_pos; lia).
  rewrite peek_upd by lia.
  destruct (Z.eqb_spec (k / 32) o); [|reflexivity].
  replace (o <? Z.of_nat (length m)) with true by (symmetry; apply Z.ltb_lt; lia).
  reflexivity.
Qed.

(** Bit [k] of the bit string after the window of item [i] is replaced. *)
Lemma write_item_testbit B x i v k :
  0 <= B -> 0 <= i -> fits B v -> 0 <= k ->
  Z.testbit (write_item B x i v) k =
  if (i * B <=? k) && (k <? i * B + B) then Z.testbit v (k - i * B)
  else Z.testbit x k.
Proof.
  intros HB Hi Hv Hk. unfold write_item.
  assert (0 <= i * B) by nia.
  bits.
Qed.

(** ** Cursor arithmetic *)

Lemma cursor_facts B i :
  1 <= B <= 32 -> 0 <= i < 2 ^ 32 ->
  wrap64 (i * B) = i * B /\
  wrap32 ((i * B) mod 32) = (i * B) mod 32 /\
  wrap32 (32 - (i * B) mod 32) = 32 - (i * B) mod 32 /\
  0 <= (i * B) mod 32 < 32 /\
  0 <= i * B / 32 /\
  i * B = 32 * (i * B / 32) + (i * B) mod 32.
Proof.
  intros HB Hi.
  assert (0 <= i * B < 2 ^ 64) by nia.
  pose proof (Z.mod_pos_bound (i * B) 32 ltac:(lia)).
  pose proof (Z.div_mod (i * B) 32 ltac:(lia)).
  rewrite wrap64_small, !wrap32_small by lia.
  repeat split; lia.
Qed.

Lemma wf_item_in a i :
  wf_array a -> 0 <= i < count a ->
  item_in (bitsPerItem a) (Z.of_nat (length (buffer a))) i.
Proof.
  intros [HB Hc Hl _] Hi. split; [lia|]. rewrite Hl.
  pose proof (Z.div_mod (bitsPerItem a * count a + 31) 32 ltac:(lia)).
  pose proof (Z.mod_pos_bound (bitsPerItem a * count a + 31) 32 ltac:(lia)).
  nia.
Qed.

Lemma item_in_words B len i :
  1 <= B <= 32 -> item_in B len i ->
  0 <= i * B / 32 < len /\
  (32 < (i * B) mod 32 + B -> i * B / 32 + 1 < len).
Proof.
  intros HB [Hi Hin].
  pose proof (Z.mod_pos_bound (i * B) 32 ltac:(lia)).
  pose proof (Z.div_mod (i * B) 32 ltac:(lia)).
  assert (0 <= i * B) by nia.
  assert (0 <= i * B / 32) by (apply Z.div_pos; lia).
  split; [split|]; nia.
Qed.

(** ** Writing a window through one or two words *)

Lemma write_one_word B m i v o sb x :
  Forall is_u32 m -> is_u32 x -> 0 <= B -> fits B v -> 0 <= i ->
  i * B = 32 * o + sb -> 0 <= sb -> sb + B <= 32 ->
  0 <= o < Z.of_nat (length m) ->
  (forall r, 0 <= r < 32 ->
     Z.testbit x r =
     if (sb <=? r) && (r <? sb + B) then Z.testbit v (r - sb)
     else Z.testbit (peek m o) r) ->
  bits_of (upd m (Z.to_nat o) x) = write_item B (bits_of m) i v.
Proof.
  intros Hm Hx HB Hv Hi Hc Hsb Hfit Ho Hbits.
  apply Z.bits_inj'. intros k Hk.
  rewrite bits_of_upd, write_item_testbit by assumption.
  pose proof (Z.mod_pos_bound k 32 ltac:(lia)) as Hr.
  pose proof (Z.div_mod k 32 ltac:(lia)) as Hdm.
  destruct (Z.eqb_spec (k / 32) o) as [Heq|Hne].
  - rewrite Hbits by exact Hr. rewrite bits_of_testbit, Heq by assumption.
    rewrite Heq in Hdm.
    replace (k - i * B) with (k mod 32 - sb) by lia.
    split_cmp; reflexivity.
  - split_cmp; reflexivity.
Qed.

Lemma write_two_words B m i v o sb x0 x1 :
  Forall is_u32 m -> is_u32 x0 -> is_u32 x1 -> 0 <= B <= 32 -> fits B v ->
  0 <= i -> i * B = 32 * o + sb -> 0 <= sb < 32 -> 32 < sb + B ->
  0 <= o -> o + 1 < Z.of_nat (length m) ->
  (forall r, 0 <= r < 32 ->
     Z.testbit x0 r =
     if sb <=? r then Z.testbit v (r - sb) else Z.testbit (peek m o) r) ->
  (forall r, 0 <= r < 32 ->
     Z.testbit x1 r =
     if r <? sb + B - 32 then Z.testbit v (r + (32 - sb))
     else Z.testbit (peek m (o + 1)) r) ->
  bits_of (upd (upd m (Z.to_nat o) x0) (Z.to_nat (o + 1)) x1) =
  write_item B (bits_of m) i v.
Proof.
  intros Hm Hx0 Hx1 HB Hv Hi Hc Hsb Hover Ho Ho1 Hb0 Hb1.
  apply Z.bits_inj'. intros k Hk.
  rewrite bits_of_upd; try assumption;
    [| apply Forall_upd; assumption | rewrite upd_length; lia].
  rewrite bits_of_upd, write_item_testbit by (assumption || lia).
  pose proof (Z.mod_pos_bound k 32 ltac:(lia)) as Hr.
  pose proof (Z.div_mod k 32 ltac:(lia)) as Hdm.
  destruct (Z.eqb_spec (k / 32) (o + 1)) as [Heq1|Hne1].
  - rewrite Hb1 by exact Hr. rewrite bits_of_testbit, Heq1 by assumption.
    rewrite Heq1 in Hdm.
    replace (k - i * B) with (k mod 32 + (32 - sb)) by lia.
    split_cmp; reflexivity.
  - destruct (Z.eqb_spec (k / 32) o) as [Heq|Hne].
    + rewrite Hb0 by exact Hr. rewrite bits_of_testbit, Heq by assumption.
      rewrite Heq in Hdm.
      replace (k - i * B) with (k mod 32 - sb) by lia.
      split_cmp; reflexivity.
    + split_cmp; reflexivity.
Qed.

(** ** Single item access *)

Lemma assert_fits ndebug B v :
  1 <= B <= 32 -> fits B v ->
  PACKEDARRAY_ASSERT ndebug (0 =? Z.land (not32 (mask_of B)) v) = Ok tt.
Proof.
  intros HB Hv. rewrite mask_of_ones by exact HB.
  replace (Z.land (not32 (Z.ones B)) v) with 0.
  - unfold PACKEDARRAY_ASSERT. rewrite orb_true_r. reflexivity.
  - symmetry. apply Z.bits_inj'. intros r Hr. unfold not32, wrap32.
    bits.
Qed.

Ltac mem_step tac :=
  first [rewrite load_ok by tac | rewrite store_ok by tac]; cbn [bind].

Lemma set_correct ndebug a i v :
  wf_array a -> 0 <= i < count a -> fits (bitsPerItem a) v ->
  exists b,
    PackedArray_set ndebug a i v = Ok (with_buffer a b) /\
    length b = length (buffer a) /\ Forall is_u32 b /\
    bits_of b = write_item (bitsPerItem a) (bits_of (buffer a)) i v.
Proof.
  intros Hwf Hi Hv. pose proof Hwf as [HB Hc Hl Hm].
  pose proof (wf_item_in a i Hwf Hi) as Hin.
  destruct (item_in_words _ _ _ HB Hin) as [Ho Ho1].
  destruct (cursor_facts (bitsPerItem a) i HB ltac:(lia))
    as (Hw64 & Hw32 & Hba & Hsb & Hq & Hdm).
  pose proof (fits_u32 (bitsPerItem a) v ltac:(lia) Hv) as Hv32.
  unfold PackedArray_set.
  rewrite assert_fits by assumption. cbn [bind].
  rewrite Hw64, Hw32, Hba, mask_of_ones by assumption.
  set (B := bitsPerItem a) in *. set (o := i * B / 32) in *.
  set (sb := (i * B) mod 32) in *.
  destruct (Z.leb_spec B (32 - sb)) as [Hfit|Hover].
  - do 2 mem_step lia.
    eexists. split; [reflexivity|].
    split; [apply upd_length|].
    split; [apply Forall_upd; auto with u32|].
    apply (write_one_word B _ i v o sb); auto with u32; try lia.
    intros r Hr. apply merge_word; auto with u32.
  - do 2 mem_step lia. do 2 mem_step ltac:(rewrite upd_length; lia).
    eexists. split; [reflexivity|].
    split; [rewrite !upd_length; reflexivity|].
    assert (Hm' : Forall is_u32
               (upd (buffer a) (Z.to_nat o)
                  (Z.lor (Z.land (peek (buffer a) o)
                            (not32 (shl32 (Z.ones B) sb))) (shl32 v sb))))
      by (apply Forall_upd; auto with u32).
    split; [apply Forall_upd; auto with u32|].
    apply (write_two_words B _ i v o sb); auto with u32; try lia.
    + intros r Hr. rewrite merge_word by auto with u32.
      split_cmp; reflexivity.
    + intros r Hr. rewrite peek_upd by lia.
      replace (o + 1 =? o) with false by (symmetry; apply Z.eqb_neq; lia).
      cbn [andb]. apply high_word; auto with u32; lia.
Qed.

Lemma divmod32 k q r :
  k = 32 * q + r -> 0 <= r < 32 -> k / 32 = q /\ k mod 32 = r.
Proof.
  intros Hk Hr.
  pose proof (Z.mod_pos_bound k 32 ltac:(lia)).
  pose proof (Z.div_mod k 32 ltac:(lia)). lia.
Qed.

(** A value whose bits are those of the window of item [i], read through
    the one or two words that hold it, is the item. *)
Lemma read_window B m i o sb x :
  Forall is_u32 m -> 1 <= B <= 32 -> 0 <= i ->
  i * B = 32 * o + sb -> 0 <= sb < 32 -> 0 <= o ->
  (forall r, 0 <= r ->
     Z.testbit x r =
     (r <? B) &&
     (if r + sb <? 32 then Z.testbit (peek m o) (r + sb)
      else Z.testbit (peek m (o + 1)) (r + sb - 32))) ->
  x = item_at B m i.
Proof.
  intros Hm HB Hi Hc Hsb Ho Hx. apply Z.bits_inj'. intros r Hr.
  rewrite Hx by exact Hr. unfold item_at.
  rewrite Z.land_spec, Z.shiftr_spec, Z.testbit_ones_nonneg by lia.
  destruct (Z.ltb_spec r B) as [Hlt|Hge]; [|rewrite andb_false_r; reflexivity].
  rewrite andb_true_r. cbn [andb].
  rewrite bits_of_testbit by (assumption || nia).
  destruct (Z.ltb_spec (r + sb) 32).
  - destruct (divmod32 (r + i * B) o (r + sb)) as [-> ->]; try lia. reflexivity.
  - destruct (divmod32 (r + i * B) (o + 1) (r + sb - 32)) as [-> ->]; try lia.
    reflexivity.
Qed.

Lemma item_at_fits B m i : 0 <= B -> fits B (item_at B m i).
Proof.
  intros HB. apply bounded_by_bits; [exact HB|]. intros r Hr.
  unfold item_at. rewrite Z.land_spec.
  rewrite Z.testbit_ones_nonneg by lia.
  replace (r <? B) with false by (symmetry; apply Z.ltb_ge; lia).
  apply andb_false_r.
Qed.

Lemma get_correct a i :
  wf_array a -> 0 <= i < count a ->
  PackedArray_get a i = Ok (item_at (bitsPerItem a) (buffer a) i).
Proof.
  intros Hwf Hi. pose proof Hwf as [HB Hc Hl Hm].
  pose proof (wf_item_in a i Hwf Hi) as Hin.
  destruct (item_in_words _ _ _ HB Hin) as [Ho Ho1].
  destruct (cursor_facts (bitsPerItem a) i HB ltac:(lia))
    as (Hw64 & Hw32 & Hba & Hsb & Hq & Hdm).
  unfold PackedArray_get.
  rewrite Hw64, Hw32, Hba, mask_of_ones by assumption.
  set (B := bitsPerItem a) in *. set (o := i * B / 32) in *.
  set (sb := (i * B) mod 32) in *.
  pose proof (peek_u32 (buffer a) o Hm) as Hw0.
  pose proof (peek_u32 (buffer a) (o + 1) Hm) as Hw1.
  destruct (Z.leb_spec B (32 - sb)) as [Hfit|Hover].
  - mem_step lia. f_equal.
    apply (read_window B _ i o sb); try assumption; try lia.
    intros r Hr. bits.
  - do 2 mem_step lia. f_equal.
    apply (read_window B _ i o sb); try assumption; try lia.
    intros r Hr. unfold shl32, wrap32. bits.
Qed.

(** ** Items of a bit string after writes *)

Lemma window_write_same B x i v :
  0 <= B -> 0 <= i -> fits B v ->
  Z.land (Z.shiftr (write_item B x i v) (i * B)) (Z.ones B) = v.
Proof.
  intros HB Hi Hv. apply Z.bits_inj'. intros r Hr.
  assert (0 <= i * B) by nia.
  rewrite Z.land_spec, Z.shiftr_spec, write_item_testbit by (assumption || lia).
  bits.
Qed.

Lemma window_write_other B x i j v :
  0 <= B -> 0 <= i -> 0 <= j -> i <> j -> fits B v ->
  Z.land (Z.shiftr (write_item B x i v) (j * B)) (Z.ones B) =
  Z.land (Z.shiftr x (j * B)) (Z.ones B).
Proof.
  intros HB Hi Hj Hne Hv. apply Z.bits_inj'. intros r Hr.
  assert (0 <= i * B) by nia. assert (0 <= j * B) by nia.
  assert (i * B + B <= j * B \/ j * B + B <= i * B) by nia.
  rewrite !Z.land_spec, !Z.shiftr_spec, write_item_testbit by (assumption || lia).
  bits.
Qed.

Lemma write_items_app B x i l1 l2 :
  write_items B x i (l1 ++ l2) =
  write_items B (write_items B x i l1) (i + Z.of_nat (length l1)) l2.
Proof.
  revert x i. induction l1 as [|v t IH]; intros x i.
  - simpl. rewrite Z.add_0_r. reflexivity.
  - cbn [app write_items length]. rewrite IH. f_equal. lia.
Qed.

(** Bits outside the windows of the written items keep their value. *)
Lemma write_items_frame B x i vs k :
  0 <= B -> 0 <= i -> Forall (fits B) vs -> 0 <= k ->
  k < i * B \/ (i + Z.of_nat (length vs)) * B <= k ->
  Z.testbit (write_items B x i vs) k = Z.testbit x k.
Proof.
  intros HB Hi Hvs Hk. revert x i Hi.
  induction Hvs as [|v t Hv Ht IH]; intros x i Hi Hout; [reflexivity|].
  cbn [write_items]. cbn [length] in Hout.
  rewrite IH by (try lia; nia).
  rewrite write_item_testbit by assumption.
  assert (Hw : (i * B <=? k) && (k <? i * B + B) = false).
  { destruct (Z.leb_spec (i * B) k), (Z.ltb_spec k (i * B + B));
      try reflexivity. exfalso. nia. }
  rewrite Hw. reflexivity.
Qed.

(** An item outside the written range keeps its value. *)
Lemma write_items_other B x i vs j :
  0 <= B -> 0 <= i -> 0 <= j -> Forall (fits B) vs ->
  j < i \/ i + Z.of_nat (length vs) <= j ->
  Z.land (Z.shiftr (write_items B x i vs) (j * B)) (Z.ones B) =
  Z.land (Z.shiftr x (j * B)) (Z.ones B).
Proof.
  intros HB Hi Hj Hvs. revert x i Hi.
  induction Hvs as [|v t Hv Ht IH]; intros x i Hi Hout; [reflexivity|].
  cbn [write_items]. cbn [length] in Hout.
  rewrite IH by lia.
  apply window_write_other; try assumption. lia.
Qed.

(** A written item holds the value written. *)
Lemma write_items_same B x i vs t :
  0 <= B -> 0 <= i -> Forall (fits B) vs -> (t < length vs)%nat ->
  Z.land (Z.shiftr (write_items B x i vs) ((i + Z.of_nat t) * B)) (Z.ones B) =
  nth t vs 0.
Proof.
  intros HB Hi Hvs. revert x i t Hi.
  induction Hvs as [|v vs' Hv Ht IH]; intros x i t Hi Hlt; [simpl in Hlt; lia|].
  cbn [write_items]. destruct t as [|t].
  - rewrite write_items_other by (assumption || lia).
    rewrite Z.add_0_r. apply window_write_same; assumption.
  - replace (i + Z.of_nat (S t)) with (i + 1 + Z.of_nat t) by lia.
    rewrite IH by (simpl in Hlt; lia). reflexivity.
Qed.

(** ** The generic engine *)

Lemma firstn_snoc (input : list Z) k :
  (k < length input)%nat ->
  firstn (S k) input = firstn k input ++ [peek input (Z.of_nat k)].
Proof.
  unfold peek. rewrite Nat2Z.id. revert k.
  induction input as [|h t IH]; intros [|k] Hk; simpl in *; try lia; auto.
  f_equal. apply IH. lia.
Qed.

Lemma write_items_snoc B x i (input : list Z) k :
  (k < length input)%nat ->
  write_items B x i (firstn (S k) input) =
  write_item B (write_items B x i (firstn k input)) (i + Z.of_nat k)
    (peek input (Z.of_nat k)).
Proof.
  intros Hk. rewrite firstn_snoc by exact Hk.
  rewrite write_items_app, length_firstn, Nat.min_l by lia. reflexivity.
Qed.

Lemma generic_pack_step ndebug B buf0 offset input k s :
  1 <= B <= 32 -> 0 <= offset ->
  generic_pack_inv B buf0 offset input k s ->
  item_in B (Z.of_nat (length buf0)) (offset + Z.of_nat k) ->
  (k < length input)%nat -> fits B (peek input (Z.of_nat k)) ->
  exists s',
    pack_iter ndebug B (mask_of B) input s = Ok s' /\
    generic_pack_inv B buf0 offset input (S k) s'.
Proof.
  intros HB Hoff [Hin Hlen Hm Hp Hout Hcur Hbits] Hitem Hk Hv.
  destruct s as [out sb ba packed in_ buf]. cbn [pc_in pc_buf pc_packed pc_out
    pc_startBit pc_bitsAvailable] in *. subst in_.
  set (v := peek input (Z.of_nat k)) in *.
  pose proof (fits_u32 B v ltac:(lia) Hv) as Hv32.
  destruct (item_in_words _ _ _ HB Hitem) as [Ho Ho1].
  set (i := offset + Z.of_nat k) in *.
  assert (Hi : 0 <= i) by (unfold i; lia).
  pose proof (Z.mod_pos_bound (i * B) 32 ltac:(lia)) as Hr.
  pose proof (Z.div_mod (i * B) 32 ltac:(lia)) as Hdm.
  assert (Hnext : (offset + Z.of_nat (S k)) * B = i * B + B) by (unfold i; lia).
  unfold pack_iter. mem_step lia. fold v.
  rewrite assert_fits by assumption. cbn [bind].
  rewrite mask_of_ones by exact HB.
  set (view := upd buf (Z.to_nat out) packed) in *.
  assert (Hsn : write_items B (bits_of buf0) offset (firstn (S k) input) =
                write_item B (bits_of view) i v).
  { rewrite write_items_snoc by exact Hk. rewrite <- Hbits. reflexivity. }
  assert (Hview : Forall is_u32 view) by (apply Forall_upd; assumption).
  assert (Hpv : peek view out = packed).
  { unfold view. rewrite peek_upd by lia. rewrite Z.eqb_refl.
    replace (out <? Z.of_nat (length buf)) with true; [reflexivity|].
    symmetry. apply Z.ltb_lt. lia. }
  destruct Hcur as [(-> & -> & ->)|(-> & Hz & -> & ->)].
  - (* the cursor is on the word of the item *)
    set (o := i * B / 32) in *. set (sb := (i * B) mod 32) in *.
    destruct (Z.leb_spec B (32 - sb)) as [Hfit|Hover].
    + eexists. split; [reflexivity|].
      rewrite !wrap32_small by lia.
      constructor; cbn [pc_in pc_buf pc_packed pc_out pc_startBit
                          pc_bitsAvailable]; auto with u32; try lia.
      * rewrite Hnext. unfold cursor_at.
        destruct (Z.eq_dec (sb + B) 32) as [Hfull|Hpart].
        -- right. destruct (divmod32 (i * B + B) (o + 1) 0) as [-> ->]; lia.
        -- left. destruct (divmod32 (i * B + B) o (sb + B)) as [-> ->]; lia.
      * rewrite Hsn. replace (upd buf (Z.to_nat o) _) with (upd view (Z.to_nat o)
          (Z.lor (Z.land packed (not32 (shl32 (Z.ones B) sb))) (shl32 v sb)))
          by (unfold view; apply upd_upd).
        apply (write_one_word B _ i v o sb); auto with u32; try lia.
        -- unfold view. rewrite upd_length. lia.
        -- intros r Hr'. rewrite Hpv. apply merge_word; auto with u32.
    + replace (32 - sb =? 0) with false by (symmetry; apply Z.eqb_neq; lia).
      do 2 mem_step ltac:(rewrite ?upd_length; lia).
      eexists. split; [reflexivity|].
      rewrite !wrap32_small by lia.
      assert (Hsb' : (sb + B) mod 32 = sb + B - 32).
      { destruct (divmod32 (sb + B) 1 (sb + B - 32)); lia. }
      rewrite Hsb'. rewrite ?wrap32_small by lia.
      assert (Hx0 : Forall is_u32 (upd buf (Z.to_nat o)
                (Z.lor (Z.land packed (not32 (shl32 (Z.ones B) sb))) (shl32 v sb))))
        by (apply Forall_upd; auto with u32).
      constructor; cbn [pc_in pc_buf pc_packed pc_out pc_startBit
                          pc_bitsAvailable]; auto with u32; try lia.
      * rewrite upd_length. exact Hlen.
      * rewrite Hnext. left.
        destruct (divmod32 (i * B + B) (o + 1) (sb + B - 32)) as [-> ->]; lia.
      * rewrite Hsn. replace (upd buf (Z.to_nat o) _) with (upd view (Z.to_nat o)
          (Z.lor (Z.land packed (not32 (shl32 (Z.ones B) sb))) (shl32 v sb)))
          by (unfold view; apply upd_upd).
        apply (write_two_words B _ i v o sb); auto with u32; try lia.
        -- unfold view. rewrite upd_length. lia.
        -- intros r Hr'. rewrite Hpv, merge_word by auto with u32.
           split_cmp; reflexivity.
        -- intros r Hr'. rewrite peek_upd by lia.
           replace (o + 1 =? o) with false by (symmetry; apply Z.eqb_neq; lia).
           cbn [andb]. apply high_word; auto with u32; lia.
  - (* the cursor is still on the previous word, which is full *)
    set (o := i * B / 32) in *.
    replace (B <=? 0) with false by (symmetry; apply Z.leb_gt; lia).
    cbn [Z.eqb]. do 2 mem_step ltac:(rewrite ?upd_length; lia).
    fold view. replace (o - 1 + 1) with o by lia.
    eexists. split; [reflexivity|].
    rewrite !wrap32_small by lia.
    constructor; cbn [pc_in pc_buf pc_packed pc_out pc_startBit
                        pc_bitsAvailable]; auto with u32; try lia.
    + unfold view. rewrite upd_length. exact Hlen.
    + rewrite Hnext. unfold cursor_at. rewrite Z.add_0_l.
      destruct (Z.eq_dec B 32) as [->|Hpart].
      * right. destruct (divmod32 (i * 32 + 32) (o + 1) 0) as [-> ->]; lia.
      * left. destruct (divmod32 (i * B + B) o B) as [-> ->]; lia.
    + rewrite Hsn. apply (write_one_word B _ i v o 0); auto with u32; try lia.
      * unfold view. rewrite upd_length. lia.
      * intros r Hr'. unfold not32, wrap32. bits.
Qed.

Lemma generic_pack_loop ndebug B buf0 offset input n : forall k s,
  1 <= B <= 32 -> 0 <= offset ->
  generic_pack_inv B buf0 offset input k s ->
  (offset + Z.of_nat (k + n)) * B <= 32 * Z.of_nat (length buf0) ->
  (k + n <= length input)%nat -> Forall (fits B) (firstn (k + n) input) ->
  exists s',
    pack_loop ndebug B (mask_of B) input n s = Ok s' /\
    generic_pack_inv B buf0 offset input (k + n) s'.
Proof.
  induction n as [|n IH]; intros k s HB Hoff Hinv Hlast Hlen Hfit.
  - exists s. rewrite Nat.add_0_r. split; [reflexivity | exact Hinv].
  - cbn [pack_loop].
    assert (Hv : fits B (peek input (Z.of_nat k))).
    { rewrite Forall_forall in Hfit. apply Hfit. unfold peek.
      rewrite Nat2Z.id, <- (firstn_skipn (k + S n) input) at 1.
      rewrite app_nth1 by (rewrite length_firstn; lia).
      apply nth_In. rewrite length_firstn. lia. }
    destruct (generic_pack_step ndebug B buf0 offset input k s HB Hoff Hinv)
      as [s1 [Hs1 Hinv1]]; try assumption; try lia.
    { split; [lia|]. nia. }
    rewrite Hs1. cbn [bind].
    replace (k + S n)%nat with (S k + n)%nat in * by lia.
    apply IH; assumption.
Qed.

(** The generic pack writes the [n] values into the windows of the items
    [offset], ..., [offset + n - 1]. *)
Lemma generic_pack_correct ndebug a offset input n :
  wf_array a -> 0 <= offset < count a -> offset + Z.of_nat n <= count a ->
  (n <= length input)%nat -> Forall (fits (bitsPerItem a)) (firstn n input) ->
  exists b,
    generic_pack ndebug a offset input (Z.of_nat n) = Ok (with_buffer a b) /\
    length b = length (buffer a) /\ Forall is_u32 b /\
    bits_of b =
    write_items (bitsPerItem a) (bits_of (buffer a)) offset (firstn n input).
Proof.
  intros Hwf Hoff Hend Hlen Hfit. pose proof Hwf as [HB Hc Hl Hm].
  pose proof (wf_item_in a offset Hwf Hoff) as Hin.
  destruct (item_in_words _ _ _ HB Hin) as [Ho _].
  destruct (cursor_facts (bitsPerItem a) offset HB ltac:(lia))
    as (Hw64 & Hw32 & Hba & Hsb & Hq & Hdm).
  unfold generic_pack. rewrite Hw64, Hw32, Hba. mem_step lia.
  rewrite Nat2Z.id.
  set (B := bitsPerItem a) in *.
  destruct (generic_pack_loop ndebug B (buffer a) offset input n 0%nat
              (mkPackCursor (offset * B / 32) ((offset * B) mod 32)
                 (32 - (offset * B) mod 32) (peek (buffer a) (offset * B / 32))
                 0 (buffer a)))
    as [s [Hs Hinv]]; try assumption; try lia.
  - constructor; cbn [pc_in pc_buf pc_packed pc_out pc_startBit
                        pc_bitsAvailable]; auto with u32.
    + left. rewrite Z.add_0_r. repeat split; reflexivity.
    + cbn [firstn write_items]. unfold peek. rewrite upd_same. reflexivity.
  - cbn [Nat.add]. apply proj2 in Hin.
    pose proof (Z.div_mod (B * count a + 31) 32 ltac:(lia)).
    pose proof (Z.mod_pos_bound (B * count a + 31) 32 ltac:(lia)).
    nia.
  - destruct Hinv as [Hin' Hlen' Hm' Hp' Hout' _ Hbits'].
    rewrite Hs. cbn [bind]. rewrite store_ok by lia. cbn [bind].
    eexists. split; [reflexivity|].
    split; [rewrite upd_length; exact Hlen'|].
    split; [apply Forall_upd; assumption|]. exact Hbits'.
Qed.

Lemma items_at_S B buf offset k :
  items_at B buf offset (S k) =
  items_at B buf offset k ++ [item_at B buf (offset + Z.of_nat k)].
Proof. unfold items_at. rewrite seq_S, map_app. reflexivity. Qed.

Lemma items_at_length B buf offset k : length (items_at B buf offset k) = k.
Proof. unfold items_at. rewrite length_map, length_seq. reflexivity. Qed.

Lemma upd_app_skipn (l : list Z) k dst x :
  length l = k -> (k < length dst)%nat ->
  upd (l ++ skipn k dst) k x = (l ++ [x]) ++ skipn (S k) dst.
Proof.
  intros <-. revert dst. induction l as [|h t IH]; intros dst Hk.
  - destruct dst as [|d dst]; simpl in *; [lia | reflexivity].
  - destruct dst as [|d dst]; simpl in Hk; [lia|].
    cbn [length skipn app upd]. f_equal. apply IH. lia.
Qed.

Lemma generic_unpack_step B buf offset dst0 k s :
  1 <= B <= 32 -> 0 <= offset -> Forall is_u32 buf ->
  generic_unpack_inv B buf offset dst0 k s ->
  item_in B (Z.of_nat (length buf)) (offset + Z.of_nat k) ->
  (k < length dst0)%nat ->
  exists s',
    unpack_iter B (mask_of B) buf s = Ok s' /\
    generic_unpack_inv B buf offset dst0 (S k) s'.
Proof.
  intros HB Hoff Hm [Hout Hdst Hin Hp Hcur] Hitem Hk.
  destruct s as [in_ sb ba packed out dst]. cbn [uc_in uc_startBit
    uc_bitsAvailable uc_packed uc_out uc_dst] in *. subst out dst packed.
  destruct (item_in_words _ _ _ HB Hitem) as [Ho Ho1].
  set (i := offset + Z.of_nat k) in *.
  assert (Hi : 0 <= i) by (unfold i; lia).
  pose proof (Z.mod_pos_bound (i * B) 32 ltac:(lia)) as Hr.
  pose proof (Z.div_mod (i * B) 32 ltac:(lia)) as Hdm.
  assert (Hnext : (offset + Z.of_nat (S k)) * B = i * B + B) by (unfold i; lia).
  assert (Hstore : forall x, x = item_at B buf i ->
            store (items_at B buf offset k ++ skipn k dst0) (Z.of_nat k) x =
            Ok (items_at B buf offset (S k) ++ skipn (S k) dst0)).
  { intros x ->. rewrite store_ok.
    - rewrite Nat2Z.id, upd_app_skipn, items_at_S
        by (try apply items_at_length; lia). reflexivity.
    - rewrite length_app, items_at_length, length_skipn. lia. }
  unfold unpack_iter. rewrite mask_of_ones by exact HB.
  pose proof (peek_u32 buf (i * B / 32) Hm) as Hw0.
  pose proof (peek_u32 buf (i * B / 32 + 1) Hm) as Hw1.
  destruct Hcur as [(-> & -> & ->)|(-> & Hz & -> & ->)].
  - set (o := i * B / 32) in *. set (sb := (i * B) mod 32) in *.
    destruct (Z.leb_spec B (32 - sb)) as [Hfit|Hover].
    + rewrite Hstore; cbn [bind].
      * eexists. split; [reflexivity|]. rewrite !wrap32_small by lia.
        constructor; cbn [uc_in uc_startBit uc_bitsAvailable uc_packed uc_out
                            uc_dst]; auto; try lia.
        rewrite Hnext. unfold cursor_at.
        destruct (Z.eq_dec (sb + B) 32) as [Hfull|Hpart].
        -- right. destruct (divmod32 (i * B + B) (o + 1) 0) as [-> ->]; lia.
        -- left. destruct (divmod32 (i * B + B) o (sb + B)) as [-> ->]; lia.
      * apply (read_window B _ i o sb); try assumption; try lia.
        intros r Hr'. bits.
    + replace (32 - sb =? 0) with false by (symmetry; apply Z.eqb_neq; lia).
      mem_step lia. rewrite !wrap32_small by lia.
      assert (Hsb' : (sb + B) mod 32 = sb + B - 32).
      { destruct (divmod32 (sb + B) 1 (sb + B - 32)); lia. }
      rewrite Hsb'. rewrite ?wrap32_small by lia.
      rewrite Hstore; cbn [bind].
      * eexists. split; [reflexivity|].
        constructor; cbn [uc_in uc_startBit uc_bitsAvailable uc_packed uc_out
                            uc_dst]; auto; try lia.
        rewrite Hnext. left.
        destruct (divmod32 (i * B + B) (o + 1) (sb + B - 32)) as [-> ->]; lia.
      * apply (read_window B _ i o sb); try assumption; try lia.
        intros r Hr'. unfold shl32, wrap32. bits.
  - set (o := i * B / 32) in *.
    replace (B <=? 0) with false by (symmetry; apply Z.leb_gt; lia).
    cbn [Z.eqb]. replace (o - 1 + 1) with o in * by lia.
    mem_step lia. rewrite !wrap32_small by lia.
    rewrite Hstore; cbn [bind].
    + eexists. split; [reflexivity|].
      constructor; cbn [uc_in uc_startBit uc_bitsAvailable uc_packed uc_out
                          uc_dst]; auto; try lia.
      rewrite Hnext. unfold cursor_at.
      destruct (Z.eq_dec B 32) as [->|Hpart].
      * right. destruct (divmod32 (i * 32 + 32) (o + 1) 0) as [-> ->]; lia.
      * left. destruct (divmod32 (i * B + B) o B) as [-> ->]; lia.
    + apply (read_window B _ i o 0); try assumption; try lia.
      intros r Hr'. bits.
Qed.

Lemma generic_unpack_loop B buf offset dst0 n : forall k s,
  1 <= B <= 32 -> 0 <= offset -> Forall is_u32 buf ->
  generic_unpack_inv B buf offset dst0 k s ->
  (offset + Z.of_nat (k + n)) * B <= 32 * Z.of_nat (length buf) ->
  (k + n <= length dst0)%nat ->
  exists s',
    unpack_loop B (mask_of B) buf n s = Ok s' /\
    generic_unpack_inv B buf offset dst0 (k + n) s'.
Proof.
  induction n as [|n IH]; intros k s HB Hoff Hm Hinv Hlast Hlen.
  - exists s. rewrite Nat.add_0_r. split; [reflexivity | exact Hinv].
  - cbn [unpack_loop].
    destruct (generic_unpack_step B buf offset dst0 k s HB Hoff Hm Hinv)
      as [s1 [Hs1 Hinv1]]; try lia.
    { split; [lia|]. nia. }
    rewrite Hs1. cbn [bind].
    replace (k + S n)%nat with (S k + n)%nat in * by lia.
    apply IH; assumption.
Qed.

(** The generic unpack reads the items [offset], ..., [offset + n - 1]
    into the first [n] slots of the output array. *)
Lemma generic_unpack_correct a offset dst n :
  wf_array a -> 0 <= offset < count a -> offset + Z.of_nat n <= count a ->
  (n <= length dst)%nat ->
  generic_unpack a offset dst (Z.of_nat n) =
  Ok (items_at (bitsPerItem a) (buffer a) offset n ++ skipn n dst).
Proof.
  intros Hwf Hoff Hend Hlen. pose proof Hwf as [HB Hc Hl Hm].
  pose proof (wf_item_in a offset Hwf Hoff) as Hin.
  destruct (item_in_words _ _ _ HB Hin) as [Ho _].
  destruct (cursor_facts (bitsPerItem a) offset HB ltac:(lia))
    as (Hw64 & Hw32 & Hba & Hsb & Hq & Hdm).
  unfold generic_unpack. rewrite Hw64, Hw32, Hba. mem_step lia.
  rewrite Nat2Z.id.
  set (B := bitsPerItem a) in *.
  destruct (generic_unpack_loop B (buffer a) offset dst n 0%nat
              (mkUnpackCursor (offset * B / 32) ((offset * B) mod 32)
                 (32 - (offset * B) mod 32) (peek (buffer a) (offset * B / 32))
                 0 dst))
    as [s [Hs Hinv]]; try assumption; try lia.
  - constructor; cbn [uc_in uc_startBit uc_bitsAvailable uc_packed uc_out
                        uc_dst]; auto; try lia.
    left. rewrite Z.add_0_r. repeat split; reflexivity.
  - cbn [Nat.add]. apply proj2 in Hin.
    pose proof (Z.div_mod (B * count a + 31) 32 ltac:(lia)).
    pose proof (Z.mod_pos_bound (B * count a + 31) 32 ltac:(lia)).
    nia.
  - rewrite Hs. cbn [bind]. f_equal. apply Hinv.
Qed.

(** ** The specialised pack *)

Lemma case_start_bit B I a :
  I = a mod 32 -> PACKEDARRAY_IMPL_START_BIT B I = (a * B) mod 32.
Proof.
  intros ->. unfold PACKEDARRAY_IMPL_START_BIT.
  apply Z.mul_mod_idemp_l. lia.
Qed.

Lemma pending_word_bits sb packed old r :
  0 <= sb <= 32 -> fits sb packed -> is_u32 old -> 0 <= r < 32 ->
  Z.testbit (pending_word sb packed old) r =
  if r <? sb then Z.testbit packed r else Z.testbit old r.
Proof.
  intros Hsb Hp Ho Hr. unfold pending_word, not32, wrap32. bits.
Qed.

Lemma pending_word_u32 sb packed old :
  0 <= sb <= 32 -> fits sb packed -> is_u32 (pending_word sb packed old).
Proof.
  intros Hsb Hp. unfold pending_word.
  apply lor_u32; [|apply land_u32_r; apply not32_u32].
  destruct Hp as [H0 H1]. split; [exact H0|].
  assert (2 ^ sb <= 2 ^ 32) by (apply Z.pow_le_mono_r; lia). lia.
Qed.

(** Nothing is pending at a word boundary. *)
Lemma pending_flush s :
  Forall is_u32 (ps_buf s) -> 0 <= ps_out s -> fits 0 (ps_packed s) ->
  pending 0 s = ps_buf s.
Proof.
  intros Hm Ho Hp. unfold pending.
  replace (pending_word 0 (ps_packed s) (peek (ps_buf s) (ps_out s)))
    with (peek (ps_buf s) (ps_out s)).
  - unfold peek. apply upd_same.
  - apply Z.bits_inj'. intros r Hr.
    pose proof (peek_u32 (ps_buf s) (ps_out s) Hm) as Hw.
    destruct (Z.lt_ge_cases r 32).
    + rewrite pending_word_bits by (assumption || lia).
      replace (r <? 0) with false by (symmetry; apply Z.ltb_ge; lia).
      reflexivity.
    + rewrite !u32_testbit; auto. apply pending_word_u32; [lia | exact Hp].
Qed.

Lemma pack_case_correct B buf0 offset input k s I brk :
  1 <= B <= 32 -> 0 <= offset ->
  pack_inv B buf0 offset input k s ->
  item_in B (Z.of_nat (length buf0)) (offset + Z.of_nat k) ->
  (k < length input)%nat -> fits B (peek input (Z.of_nat k)) ->
  I = (offset + Z.of_nat k) mod 32 ->
  exists s',
    pack_case B I brk input s =
      Ok (s', match brk with
              | None => false
              | Some end_ => Z.of_nat (S k) =? end_
              end) /\
    pack_inv B buf0 offset input (S k) s'.
Proof.
  intros HB Hoff [Hin Hout Hlen Hm Hp Hbits] Hitem Hk Hv HI.
  destruct s as [out in_ packed buf]. cbn [ps_out ps_in ps_packed ps_buf] in *.
  subst in_ out.
  set (v := peek input (Z.of_nat k)) in *.
  pose proof (fits_u32 B v ltac:(lia) Hv) as Hv32.
  destruct (item_in_words _ _ _ HB Hitem) as [Ho Ho1].
  set (i := offset + Z.of_nat k) in *.
  assert (Hi : 0 <= i) by (unfold i; lia).
  pose proof (Z.mod_pos_bound (i * B) 32 ltac:(lia)) as Hr.
  pose proof (Z.div_mod (i * B) 32 ltac:(lia)) as Hdm.
  assert (Hnext : (offset + Z.of_nat (S k)) * B = i * B + B) by (unfold i; lia).
  set (o := i * B / 32) in *. set (sb := (i * B) mod 32) in *.
  pose proof (peek_u32 buf o Hm) as Hold.
  assert (Hp32 : is_u32 packed) by (apply (fits_u32 sb); [lia | exact Hp]).
  set (view := pending sb (mkPackState o (Z.of_nat k) packed buf)) in *.
  assert (Hsn : write_items B (bits_of buf0) offset (firstn (S k) input) =
                write_item B (bits_of view) i v).
  { rewrite write_items_snoc by exact Hk. rewrite <- Hbits. reflexivity. }
  assert (Hview : Forall is_u32 view).
  { apply Forall_upd; [exact Hm|]. apply pending_word_u32; [lia | exact Hp]. }
  assert (Hvlen : length view = length buf) by apply upd_length.
  assert (Hpv : forall r, 0 <= r < 32 ->
            Z.testbit (peek view o) r =
            if r <? sb then Z.testbit packed r else Z.testbit (peek buf o) r).
  { intros r Hr'. unfold view, pending. cbn [ps_out ps_buf ps_packed].
    rewrite peek_upd by lia. rewrite Z.eqb_refl.
    replace (o <? Z.of_nat (length buf)) with true
      by (symmetry; apply Z.ltb_lt; lia).
    cbn [andb]. apply pending_word_bits; (assumption || lia). }
  assert (Hpv1 : peek view (o + 1) = peek buf (o + 1)).
  { unfold view, pending. cbn [ps_out ps_buf ps_packed].
    rewrite peek_upd by lia.
    replace (o + 1 =? o) with false by (symmetry; apply Z.eqb_neq; lia).
    reflexivity. }
  assert (Hupd : forall x, upd buf (Z.to_nat o) x = upd view (Z.to_nat o) x).
  { intros x. unfold view, pending. cbn [ps_out ps_buf ps_packed].
    rewrite upd_upd. reflexivity. }
  unfold pack_case, PACKEDARRAY_IMPL_BITS_AVAILABLE.
  rewrite (case_start_bit B I i HI).
  replace ((I * B) mod 32) with sb
    by (symmetry; apply (case_start_bit B I i HI)).
  rewrite (load_ok input) by lia. fold v sb. cbn [bind].
  assert (Hbrk : forall s', ps_in s' = Z.of_nat k + 1 ->
            pack_case_break brk s' =
            match brk with None => false | Some end_ => Z.of_nat (S k) =? end_ end).
  { intros s' Hs'. unfold pack_case_break. rewrite Hs'.
    replace (Z.of_nat k + 1) with (Z.of_nat (S k)) by lia. reflexivity. }
  destruct (Z.leb_spec B (32 - sb)) as [Hfit|Hover].
  - destruct (Z.eqb_spec B (32 - sb)) as [Hfull|Hpart].
    + (* the item fills the word: flush *)
      mem_step lia. rewrite Hbrk by reflexivity.
      eexists. split; [reflexivity|].
      assert (Hz : (i * B + B) mod 32 = 0 /\ (i * B + B) / 32 = o + 1).
      { destruct (divmod32 (i * B + B) (o + 1) 0); lia. }
      destruct Hz as [Hz0 Hz1].
      constructor; cbn [ps_out ps_in ps_packed ps_buf]; rewrite ?Hnext, ?Hz0.
      * lia.
      * lia.
      * rewrite upd_length. exact Hlen.
      * apply Forall_upd; auto with u32.
      * unfold fits. simpl. lia.
      * rewrite pending_flush; cbn [ps_out ps_in ps_packed ps_buf].
        -- rewrite Hsn, Hupd.
           apply (write_one_word B _ i v o sb); auto with u32; try lia.
           intros r Hr'. rewrite Hpv by exact Hr'. unfold shl32, wrap32. bits.
        -- apply Forall_upd; auto with u32.
        -- lia.
        -- unfold fits. simpl. lia.
    + cbn [bind]. rewrite Hbrk by reflexivity.
      eexists. split; [reflexivity|].
      assert (Hz : (i * B + B) mod 32 = sb + B /\ (i * B + B) / 32 = o).
      { destruct (divmod32 (i * B + B) o (sb + B)); lia. }
      destruct Hz as [Hz0 Hz1].
      assert (Hp' : fits (sb + B) (Z.lor packed (shl32 v sb))).
      { apply bounded_by_bits; [lia|]. intros r Hr'.
        unfold shl32, wrap32. bits. }
      constructor; cbn [ps_out ps_in ps_packed ps_buf]; rewrite ?Hnext, ?Hz0;
        try assumption; try lia.
      unfold pending. cbn [ps_out ps_in ps_packed ps_buf].
      rewrite Hsn, Hupd.
      apply (write_one_word B _ i v o sb); auto with u32; try lia.
      * apply pending_word_u32; [lia | exact Hp'].
      * intros r Hr'. rewrite Hpv by exact Hr'.
        rewrite pending_word_bits by (assumption || lia).
        unfold shl32, wrap32. bits.
  - (* the item straddles two words *)
    mem_step lia. rewrite Hbrk by reflexivity.
    eexists. split; [reflexivity|].
    assert (Hz : (i * B + B) mod 32 = sb + B - 32 /\ (i * B + B) / 32 = o + 1).
    { destruct (divmod32 (i * B + B) (o + 1) (sb + B - 32)); lia. }
    destruct Hz as [Hz0 Hz1].
    assert (Hp' : fits (sb + B - 32) (Z.shiftr v (32 - sb))).
    { apply bounded_by_bits; [lia|]. intros r Hr'. bits. }
    assert (Hx0 : is_u32 (Z.lor packed (shl32 v sb))) by auto with u32.
    constructor; cbn [ps_out ps_in ps_packed ps_buf]; rewrite ?Hnext, ?Hz0;
      try assumption; try lia.
    + rewrite upd_length. exact Hlen.
    + apply Forall_upd; assumption.
    + unfold pending. cbn [ps_out ps_in ps_packed ps_buf].
      rewrite Hsn, Hupd.
      rewrite (peek_upd view) by lia.
      replace (o + 1 =? o) with false by (symmetry; apply Z.eqb_neq; lia).
      cbn [andb].
      apply (write_two_words B _ i v o sb); auto with u32; try lia.
      * apply pending_word_u32; [lia | exact Hp'].
      * intros r Hr'. rewrite Hpv by exact Hr'. unfold shl32, wrap32. bits.
      * intros r Hr'. rewrite Hpv1.
        rewrite pending_word_bits by (auto with u32; lia).
        bits.
Qed.

Lemma firstn_fits B (input : list Z) n k :
  Forall (fits B) (firstn n input) -> (k < n)%nat -> (n <= length input)%nat ->
  fits B (peek input (Z.of_nat k)).
Proof.
  intros Hfit Hk Hn. rewrite Forall_forall in Hfit. apply Hfit.
  unfold peek. rewrite Nat2Z.id.
  rewrite <- (firstn_skipn n input) at 1.
  rewrite app_nth1 by (rewrite length_firstn; lia).
  apply nth_In. rewrite length_firstn. lia.
Qed.

Lemma Forall_firstn_le (P : Z -> Prop) (l : list Z) n m :
  Forall P (firstn n l) -> (m <= n)%nat -> Forall P (firstn m l).
Proof.
  revert n m. induction l as [|h t IH]; intros n m H Hm.
  - rewrite firstn_nil. constructor.
  - destruct m as [|m]; [constructor|].
    destruct n as [|n]; [lia|]. cbn [firstn] in *.
    inversion H; subst. constructor; [assumption|].
    apply (IH n); [assumption | lia].
Qed.

Lemma pack_cases_correct B buf0 offset input brk : forall n k c I s,
  1 <= B <= 32 -> 0 <= offset ->
  pack_inv B buf0 offset input k s ->
  stops_after brk k n c ->
  0 <= I -> I + Z.of_nat n <= 32 -> (offset + Z.of_nat k - I) mod 32 = 0 ->
  (offset + Z.of_nat (k + c)) * B <= 32 * Z.of_nat (length buf0) ->
  (k + c <= length input)%nat -> Forall (fits B) (firstn (k + c) input) ->
  exists s',
    pack_cases B brk input n I s = Ok s' /\
    pack_inv B buf0 offset input (k + c) s'.
Proof.
  induction n as [|n IH]; intros k c I s HB Hoff Hinv Hstop HI0 HIn HI Hend Hlen Hfit.
  - assert (c = 0)%nat as -> by (destruct brk; cbn in Hstop; lia).
    exists s. rewrite Nat.add_0_r. split; [reflexivity | exact Hinv].
  - assert (Hc : (1 <= c)%nat) by (destruct brk; cbn in Hstop; lia).
    assert (HIk : I = (offset + Z.of_nat k) mod 32).
    { pose proof (Z.div_mod (offset + Z.of_nat k - I) 32 ltac:(lia)) as Hd.
      rewrite HI in Hd.
      destruct (divmod32 (offset + Z.of_nat k)
                  ((offset + Z.of_nat k - I) / 32) I); lia. }
    cbn [pack_cases].
    destruct (pack_case_correct B buf0 offset input k s I brk HB Hoff Hinv)
      as [s1 [Hs1 Hinv1]]; try assumption; try lia.
    { split; [lia|]. nia. }
    { apply (firstn_fits B input (k + c)); (assumption || lia). }
    rewrite Hs1. cbn [bind snd fst].
    assert (Hrec : stops_after brk (S k) n (c - 1) ->
              exists s',
                pack_cases B brk input n (I + 1) s1 = Ok s' /\
                pack_inv B buf0 offset input (k + c) s').
    { intros Hstop'. replace (k + c)%nat with (S k + (c - 1))%nat in * by lia.
      apply IH; try assumption; try lia.
      replace (offset + Z.of_nat (S k) - (I + 1))
        with (offset + Z.of_nat k - I) by lia. exact HI. }
    destruct brk as [end_|]; cbn in Hstop.
    + destruct Hstop as [Hcn ->].
      destruct (Z.eqb_spec (Z.of_nat (S k)) (Z.of_nat (k + c))) as [Heq|Hne].
      * exists s1. replace (k + c)%nat with (S k) by lia.
        split; [reflexivity | exact Hinv1].
      * apply Hrec. cbn. split; [lia|]. f_equal. lia.
    + subst c. apply Hrec. cbn. lia.
Qed.

Lemma pack_again_correct B buf0 offset input : forall passes k s,
  1 <= B <= 32 -> 0 <= offset ->
  pack_inv B buf0 offset input k s ->
  (offset + Z.of_nat k) mod 32 = 0 ->
  (offset + Z.of_nat (k + 32 * passes)) * B <= 32 * Z.of_nat (length buf0) ->
  (k + 32 * passes <= length input)%nat ->
  Forall (fits B) (firstn (k + 32 * passes) input) ->
  exists s',
    pack_again B input passes s = Ok s' /\
    pack_inv B buf0 offset input (k + 32 * passes) s'.
Proof.
  induction passes as [|p IH]; intros k s HB Hoff Hinv Hk Hend Hlen Hfit.
  - exists s. rewrite Nat.mul_0_r, Nat.add_0_r. split; [reflexivity | exact Hinv].
  - cbn [pack_again].
    destruct (pack_cases_correct B buf0 offset input None 32 k 32 0 s HB Hoff Hinv)
      as [s1 [Hs1 Hinv1]]; try reflexivity; try lia.
    { rewrite Z.sub_0_r. exact Hk. }
    { apply (Forall_firstn_le _ _ (k + 32 * S p)); [exact Hfit | lia]. }
    rewrite Hs1. cbn [bind].
    replace (k + 32 * S p)%nat with ((k + 32) + 32 * p)%nat in * by lia.
    apply IH; try assumption.
    replace (offset + Z.of_nat (k + 32)) with (offset + Z.of_nat k + 1 * 32) by lia.
    rewrite Z.mod_add by lia. exact Hk.
Qed.

Lemma IMPL_MASK_ones0 sb :
  0 <= sb <= 32 -> PACKEDARRAY_IMPL_MASK sb = Z.ones sb.
Proof.
  intros Hsb. destruct (Z.eq_dec sb 0) as [->|Hne]; [reflexivity|].
  apply IMPL_MASK_ones. lia.
Qed.

Lemma wrap32_to_int32 x y : wrap32 (to_int32 x - y) = wrap32 (x - y).
Proof.
  unfold to_int32, wrap32.
  destruct (Z.ltb_spec (x mod 2 ^ 32) (2 ^ 31)).
  - apply Zminus_mod_idemp_l.
  - replace (x mod 2 ^ 32 - 2 ^ 32 - y) with (x mod 2 ^ 32 - y + (-1) * 2 ^ 32)
      by lia.
    rewrite Z.mod_add by lia. apply Zminus_mod_idemp_l.
Qed.

Lemma pack_finish_correct ndebug B buf0 offset input k c I startBit s :
  1 <= B <= 32 -> 0 <= offset ->
  pack_inv B buf0 offset input k s ->
  (1 <= c)%nat -> 0 <= I -> I + Z.of_nat c <= 32 ->
  (offset + Z.of_nat k - I) mod 32 = 0 ->
  0 <= startBit < 32 ->
  (Z.of_nat c * B + startBit) mod 32 = ((offset + Z.of_nat (k + c)) * B) mod 32 ->
  (offset + Z.of_nat (k + c)) * B <= 32 * Z.of_nat (length buf0) ->
  (k + c <= length input)%nat -> Forall (fits B) (firstn (k + c) input) ->
  exists b,
    pack_finish ndebug B input (Z.of_nat c) I startBit s = Ok b /\
    length b = length buf0 /\ Forall is_u32 b /\
    bits_of b = write_items B (bits_of buf0) offset (firstn (k + c) input).
Proof.
  intros HB Hoff Hinv Hc HI0 HIc HI Hsb Hmod Hend Hlen Hfit.
  unfold pack_finish, pack_switch.
  replace ((0 <=? I) && (I <=? 31)) with true
    by (symmetry; apply andb_true_intro; split; apply Z.leb_le; lia).
  destruct (pack_cases_correct B buf0 offset input
              (Some (ps_in s + Z.of_nat c)) (Z.to_nat (32 - I)) k c I s
              HB Hoff Hinv)
    as [s1 [Hs1 Hinv1]]; try assumption; try lia.
  { unfold stops_after. split; [lia|]. rewrite (pi_in _ _ _ _ _ _ Hinv). lia. }
  rewrite Hs1. cbn [bind].
  destruct Hinv1 as [Hin1 Hout1 Hlen1 Hm1 Hp1 Hbits1].
  rewrite Hin1, (pi_in _ _ _ _ _ _ Hinv).
  replace (Z.of_nat (k + c) =? Z.of_nat k + Z.of_nat c) with true
    by (symmetry; apply Z.eqb_eq; lia).
  unfold PACKEDARRAY_ASSERT. rewrite orb_true_r. cbn [bind].
  set (p := (offset + Z.of_nat (k + c)) * B) in *.
  assert (Hcb : 0 <= Z.of_nat c * B <= 1024) by nia.
  rewrite (wrap32_small (Z.of_nat c * B)) by lia.
  rewrite (wrap32_small (Z.of_nat c * B + startBit)) by lia.
  rewrite Hmod.
  pose proof (Z.mod_pos_bound p 32 ltac:(lia)) as Hr.
  pose proof (Z.div_mod p 32 ltac:(lia)) as Hdm.
  assert (Hp0 : 0 <= p) by (unfold p; nia).
  assert (Hq0 : 0 <= p / 32) by (apply Z.div_pos; lia).
  destruct (Z.eqb_spec (p mod 32) 0) as [Hz|Hnz]; cbn [negb].
  - exists (ps_buf s1). split; [reflexivity|].
    split; [exact Hlen1|]. split; [exact Hm1|].
    rewrite <- Hbits1, Hz. rewrite pending_flush; try assumption.
    + reflexivity.
    + rewrite Hout1. exact Hq0.
    + rewrite Hz in Hp1. exact Hp1.
  - assert (Hx : wrap64 (wrap64 (Z.of_nat c * B) + startBit - 1) mod 32 + 1 = p mod 32).
    { rewrite (wrap64_small (Z.of_nat c * B)) by lia.
      rewrite wrap64_small by lia.
      pose proof (Z.div_mod (Z.of_nat c * B + startBit) 32 ltac:(lia)) as Hd.
      rewrite Hmod in Hd.
      destruct (divmod32 (Z.of_nat c * B + startBit - 1)
                  ((Z.of_nat c * B + startBit) / 32) (p mod 32 - 1)); lia. }
    rewrite Hx. fold (mask_of (p mod 32)). rewrite mask_of_ones by lia.
    rewrite load_ok by (rewrite Hout1; lia). cbn [bind].
    rewrite store_ok by (rewrite Hout1; lia).
    eexists. split; [reflexivity|].
    split; [rewrite upd_length; exact Hlen1|].
    split.
    + apply Forall_upd; [exact Hm1|].
      apply (pending_word_u32 (p mod 32)); [lia | exact Hp1].
    + exact Hbits1.
Qed.

(** [__PackedArray_pack_B] writes the [n >= 1] values into the windows of
    the items [offset], ..., [offset + n - 1]. *)
Lemma specialised_pack_correct ndebug B buf offset input n :
  1 <= B <= 32 -> Forall is_u32 buf ->
  0 <= offset -> (1 <= n)%nat -> offset + Z.of_nat n < 2 ^ 32 ->
  (offset + Z.of_nat n) * B <= 32 * Z.of_nat (length buf) ->
  (n <= length input)%nat -> Forall (fits B) (firstn n input) ->
  exists b,
    __PackedArray_pack_ ndebug B buf offset input (Z.of_nat n) = Ok b /\
    length b = length buf /\ Forall is_u32 b /\
    bits_of b = write_items B (bits_of buf) offset (firstn n input).
Proof.
  intros HB Hm Hoff Hn Hmax Hend Hlen Hfit.
  assert (Hin : item_in B (Z.of_nat (length buf)) offset) by (split; [lia | nia]).
  destruct (item_in_words _ _ _ HB Hin) as [Ho _].
  destruct (cursor_facts B offset HB ltac:(lia))
    as (Hw64 & Hw32 & Hba & Hsb & Hq & Hdm).
  unfold __PackedArray_pack_. cbv zeta. rewrite Hw64, Hw32. mem_step lia.
  fold (PACKEDARRAY_IMPL_MASK ((offset * B) mod 32)).
  rewrite IMPL_MASK_ones0 by lia.
  set (o := offset * B / 32) in *. set (sb := (offset * B) mod 32) in *.
  set (s0 := mkPackState o 0 (Z.land (peek buf o) (Z.ones sb)) buf).
  pose proof (peek_u32 buf o Hm) as Hw.
  assert (Hp0 : fits sb (Z.land (peek buf o) (Z.ones sb))).
  { apply bounded_by_bits; [lia|]. intros r Hr. bits. }
  assert (Hinv0 : pack_inv B buf offset input 0 s0).
  { unfold s0.
    constructor; cbn [ps_out ps_in ps_packed ps_buf Z.of_nat];
      rewrite ?Z.add_0_r; try assumption; try reflexivity.
    cbn [firstn write_items]. unfold pending. cbn [ps_out ps_in ps_packed ps_buf].
    fold sb.
    replace (pending_word sb (Z.land (peek buf o) (Z.ones sb)) (peek buf o))
      with (peek buf o); [unfold peek; rewrite upd_same; reflexivity|].
    apply Z.bits_inj'. intros r Hr. destruct (Z.lt_ge_cases r 32).
    - rewrite pending_word_bits by (assumption || lia). bits.
    - rewrite !u32_testbit; auto. apply pending_word_u32; [lia | exact Hp0]. }
  pose proof (Z.mod_pos_bound offset 32 ltac:(lia)) as HI.
  pose proof (Z.div_mod offset 32 ltac:(lia)) as HdI.
  set (I := offset mod 32) in *.
  assert (HI0 : (offset + Z.of_nat 0 - I) mod 32 = 0).
  { destruct (divmod32 (offset + Z.of_nat 0 - I) (offset / 32) 0); lia. }
  rewrite (wrap32_small (32 - I)) by lia.
  destruct (Z.geb_spec (Z.of_nat n) (32 - I)) as [Hbulk|Hsmall].
  - (* at least one whole cycle *)
    rewrite (wrap32_small (Z.of_nat n + I)) by lia.
    set (q := (Z.of_nat n + I) / 32).
    pose proof (Z.mod_pos_bound (Z.of_nat n + I) 32 ltac:(lia)) as Hc'.
    pose proof (Z.div_mod (Z.of_nat n + I) 32 ltac:(lia)) as Hdq. fold q in Hdq.
    assert (Hq1 : 1 <= q < 2 ^ 27) by lia.
    rewrite (to_int32_small q) by lia.
    rewrite wrap32_to_int32, (wrap32_small (32 * q - I)) by lia.
    replace (Z.of_nat n - (32 * q - I)) with ((Z.of_nat n + I) mod 32) by lia.
    rewrite (wrap32_small ((Z.of_nat n + I) mod 32)) by lia.
    set (k1 := Z.to_nat (32 - I)). set (passes := Z.to_nat (q - 1)).
    unfold pack_batch.
    replace ((0 <=? I) && (I <=? 31)) with true
      by (symmetry; apply andb_true_intro; split; apply Z.leb_le; lia).
    destruct (pack_cases_correct B buf offset input None k1 0 k1 I s0 HB Hoff Hinv0)
      as [s1 [Hs1 Hinv1]]; try reflexivity; try assumption; try lia.
    { assert ((offset + Z.of_nat (0 + k1)) * B <= (offset + Z.of_nat n) * B)
        by (apply Z.mul_le_mono_nonneg_r; lia). lia. }
    { apply (Forall_firstn_le _ _ n); [exact Hfit | lia]. }
    fold k1. rewrite Hs1. cbn [bind]. cbn [Nat.add] in Hinv1.
    assert (Hk1 : (offset + Z.of_nat k1) mod 32 = 0).
    { destruct (divmod32 (offset + Z.of_nat k1) (offset / 32 + 1) 0); lia. }
    destruct (pack_again_correct B buf offset input passes k1 s1 HB Hoff Hinv1 Hk1)
      as [s2 [Hs2 Hinv2]]; try lia.
    { assert ((offset + Z.of_nat (k1 + 32 * passes)) * B <= (offset + Z.of_nat n) * B)
        by (apply Z.mul_le_mono_nonneg_r; lia). lia. }
    { apply (Forall_firstn_le _ _ n); [exact Hfit | lia]. }
    fold passes. rewrite Hs2. cbn [bind].
    set (k2 := (k1 + 32 * passes)%nat) in *.
    assert (Hk2 : Z.of_nat k2 = 32 * q - I) by lia.
    assert (Hk2m : (offset + Z.of_nat k2) mod 32 = 0).
    { destruct (divmod32 (offset + Z.of_nat k2) (offset / 32 + q) 0); lia. }
    destruct (Z.eqb_spec ((Z.of_nat n + I) mod 32) 0) as [Hdone|Hmore].
    + assert (Hkn : k2 = n) by lia. clearbody k2. subst k2.
      destruct Hinv2 as [Hin2 Hout2 Hlen2 Hm2 Hp2 Hbits2].
      assert (Hz : ((offset + Z.of_nat n) * B) mod 32 = 0).
      { rewrite <- Z.mul_mod_idemp_l by lia. rewrite Hk2m. reflexivity. }
      rewrite Hz in *.
      exists (ps_buf s2). split; [reflexivity|].
      split; [exact Hlen2|]. split; [exact Hm2|].
      rewrite <- Hbits2. rewrite pending_flush; try assumption; [reflexivity|].
      rewrite Hout2. apply Z.div_pos; nia.
    + set (c := Z.to_nat ((Z.of_nat n + I) mod 32)).
      replace ((Z.of_nat n + I) mod 32) with (Z.of_nat c) by lia.
      assert (Hkc : (k2 + c)%nat = n) by lia.
      destruct (pack_finish_correct ndebug B buf offset input k2 c 0 0 s2 HB Hoff Hinv2)
        as [b Hb]; try lia; rewrite ?Hkc; try assumption.
      * rewrite Z.sub_0_r. exact Hk2m.
      * rewrite Z.add_0_r.
        replace (offset + Z.of_nat n) with (Z.of_nat c + (offset + Z.of_nat k2)) by lia.
        rewrite Z.mul_add_distr_r.
        rewrite <- (Z.add_mod_idemp_r (Z.of_nat c * B)) by lia.
        rewrite <- (Z.mul_mod_idemp_l (offset + Z.of_nat k2)) by lia.
        rewrite Hk2m. cbn [Z.mul]. rewrite Z.mod_0_l, Z.add_0_r by lia.
        reflexivity.
      * rewrite Hkc in Hb. exists b. exact Hb.
  - (* less than a cycle *)
    destruct (pack_finish_correct ndebug B buf offset input 0 n I sb s0 HB Hoff Hinv0)
      as [b Hb]; try lia; cbn [Nat.add]; try assumption.
    + unfold sb. rewrite Z.add_mod_idemp_r by lia. f_equal. lia.
    + exists b. exact Hb.
Qed.

(** ** The specialised unpack *)

(** The last label of a cycle always ends on a word boundary. *)
Lemma last_case_fills B i :
  1 <= B <= 32 -> 0 <= i -> i mod 32 = 31 -> (i * B) mod 32 + B = 32.
Proof.
  intros HB Hi H31.
  pose proof (Z.div_mod i 32 ltac:(lia)) as Hd. rewrite H31 in Hd.
  pose proof (Z.mod_pos_bound (i * B) 32 ltac:(lia)) as Hr.
  pose proof (Z.div_mod (i * B) 32 ltac:(lia)) as Hdm.
  assert (Hz : ((i * B) mod 32 + B) mod 32 = 0).
  { rewrite Z.add_mod_idemp_l by lia.
    replace (i * B + B) with (0 + (i / 32 + 1) * B * 32) by lia.
    rewrite Z.mod_add by lia. reflexivity. }
  pose proof (Z.div_mod ((i * B) mod 32 + B) 32 ltac:(lia)) as Hd2.
  rewrite Hz in Hd2. lia.
Qed.

Lemma unpack_case_correct B buf offset dst0 k s I brk :
  1 <= B <= 32 -> 0 <= offset -> Forall is_u32 buf ->
  unpack_inv B buf offset dst0 true k s ->
  item_in B (Z.of_nat (length buf)) (offset + Z.of_nat k) ->
  (k < length dst0)%nat ->
  I = (offset + Z.of_nat k) mod 32 ->
  (brk = Some (Z.of_nat (S k)) \/ I = 31 \/
   item_in B (Z.of_nat (length buf)) (offset + Z.of_nat (S k))) ->
  exists s' fresh,
    unpack_case B I brk buf s =
      Ok (s', match brk with
              | None => false
              | Some end_ => Z.of_nat (S k) =? end_
              end) /\
    unpack_inv B buf offset dst0 fresh (S k) s' /\
    ((match brk with
      | None => false
      | Some end_ => Z.of_nat (S k) =? end_
      end) = false -> fresh = (I <? 31)).
Proof.
  intros HB Hoff Hm [Hout Hdst [Hin Hp]] Hitem Hk HI Hmore.
  destruct s as [in_ packed out dst]. cbn [us_in us_packed us_out us_dst] in *.
  subst out dst packed in_.
  destruct (item_in_words _ _ _ HB Hitem) as [Ho Ho1].
  set (i := offset + Z.of_nat k) in *.
  assert (Hi : 0 <= i) by (unfold i; lia).
  pose proof (Z.mod_pos_bound (i * B) 32 ltac:(lia)) as Hr.
  pose proof (Z.div_mod (i * B) 32 ltac:(lia)) as Hdm.
  assert (Hnext : (offset + Z.of_nat (S k)) * B = i * B + B) by (unfold i; lia).
  assert (Hstore : forall x, x = item_at B buf i ->
            store (items_at B buf offset k ++ skipn k dst0) (Z.of_nat k) x =
            Ok (items_at B buf offset (S k) ++ skipn (S k) dst0)).
  { intros x ->. rewrite store_ok.
    - rewrite Nat2Z.id, upd_app_skipn, items_at_S
        by (try apply items_at_length; lia). reflexivity.
    - rewrite length_app, items_at_length, length_skipn. lia. }
  pose proof (peek_u32 buf (i * B / 32) Hm) as Hw0.
  pose proof (peek_u32 buf (i * B / 32 + 1) Hm) as Hw1.
  pose proof (Z.mod_pos_bound i 32 ltac:(lia)) as HIr.
  unfold unpack_case, PACKEDARRAY_IMPL_BITS_AVAILABLE.
  rewrite (case_start_bit B I i HI).
  replace ((I * B) mod 32) with ((i * B) mod 32)
    by (symmetry; apply (case_start_bit B I i HI)).
  rewrite IMPL_MASK_ones by exact HB.
  set (o := i * B / 32) in *. set (sb := (i * B) mod 32) in *.
  replace (Z.of_nat k + 1) with (Z.of_nat (S k)) by lia.
  set (flag := match brk with
               | None => false
               | Some end_ => Z.of_nat (S k) =? end_
               end).
  assert (Hflag : flag = false ->
            brk = Some (Z.of_nat (S k)) -> False).
  { unfold flag. intros Hf ->. rewrite Z.eqb_refl in Hf. discriminate. }
  destruct (Z.leb_spec B (32 - sb)) as [Hfit|Hover].
  - rewrite Hstore; cbn [bind].
    2:{ apply (read_window B _ i o sb); try assumption; try lia.
        intros r Hr'. bits. }
    destruct flag eqn:Hfl.
    + (* break *)
      destruct (Z.eq_dec (sb + B) 32) as [Hfull|Hpart].
      * exists (mkUnpackState o (peek buf o) (Z.of_nat (S k))
                  (items_at B buf offset (S k) ++ skipn (S k) dst0)), false.
        split; [reflexivity|]. split; [|discriminate].
        constructor; cbn [us_in us_packed us_out us_dst]; auto.
        rewrite Hnext.
        destruct (divmod32 (i * B + B) (o + 1) 0) as [Hq1 Hr1]; [lia | lia |].
        rewrite ?Hq1, ?Hr1; try lia; try (split; reflexivity).
      * exists (mkUnpackState o (peek buf o) (Z.of_nat (S k))
                  (items_at B buf offset (S k) ++ skipn (S k) dst0)), true.
        split; [reflexivity|]. split; [|discriminate].
        constructor; cbn [us_in us_packed us_out us_dst]; auto.
        rewrite Hnext.
        destruct (divmod32 (i * B + B) o (sb + B)) as [Hq1 Hr1]; [lia | lia |].
        rewrite ?Hq1, ?Hr1; try lia; try (split; reflexivity).
    + destruct (Z.ltb_spec I 31) as [HI31|HI31];
        destruct (Z.eqb_spec B (32 - sb)) as [Hfull|Hpart]; cbn [andb].
      * (* a full word, more labels follow: load the next word *)
        assert (Hn : item_in B (Z.of_nat (length buf)) (offset + Z.of_nat (S k))).
        { destruct Hmore as [Hb|[H31|Hn]]; [|lia|exact Hn].
          exfalso. apply Hflag; [reflexivity | exact Hb]. }
        destruct (item_in_words _ _ _ HB Hn) as [Hon _]. rewrite Hnext in Hon.
        destruct (divmod32 (i * B + B) (o + 1) 0) as [Hq1 Hr1]; [lia | lia |].
        rewrite Hq1 in Hon. mem_step lia.
        eexists _, true. split; [reflexivity|]. split; [|reflexivity].
        constructor; cbn [us_in us_packed us_out us_dst]; auto.
        rewrite Hnext, Hq1. split; reflexivity.
      * eexists _, true. split; [reflexivity|]. split; [|reflexivity].
        constructor; cbn [us_in us_packed us_out us_dst]; auto.
        rewrite Hnext.
        destruct (divmod32 (i * B + B) o (sb + B)) as [Hq1 Hr1]; [lia | lia |].
        rewrite ?Hq1, ?Hr1; try lia; try (split; reflexivity).
      * eexists _, false. split; [reflexivity|]. split; [|reflexivity].
        constructor; cbn [us_in us_packed us_out us_dst]; auto.
        rewrite Hnext.
        destruct (divmod32 (i * B + B) (o + 1) 0) as [Hq1 Hr1]; [lia | lia |].
        rewrite ?Hq1, ?Hr1; try lia; try (split; reflexivity).
      * exfalso. pose proof (last_case_fills B i HB Hi ltac:(lia)). fold sb in H. lia.
  - mem_step lia. rewrite Hstore; cbn [bind].
    2:{ apply (read_window B _ i o sb); try assumption; try lia.
        intros r Hr'. unfold shl32, wrap32. bits. }
    assert (HI31 : I < 31).
    { destruct (Z.lt_ge_cases I 31) as [Hl|Hg]; [exact Hl|].
      pose proof (last_case_fills B i HB Hi ltac:(lia)). fold sb in H. lia. }
    eexists _, true. split; [reflexivity|].
    split; [|intros _; symmetry; apply Z.ltb_lt; exact HI31].
    constructor; cbn [us_in us_packed us_out us_dst]; auto.
    rewrite Hnext.
    destruct (divmod32 (i * B + B) (o + 1) (sb + B - 32)) as [Hq1 Hr1]; [lia | lia |].
        rewrite ?Hq1, ?Hr1; try lia; try (split; reflexivity).
Qed.

Lemma unpack_cases_correct B buf offset dst0 brk : forall n k c I s,
  1 <= B <= 32 -> 0 <= offset -> Forall is_u32 buf ->
  unpack_inv B buf offset dst0 true k s ->
  stops_after brk k n c -> (1 <= n)%nat ->
  (brk = None -> I + Z.of_nat n = 32) ->
  0 <= I -> I + Z.of_nat n <= 32 -> (offset + Z.of_nat k - I) mod 32 = 0 ->
  (offset + Z.of_nat (k + c)) * B <= 32 * Z.of_nat (length buf) ->
  (k + c <= length dst0)%nat ->
  exists s' fresh,
    unpack_cases B brk buf n I s = Ok s' /\
    unpack_inv B buf offset dst0 fresh (k + c) s' /\
    (brk = None -> fresh = false).
Proof.
  induction n as [|n IH]; intros k c I s HB Hoff Hm Hinv Hstop Hn Hlast HI0 HIn HI
                                Hend Hlen; [lia|].
  assert (Hc : (1 <= c)%nat) by (destruct brk; cbn in Hstop; lia).
  assert (HIk : I = (offset + Z.of_nat k) mod 32).
  { pose proof (Z.div_mod (offset + Z.of_nat k - I) 32 ltac:(lia)) as Hd.
    rewrite HI in Hd.
    destruct (divmod32 (offset + Z.of_nat k)
                ((offset + Z.of_nat k - I) / 32) I); lia. }
  cbn [unpack_cases].
  destruct (unpack_case_correct B buf offset dst0 k s I brk HB Hoff Hm Hinv)
    as (s1 & f1 & Hs1 & Hinv1 & Hf1); try assumption; try lia.
  { split; [lia|]. nia. }
  { destruct brk as [end_|]; cbn in Hstop.
    - destruct Hstop as [Hcn ->]. destruct (Nat.eq_dec c 1) as [->|Hc1].
      + left. f_equal. f_equal. lia.
      + right. right. split; [lia|]. nia.
    - subst c. destruct (Nat.eq_dec n 0) as [->|Hn0].
      + right. left. specialize (Hlast eq_refl). lia.
      + right. right. split; [lia|]. nia. }
  rewrite Hs1. cbn [bind snd fst].
  destruct brk as [end_|]; cbn in Hstop.
  - destruct Hstop as [Hcn ->].
    destruct (Z.eqb_spec (Z.of_nat (S k)) (Z.of_nat (k + c))) as [Heq|Hne].
    + exists s1, f1. replace (k + c)%nat with (S k) by lia.
      split; [reflexivity|]. split; [exact Hinv1 | discriminate].
    + specialize (Hf1 eq_refl).
      assert (Hn1 : (1 <= n)%nat) by lia.
      replace (I <? 31) with true in Hf1 by (symmetry; apply Z.ltb_lt; lia).
      subst f1. replace (k + c)%nat with (S k + (c - 1))%nat in * by lia.
      apply IH; try assumption; try lia; try discriminate;
        first [ cbn; split; [lia|]; f_equal; lia
              | replace (offset + Z.of_nat (S k) - (I + 1))
                  with (offset + Z.of_nat k - I) by lia; exact HI ].
  - subst c. specialize (Hf1 eq_refl). specialize (Hlast eq_refl).
    destruct n as [|n].
    + exists s1, f1. replace (k + 1)%nat with (S k) by lia.
      split; [reflexivity|]. split; [exact Hinv1|].
      intros _. rewrite Hf1. apply Z.ltb_ge. lia.
    + replace (I <? 31) with true in Hf1 by (symmetry; apply Z.ltb_lt; lia).
      subst f1. replace (k + S (S n))%nat with (S k + S n)%nat in * by lia.
      apply IH; try assumption; try lia;
        first [ reflexivity
              | replace (offset + Z.of_nat (S k) - (I + 1))
                  with (offset + Z.of_nat k - I) by lia; exact HI ].
Qed.

Lemma next_word_correct B buf offset dst0 k s :
  1 <= B <= 32 -> 0 <= offset ->
  unpack_inv B buf offset dst0 false k s ->
  item_in B (Z.of_nat (length buf)) (offset + Z.of_nat k) ->
  exists s',
    next_word buf s = Ok s' /\ unpack_inv B buf offset dst0 true k s'.
Proof.
  intros HB Hoff [Hout Hdst [Hz Hin]] Hitem.
  destruct (item_in_words _ _ _ HB Hitem) as [Ho _].
  unfold next_word. rewrite Hin.
  replace ((offset + Z.of_nat k) * B / 32 - 1 + 1)
    with ((offset + Z.of_nat k) * B / 32) by lia.
  rewrite load_ok by lia. cbn [bind].
  eexists. split; [reflexivity|].
  constructor; cbn [us_in us_packed us_out us_dst]; auto.
Qed.

Lemma unpack_again_correct B buf offset dst0 : forall passes k s,
  1 <= B <= 32 -> 0 <= offset -> Forall is_u32 buf ->
  unpack_inv B buf offset dst0 false k s ->
  (offset + Z.of_nat k) mod 32 = 0 ->
  (offset + Z.of_nat (k + 32 * passes)) * B <= 32 * Z.of_nat (length buf) ->
  (k + 32 * passes <= length dst0)%nat ->
  exists s',
    unpack_again B buf passes s = Ok s' /\
    unpack_inv B buf offset dst0 false (k + 32 * passes) s'.
Proof.
  induction passes as [|p IH]; intros k s HB Hoff Hm Hinv Hk Hend Hlen.
  - exists s. rewrite Nat.mul_0_r, Nat.add_0_r. split; [reflexivity | exact Hinv].
  - cbn [unpack_again].
    destruct (next_word_correct B buf offset dst0 k s HB Hoff Hinv)
      as [s0 [Hs0 Hinv0]].
    { split; [lia|]. nia. }
    rewrite Hs0. cbn [bind].
    destruct (unpack_cases_correct B buf offset dst0 None 32 k 32 0 s0
                HB Hoff Hm Hinv0)
      as (s1 & f1 & Hs1 & Hinv1 & Hf1); try reflexivity; try lia.
    { rewrite Z.sub_0_r. exact Hk. }
    rewrite Hs1. cbn [bind]. rewrite (Hf1 eq_refl) in Hinv1.
    replace (k + 32 * S p)%nat with ((k + 32) + 32 * p)%nat in * by lia.
    apply IH; try assumption.
    replace (offset + Z.of_nat (k + 32)) with (offset + Z.of_nat k + 1 * 32) by lia.
    rewrite Z.mod_add by lia. exact Hk.
Qed.

Lemma unpack_finish_correct ndebug B buf offset dst0 k c I s :
  1 <= B <= 32 -> 0 <= offset -> Forall is_u32 buf ->
  unpack_inv B buf offset dst0 true k s ->
  (1 <= c)%nat -> 0 <= I -> I + Z.of_nat c <= 32 ->
  (offset + Z.of_nat k - I) mod 32 = 0 ->
  (offset + Z.of_nat (k + c)) * B <= 32 * Z.of_nat (length buf) ->
  (k + c <= length dst0)%nat ->
  unpack_finish ndebug B buf (Z.of_nat c) I s =
  Ok (items_at B buf offset (k + c) ++ skipn (k + c) dst0).
Proof.
  intros HB Hoff Hm Hinv Hc HI0 HIc HI Hend Hlen.
  unfold unpack_finish, unpack_switch.
  replace ((0 <=? I) && (I <=? 31)) with true
    by (symmetry; apply andb_true_intro; split; apply Z.leb_le; lia).
  destruct (unpack_cases_correct B buf offset dst0
              (Some (us_out s + Z.of_nat c)) (Z.to_nat (32 - I)) k c I s
              HB Hoff Hm Hinv)
    as (s1 & f1 & Hs1 & Hinv1 & _); try assumption; try lia; try discriminate.
  { unfold stops_after. split; [lia|]. rewrite (ui_out _ _ _ _ _ _ _ Hinv). lia. }
  rewrite Hs1. cbn [bind].
  destruct Hinv1 as [Hout1 Hdst1 _].
  rewrite Hout1, (ui_out _ _ _ _ _ _ _ Hinv).
  replace (Z.of_nat (k + c) =? Z.of_nat k + Z.of_nat c) with true
    by (symmetry; apply Z.eqb_eq; lia).
  unfold PACKEDARRAY_ASSERT. rewrite orb_true_r. cbn [bind].
  rewrite Hdst1. reflexivity.
Qed.

(** [__PackedArray_unpack_B] reads the [n >= 1] items [offset], ...,
    [offset + n - 1] into the first [n] slots of the output array. *)
Lemma specialised_unpack_correct ndebug B buf offset dst n :
  1 <= B <= 32 -> Forall is_u32 buf ->
  0 <= offset -> (1 <= n)%nat -> offset + Z.of_nat n < 2 ^ 32 ->
  (offset + Z.of_nat n) * B <= 32 * Z.of_nat (length buf) ->
  (n <= length dst)%nat ->
  __PackedArray_unpack_ ndebug B buf offset dst (Z.of_nat n) =
  Ok (items_at B buf offset n ++ skipn n dst).
Proof.
  intros HB Hm Hoff Hn Hmax Hend Hlen.
  assert (Hin : item_in B (Z.of_nat (length buf)) offset) by (split; [lia | nia]).
  destruct (item_in_words _ _ _ HB Hin) as [Ho _].
  destruct (cursor_facts B offset HB ltac:(lia))
    as (Hw64 & Hw32 & Hba & Hsb & Hq & Hdm).
  unfold __PackedArray_unpack_. cbv zeta. rewrite Hw64. mem_step lia.
  set (o := offset * B / 32) in *.
  set (s0 := mkUnpackState o (peek buf o) 0 dst).
  assert (Hinv0 : unpack_inv B buf offset dst true 0 s0).
  { unfold s0. constructor; cbn [us_in us_packed us_out us_dst Z.of_nat];
      rewrite ?Z.add_0_r; auto. }
  pose proof (Z.mod_pos_bound offset 32 ltac:(lia)) as HI.
  pose proof (Z.div_mod offset 32 ltac:(lia)) as HdI.
  set (I := offset mod 32) in *.
  assert (HI0 : (offset + Z.of_nat 0 - I) mod 32 = 0).
  { destruct (divmod32 (offset + Z.of_nat 0 - I) (offset / 32) 0); lia. }
  rewrite (wrap32_small (32 - I)) by lia.
  destruct (Z.geb_spec (Z.of_nat n) (32 - I)) as [Hbulk|Hsmall].
  - rewrite (wrap32_small (Z.of_nat n + I)) by lia.
    set (q := (Z.of_nat n + I) / 32).
    pose proof (Z.mod_pos_bound (Z.of_nat n + I) 32 ltac:(lia)) as Hc'.
    pose proof (Z.div_mod (Z.of_nat n + I) 32 ltac:(lia)) as Hdq. fold q in Hdq.
    assert (Hq1 : 1 <= q < 2 ^ 27) by lia.
    rewrite (to_int32_small q) by lia.
    rewrite wrap32_to_int32, (wrap32_small (32 * q - I)) by lia.
    replace (Z.of_nat n - (32 * q - I)) with ((Z.of_nat n + I) mod 32) by lia.
    rewrite (wrap32_small ((Z.of_nat n + I) mod 32)) by lia.
    set (k1 := Z.to_nat (32 - I)). set (passes := Z.to_nat (q - 1)).
    unfold unpack_batch.
    replace ((0 <=? I) && (I <=? 31)) with true
      by (symmetry; apply andb_true_intro; split; apply Z.leb_le; lia).
    destruct (unpack_cases_correct B buf offset dst None k1 0 k1 I s0
                HB Hoff Hm Hinv0)
      as (s1 & f1 & Hs1 & Hinv1 & Hf1); try reflexivity; try assumption; try lia.
    { assert ((offset + Z.of_nat (0 + k1)) * B <= (offset + Z.of_nat n) * B)
        by (apply Z.mul_le_mono_nonneg_r; lia). lia. }
    fold k1. rewrite Hs1. cbn [bind]. cbn [Nat.add] in Hinv1.
    rewrite (Hf1 eq_refl) in Hinv1.
    assert (Hk1 : (offset + Z.of_nat k1) mod 32 = 0).
    { destruct (divmod32 (offset + Z.of_nat k1) (offset / 32 + 1) 0); lia. }
    destruct (unpack_again_correct B buf offset dst passes k1 s1
                HB Hoff Hm Hinv1 Hk1)
      as [s2 [Hs2 Hinv2]]; try lia.
    { assert ((offset + Z.of_nat (k1 + 32 * passes)) * B <= (offset + Z.of_nat n) * B)
        by (apply Z.mul_le_mono_nonneg_r; lia). lia. }
    fold passes. rewrite Hs2. cbn [bind].
    set (k2 := (k1 + 32 * passes)%nat) in *.
    assert (Hk2 : Z.of_nat k2 = 32 * q - I) by lia.
    assert (Hk2m : (offset + Z.of_nat k2) mod 32 = 0).
    { destruct (divmod32 (offset + Z.of_nat k2) (offset / 32 + q) 0); lia. }
    destruct (Z.eqb_spec ((Z.of_nat n + I) mod 32) 0) as [Hdone|Hmore].
    + assert (Hkn : k2 = n) by lia. clearbody k2. subst k2.
      f_equal. apply Hinv2.
    + set (c := Z.to_nat ((Z.of_nat n + I) mod 32)).
      replace ((Z.of_nat n + I) mod 32) with (Z.of_nat c) by lia.
      assert (Hkc : (k2 + c)%nat = n) by lia.
      destruct (next_word_correct B buf offset dst k2 s2 HB Hoff Hinv2)
        as [s3 [Hs3 Hinv3]].
      { split; [lia|].
        assert ((offset + Z.of_nat k2 + 1) * B <= (offset + Z.of_nat n) * B)
          by (apply Z.mul_le_mono_nonneg_r; lia). lia. }
      rewrite Hs3. cbn [bind].
      rewrite (unpack_finish_correct ndebug B buf offset dst k2 c 0 s3);
        rewrite ?Hkc; try assumption; try lia.
      * reflexivity.
      * rewrite Z.sub_0_r. exact Hk2m.
  - rewrite (unpack_finish_correct ndebug B buf offset dst 0 n I s0);
      cbn [Nat.add]; try assumption; try lia. reflexivity.
Qed.

(** ** The interface: [PackedArray_pack] and [PackedArray_unpack] *)

Lemma with_buffer_wf a b :
  wf_array a -> length b = length (buffer a) -> Forall is_u32 b ->
  wf_array (with_buffer a b).
Proof.
  intros [HB Hc Hl Hm] Hlen Hb. constructor; cbn; try assumption.
  rewrite Hlen. exact Hl.
Qed.

Lemma wf_end_in_buffer a offset n :
  wf_array a -> 0 <= offset -> offset + Z.of_nat n <= count a ->
  (offset + Z.of_nat n) * bitsPerItem a <= 32 * Z.of_nat (length (buffer a)).
Proof.
  intros [HB Hc Hl Hm] Hoff Hend. rewrite Hl.
  pose proof (Z.div_mod (bitsPerItem a * count a + 31) 32 ltac:(lia)).
  pose proof (Z.mod_pos_bound (bitsPerItem a * count a + 31) 32 ltac:(lia)).
  nia.
Qed.

Lemma dispatch_width a :
  wf_array a -> (1 <=? bitsPerItem a) && (bitsPerItem a <=? 32) = true.
Proof.
  intros [HB _ _ _]. apply andb_true_intro. split; apply Z.leb_le; lia.
Qed.

(** [PackedArray_pack] writes the [n >= 1] values into the windows of the
    items [offset], ..., [offset + n - 1]. *)
Lemma pack_correct ndebug a offset input n :
  wf_array a -> 0 <= offset -> (1 <= n)%nat -> offset + Z.of_nat n <= count a ->
  (n <= length input)%nat -> Forall (fits (bitsPerItem a)) (firstn n input) ->
  exists b,
    PackedArray_pack ndebug a offset input (Z.of_nat n) = Ok (with_buffer a b) /\
    length b = length (buffer a) /\ Forall is_u32 b /\
    bits_of b =
    write_items (bitsPerItem a) (bits_of (buffer a)) offset (firstn n input).
Proof.
  intros Hwf Hoff Hn Hend Hlen Hfit. pose proof Hwf as [HB Hc Hl Hm].
  unfold PackedArray_pack. rewrite dispatch_width by exact Hwf.
  destruct (specialised_pack_correct ndebug (bitsPerItem a) (buffer a) offset
              input n) as [b [Hb Hrest]]; try assumption; try lia.
  { apply wf_end_in_buffer; assumption. }
  rewrite Hb. cbn [bind]. exists b. split; [reflexivity | exact Hrest].
Qed.

(** [PackedArray_unpack] reads the [n >= 1] items [offset], ...,
    [offset + n - 1] into the first [n] slots of the output array. *)
Lemma unpack_correct ndebug a offset dst n :
  wf_array a -> 0 <= offset -> (1 <= n)%nat -> offset + Z.of_nat n <= count a ->
  (n <= length dst)%nat ->
  PackedArray_unpack ndebug a offset dst (Z.of_nat n) =
  Ok (items_at (bitsPerItem a) (buffer a) offset n ++ skipn n dst).
Proof.
  intros Hwf Hoff Hn Hend Hlen. pose proof Hwf as [HB Hc Hl Hm].
  unfold PackedArray_unpack. rewrite dispatch_width by exact Hwf.
  apply specialised_unpack_correct; try assumption; try lia.
  apply wf_end_in_buffer; assumption.
Qed.

(** C1: for every width 1..32, every container, every in-bounds offset and
    every count of at least one item, with values that fit the width (the
    documented contract of packing), the specialised per-width pack that
    [PackedArray_pack] dispatches to returns the same buffer, word for
    word, as the generic cursor loop (both as the width-agnostic
    [PackedArray_pack] and as [PackedArray_pack_reference] of the self-test),
    and the specialised unpack returns the same output array as the generic
    unpack. *)
Theorem C1_specialised_equals_generic ndebug a offset input dst n :
  wf_array a -> 0 <= offset -> (1 <= n)%nat -> offset + Z.of_nat n <= count a ->
  (n <= length input)%nat -> Forall (fits (bitsPerItem a)) (firstn n input) ->
  (n <= length dst)%nat ->
  (exists a',
     PackedArray_pack ndebug a offset input (Z.of_nat n) = Ok a' /\
     PackedArray_pack_reference ndebug a offset input (Z.of_nat n) = Ok a' /\
     Generic.PackedArray_pack ndebug a offset input (Z.of_nat n) = Ok a') /\
  (exists out,
     PackedArray_unpack ndebug a offset dst (Z.of_nat n) = Ok out /\
     PackedArray_unpack_reference ndebug a offset dst (Z.of_nat n) = Ok out /\
     Generic.PackedArray_unpack a offset dst (Z.of_nat n) = Ok out).
Proof.
  intros Hwf Hoff Hn Hend Hlen Hfit Hdst.
  assert (Hnz : PACKEDARRAY_ASSERT ndebug (negb (Z.of_nat n =? 0)) = Ok tt).
  { replace (Z.of_nat n =? 0) with false by (symmetry; apply Z.eqb_neq; lia).
    unfold PACKEDARRAY_ASSERT. rewrite orb_true_r. reflexivity. }
  split.
  - destruct (pack_correct ndebug a offset input n)
      as (b1 & Hp1 & Hl1 & Hm1 & Hb1); try assumption.
    destruct (generic_pack_correct ndebug a offset input n)
      as (b2 & Hp2 & Hl2 & Hm2 & Hb2); try assumption; try lia.
    assert (b2 = b1) as ->.
    { apply bits_of_inj; try assumption; congruence. }
    exists (with_buffer a b1). split; [exact Hp1|].
    unfold PackedArray_pack_reference, Generic.PackedArray_pack.
    rewrite Hnz. cbn [bind]. split; exact Hp2.
  - exists (items_at (bitsPerItem a) (buffer a) offset n ++ skipn n dst).
    split; [apply unpack_correct; assumption|].
    unfold PackedArray_unpack_reference, Generic.PackedArray_unpack.
    rewrite Hnz. cbn [bind].
    split; apply generic_unpack_correct; assumption || lia.
Qed.

Lemma list_eq_map_nth (l : list Z) :
  l = map (fun j => nth j l 0) (seq 0 (length l)).
Proof.
  induction l as [|h t IH]; [reflexivity|].
  cbn [length seq map nth]. f_equal.
  rewrite <- seq_shift, map_map. exact IH.
Qed.

(** The items of a buffer that holds written values are those values. *)
Lemma items_at_written B m x offset vs :
  0 <= B -> 0 <= offset -> Forall (fits B) vs ->
  bits_of m = write_items B x offset vs ->
  items_at B m offset (length vs) = vs.
Proof.
  intros HB Hoff Hvs Hm. rewrite (list_eq_map_nth vs) at 2.
  unfold items_at. apply map_ext_in. intros j Hj. apply in_seq in Hj.
  unfold item_at. rewrite Hm.
  apply write_items_same; try assumption. lia.
Qed.

Ltac solve_wf :=
  constructor; cbn; [lia | lia | reflexivity | repeat constructor; unfold is_u32; lia].

Ltac solve_fits :=
  cbn; repeat constructor; unfold fits; cbn; lia.

Lemma C1_specialised_equals_generic_witness :
  (exists a',
     PackedArray_pack false (mkPackedArray 9 4 [0; 0]) 0 [1; 511; 0; 256]
       (Z.of_nat 4) = Ok a' /\
     PackedArray_pack_reference false (mkPackedArray 9 4 [0; 0]) 0
       [1; 511; 0; 256] (Z.of_nat 4) = Ok a' /\
     Generic.PackedArray_pack false (mkPackedArray 9 4 [0; 0]) 0
       [1; 511; 0; 256] (Z.of_nat 4) = Ok a') /\
  (exists out,
     PackedArray_unpack false (mkPackedArray 9 4 [0; 0]) 0 [5; 5; 5; 5]
       (Z.of_nat 4) = Ok out /\
     PackedArray_unpack_reference false (mkPackedArray 9 4 [0; 0]) 0
       [5; 5; 5; 5] (Z.of_nat 4) = Ok out /\
     Generic.PackedArray_unpack (mkPackedArray 9 4 [0; 0]) 0 [5; 5; 5; 5]
       (Z.of_nat 4) = Ok out).
Proof.
  apply (C1_specialised_equals_generic false (mkPackedArray 9 4 [0; 0]) 0
           [1; 511; 0; 256] [5; 5; 5; 5] 4);
    [solve_wf | lia | lia | cbn; lia | cbn; lia | solve_fits | cbn; lia].
Defined.

(** The claim C2 includes ranges of [n = 0] items; there the round trip
    breaks on a defect of the code: the specialised engine consumes an item
    before its first [in == end] test, so [PackedArray_pack] reads an input
    value that does not exist and does not return, in either build (the
    generic engine returns and changes nothing). *)
Lemma C2_round_trip_counterexample :
  ~ (exists a',
       PackedArray_pack false (mkPackedArray 32 1 [0]) 0 [] 0 = Ok a' /\
       PackedArray_unpack false a' 0 [] 0 = Ok []) /\
  PackedArray_pack false (mkPackedArray 32 1 [0]) 0 [] 0 = Err OutOfBounds /\
  PackedArray_pack true (mkPackedArray 32 1 [0]) 0 [] 0 = Err OutOfBounds.
Proof.
  split; [|split; reflexivity].
  intros [a' [Hp _]]. discriminate Hp.
Qed.

(** C2 (the code fails the claim at [n = 0] only, through the defect of
    the specialised engine on requests of no item): for every width 1..32,
    every count, every offset and [n >= 1] with [offset + n <= count], and
    every list of [n] values that fit the width, [PackedArray_pack] followed
    by [PackedArray_unpack] of the same range returns exactly the values (in
    the first [n] slots of the output array, whose other slots are kept). *)
Theorem C2_round_trip ndebug a offset values dst :
  wf_array a -> 0 <= offset -> (1 <= length values)%nat ->
  offset + Z.of_nat (length values) <= count a ->
  Forall (fits (bitsPerItem a)) values ->
  (length values <= length dst)%nat ->
  exists a',
    PackedArray_pack ndebug a offset values (Z.of_nat (length values)) = Ok a' /\
    PackedArray_unpack ndebug a' offset dst (Z.of_nat (length values)) =
      Ok (values ++ skipn (length values) dst) /\
    (length dst = length values ->
     PackedArray_unpack ndebug a' offset dst (Z.of_nat (length values)) = Ok values).
Proof.
  intros Hwf Hoff Hn Hend Hfit Hdst. pose proof Hwf as [HB Hc Hl Hm].
  destruct (pack_correct ndebug a offset values (length values))
    as (b & Hp & Hlb & Hmb & Hb); try assumption; try lia.
  { rewrite firstn_all. exact Hfit. }
  rewrite firstn_all in Hb.
  exists (with_buffer a b). split; [exact Hp|].
  assert (Hu : PackedArray_unpack ndebug (with_buffer a b) offset dst
                 (Z.of_nat (length values)) =
               Ok (values ++ skipn (length values) dst)).
  { rewrite unpack_correct; try assumption.
    - cbn [with_buffer bitsPerItem buffer].
      rewrite (items_at_written (bitsPerItem a) b _ offset values
                 ltac:(lia) Hoff Hfit Hb). reflexivity.
    - apply with_buffer_wf; assumption. }
  split; [exact Hu|]. intros Hsame. rewrite Hu, <- Hsame, skipn_all, app_nil_r.
  reflexivity.
Qed.

Lemma C2_round_trip_witness :
  exists a',
    PackedArray_pack false (mkPackedArray 9 4 [0; 0]) 0 [1; 511; 0; 256]
      (Z.of_nat (length [1; 511; 0; 256])) = Ok a' /\
    PackedArray_unpack false a' 0 [5; 5; 5; 5]
      (Z.of_nat (length [1; 511; 0; 256])) =
      Ok ([1; 511; 0; 256] ++ skipn (length [1; 511; 0; 256]) [5; 5; 5; 5]) /\
    (length [5; 5; 5; 5] = length [1; 511; 0; 256] ->
     PackedArray_unpack false a' 0 [5; 5; 5; 5]
       (Z.of_nat (length [1; 511; 0; 256])) = Ok [1; 511; 0; 256]).
Proof.
  apply (C2_round_trip false (mkPackedArray 9 4 [0; 0]) 0 [1; 511; 0; 256]
           [5; 5; 5; 5]);
    [solve_wf | lia | cbn; lia | cbn; lia | solve_fits | cbn; lia].
Defined.

Lemma buffer_bit_bits_of a k :
  Forall is_u32 (buffer a) -> 0 <= k ->
  buffer_bit a k = Z.testbit (bits_of (buffer a)) k.
Proof. intros Hm Hk. unfold buffer_bit. rewrite bits_of_testbit; auto. Qed.

(** What a write of the items [offset], ..., [offset + n - 1] leaves
    unchanged, from the bit string of the new buffer. *)
Lemma frame_of_write a b offset vs :
  wf_array a -> 0 <= offset -> length b = length (buffer a) -> Forall is_u32 b ->
  Forall (fits (bitsPerItem a)) vs ->
  bits_of b = write_items (bitsPerItem a) (bits_of (buffer a)) offset vs ->
  (forall k, 0 <= k ->
     k < offset * bitsPerItem a \/
     (offset + Z.of_nat (length vs)) * bitsPerItem a <= k ->
     buffer_bit (with_buffer a b) k = buffer_bit a k) /\
  (forall j, 0 <= j < count a ->
     j < offset \/ offset + Z.of_nat (length vs) <= j ->
     PackedArray_get (with_buffer a b) j = PackedArray_get a j).
Proof.
  intros Hwf Hoff Hlen Hb Hvs Hbits. pose proof Hwf as [HB Hc Hl Hm].
  pose proof (with_buffer_wf a b Hwf Hlen Hb) as Hwf'.
  split.
  - intros k Hk Hout.
    rewrite !buffer_bit_bits_of by (cbn; assumption).
    cbn [with_buffer buffer]. rewrite Hbits.
    apply write_items_frame; assumption || lia.
  - intros j Hj Hout.
    rewrite !get_correct by (cbn; assumption).
    cbn [with_buffer bitsPerItem buffer]. f_equal.
    unfold item_at. rewrite Hbits.
    apply write_items_other; assumption || lia.
Qed.

(** C3: a write of item [i] by [PackedArray_set], or of the items
    [offset], ..., [offset + n - 1] by [PackedArray_pack], of values that
    fit the width, leaves every buffer bit outside the windows of the
    written items unchanged, and [PackedArray_get] returns for every item
    outside the written range what it returned before, for every width
    1..32 and every starting buffer. *)
Theorem C3_write_frame ndebug a i v offset input n :
  wf_array a ->
  0 <= i < count a -> fits (bitsPerItem a) v ->
  0 <= offset -> (1 <= n)%nat -> offset + Z.of_nat n <= count a ->
  (n <= length input)%nat -> Forall (fits (bitsPerItem a)) (firstn n input) ->
  (exists a',
     PackedArray_set ndebug a i v = Ok a' /\
     (forall k, 0 <= k ->
        k < i * bitsPerItem a \/ (i + 1) * bitsPerItem a <= k ->
        buffer_bit a' k = buffer_bit a k) /\
     (forall j, 0 <= j < count a -> j <> i ->
        PackedArray_get a' j = PackedArray_get a j)) /\
  (exists a',
     PackedArray_pack ndebug a offset input (Z.of_nat n) = Ok a' /\
     (forall k, 0 <= k ->
        k < offset * bitsPerItem a \/
        (offset + Z.of_nat n) * bitsPerItem a <= k ->
        buffer_bit a' k = buffer_bit a k) /\
     (forall j, 0 <= j < count a ->
        j < offset \/ offset + Z.of_nat n <= j ->
        PackedArray_get a' j = PackedArray_get a j)).
Proof.
  intros Hwf Hi Hv Hoff Hn Hend Hlen Hfit. pose proof Hwf as [HB Hc Hl Hm].
  split.
  - destruct (set_correct ndebug a i v Hwf Hi Hv) as (b & Hs & Hlb & Hmb & Hb).
    exists (with_buffer a b). split; [exact Hs|].
    destruct (frame_of_write a b i [v]) as [Hbit Hget];
      try assumption; try lia.
    { constructor; [exact Hv | constructor]. }
    split.
    + intros k Hk Hout. apply Hbit; [exact Hk|]. cbn [length Z.of_nat]. lia.
    + intros j Hj Hne. apply Hget; [exact Hj|]. cbn [length Z.of_nat]. lia.
  - destruct (pack_correct ndebug a offset input n)
      as (b & Hp & Hlb & Hmb & Hb); try assumption.
    exists (with_buffer a b). split; [exact Hp|].
    destruct (frame_of_write a b offset (firstn n input)) as [Hbit Hget];
      try assumption.
    rewrite length_firstn, Nat.min_l in Hbit, Hget by lia.
    split; assumption.
Qed.

Lemma C3_write_frame_witness :
  (exists a',
     PackedArray_set false (mkPackedArray 9 4 [0; 0]) 3 256 = Ok a' /\
     (forall k, 0 <= k ->
        k < 3 * bitsPerItem (mkPackedArray 9 4 [0; 0]) \/
        (3 + 1) * bitsPerItem (mkPackedArray 9 4 [0; 0]) <= k ->
        buffer_bit a' k = buffer_bit (mkPackedArray 9 4 [0; 0]) k) /\
     (forall j, 0 <= j < count (mkPackedArray 9 4 [0; 0]) -> j <> 3 ->
        PackedArray_get a' j = PackedArray_get (mkPackedArray 9 4 [0; 0]) j)) /\
  (exists a',
     PackedArray_pack false (mkPackedArray 9 4 [0; 0]) 1 [511; 0]
       (Z.of_nat 2) = Ok a' /\
     (forall k, 0 <= k ->
        k < 1 * bitsPerItem (mkPackedArray 9 4 [0; 0]) \/
        (1 + Z.of_nat 2) * bitsPerItem (mkPackedArray 9 4 [0; 0]) <= k ->
        buffer_bit a' k = buffer_bit (mkPackedArray 9 4 [0; 0]) k) /\
     (forall j, 0 <= j < count (mkPackedArray 9 4 [0; 0]) ->
        j < 1 \/ 1 + Z.of_nat 2 <= j ->
        PackedArray_get a' j = PackedArray_get (mkPackedArray 9 4 [0; 0]) j)).
Proof.
  apply (C3_write_frame false (mkPackedArray 9 4 [0; 0]) 3 256 1 [511; 0] 2);
    [solve_wf | cbn; lia | unfold fits; cbn; lia | lia | lia | cbn; lia
    | cbn; lia | solve_fits].
Defined.

(** C4: for every width 1..32, every in-bounds [i] and every value [v]
    that fits the width, [PackedArray_get] after [PackedArray_set] returns
    [v]; [PackedArray_set] leaves the same buffer as [PackedArray_pack] of
    the single value [v] at [i]; and [PackedArray_get] returns the value
    that [PackedArray_unpack] of one item at [i] writes to its output. *)
Theorem C4_set_get_is_pack_unpack_of_one ndebug a i v d0 dst :
  wf_array a -> 0 <= i < count a -> fits (bitsPerItem a) v ->
  exists a',
    PackedArray_set ndebug a i v = Ok a' /\
    PackedArray_get a' i = Ok v /\
    PackedArray_pack ndebug a i [v] 1 = Ok a' /\
    PackedArray_unpack ndebug a' i (d0 :: dst) 1 = Ok (v :: dst) /\
    exists x,
      PackedArray_get a i = Ok x /\
      PackedArray_unpack ndebug a i (d0 :: dst) 1 = Ok (x :: dst).
Proof.
  intros Hwf Hi Hv. pose proof Hwf as [HB Hc Hl Hm].
  destruct (set_correct ndebug a i v Hwf Hi Hv) as (b & Hs & Hlb & Hmb & Hb).
  pose proof (with_buffer_wf a b Hwf Hlb Hmb) as Hwf'.
  assert (Hitem : item_at (bitsPerItem a) b i = v).
  { unfold item_at. rewrite Hb. apply window_write_same; assumption || lia. }
  assert (Hun : forall a0, wf_array a0 -> 0 <= i < count a0 ->
            PackedArray_unpack ndebug a0 i (d0 :: dst) 1 =
            Ok (item_at (bitsPerItem a0) (buffer a0) i :: dst)).
  { intros a0 Hwf0 Hi0.
    change (PackedArray_unpack ndebug a0 i (d0 :: dst) 1)
      with (PackedArray_unpack ndebug a0 i (d0 :: dst) (Z.of_nat 1)).
    rewrite (unpack_correct ndebug a0 i (d0 :: dst) 1 Hwf0);
      cbn [length]; try lia.
    unfold items_at. cbn [seq map app skipn Z.of_nat]. rewrite Z.add_0_r.
    reflexivity. }
  exists (with_buffer a b). split; [exact Hs|].
  split; [rewrite get_correct by (cbn; assumption); cbn; f_equal; exact Hitem|].
  split.
  - destruct (pack_correct ndebug a i [v] 1)
      as (b1 & Hp & Hl1 & Hm1 & Hb1); try assumption; cbn [length]; try lia.
    { constructor; [exact Hv | constructor]. }
    cbn [firstn write_items] in Hb1. cbn [Z.of_nat Pos.of_succ_nat] in Hp.
    assert (b1 = b) as -> by (apply bits_of_inj; try assumption; congruence).
    exact Hp.
  - split.
    + rewrite Hun by (cbn; assumption). cbn [with_buffer bitsPerItem buffer].
      rewrite Hitem. reflexivity.
    + exists (item_at (bitsPerItem a) (buffer a) i).
      split; [apply get_correct; assumption | apply Hun; assumption].
Qed.

Lemma C4_set_get_is_pack_unpack_of_one_witness :
  exists a',
    PackedArray_set false (mkPackedArray 9 4 [0; 0]) 3 256 = Ok a' /\
    PackedArray_get a' 3 = Ok 256 /\
    PackedArray_pack false (mkPackedArray 9 4 [0; 0]) 3 [256] 1 = Ok a' /\
    PackedArray_unpack false a' 3 [7] 1 = Ok [256] /\
    exists x,
      PackedArray_get (mkPackedArray 9 4 [0; 0]) 3 = Ok x /\
      PackedArray_unpack false (mkPackedArray 9 4 [0; 0]) 3 [7] 1 = Ok [x].
Proof.
  apply (C4_set_get_is_pack_unpack_of_one false (mkPackedArray 9 4 [0; 0])
           3 256 7 []); [solve_wf | cbn; lia | unfold fits; cbn; lia].
Defined.

(** ** Requests of no item *)

Lemma with_buffer_same a : with_buffer a (buffer a) = a.
Proof. destruct a. reflexivity. Qed.

(** The generic engine does nothing when asked for no item. *)
Lemma generic_count_zero_noop ndebug a offset input dst :
  wf_array a -> 0 <= offset < count a ->
  Generic.PackedArray_pack ndebug a offset input 0 = Ok a /\
  Generic.PackedArray_unpack a offset dst 0 = Ok dst.
Proof.
  intros Hwf Hoff. pose proof Hwf as [HB Hc Hl Hm].
  unfold Generic.PackedArray_pack, Generic.PackedArray_unpack. split.
  - destruct (generic_pack_correct ndebug a offset input 0)
      as (b & Hp & Hlb & Hmb & Hb); try assumption; cbn [Z.of_nat]; try lia.
    { constructor. }
    cbn [Z.of_nat] in Hp. rewrite Hp. f_equal.
    cbn [firstn write_items] in Hb.
    rewrite (bits_of_inj b (buffer a)); auto. apply with_buffer_same.
  - change 0 with (Z.of_nat 0) at 1.
    rewrite generic_unpack_correct; try assumption; cbn [Z.of_nat]; try lia.
    reflexivity.
Qed.

Lemma pack_case_advances B I brk input s s' f :
  pack_case B I brk input s = Ok (s', f) ->
  ps_in s' = ps_in s + 1 /\ f = pack_case_break brk s'.
Proof.
  unfold pack_case. destruct s as [out in_ packed buf]. cbn [ps_in].
  destruct (B <=? PACKEDARRAY_IMPL_BITS_AVAILABLE B I).
  - destruct (load input in_) as [v|e]; [|discriminate]. cbn [bind].
    destruct (B =? PACKEDARRAY_IMPL_BITS_AVAILABLE B I).
    + destruct (store buf out _) as [b|e]; [|discriminate]. cbn [bind].
      intros [= <- <-]. split; reflexivity.
    + cbn [bind]. intros [= <- <-]. split; reflexivity.
  - destruct (load input in_) as [v|e]; [|discriminate]. cbn [bind].
    destruct (store buf out _) as [b|e]; [|discriminate]. cbn [bind].
    intros [= <- <-]. split; reflexivity.
Qed.

Lemma pack_cases_overrun B end_ input : forall n I s s',
  end_ < ps_in s \/ (end_ = ps_in s /\ (1 <= n)%nat) ->
  pack_cases B (Some end_) input n I s = Ok s' ->
  end_ < ps_in s'.
Proof.
  induction n as [|n IH]; intros I s s' Hpast.
  - intros [= <-]. lia.
  - cbn [pack_cases].
    destruct (pack_case B I (Some end_) input s) as [[s1 f]|e] eqn:Hc;
      [|discriminate].
    cbn [bind snd fst]. apply pack_case_advances in Hc. destruct Hc as [Hin ->].
    cbn [pack_case_break].
    destruct (Z.eqb_spec (ps_in s1) end_) as [Heq|Hne]; [lia|].
    apply IH. left. lia.
Qed.

Lemma unpack_case_advances B I brk buf s s' f :
  unpack_case B I brk buf s = Ok (s', f) ->
  us_out s' = us_out s + 1 /\
  f = match brk with None => false | Some end_ => us_out s' =? end_ end.
Proof.
  unfold unpack_case. destruct s as [in_ packed out dst]. cbn [us_out].
  destruct (B <=? PACKEDARRAY_IMPL_BITS_AVAILABLE B I).
  - destruct (store dst out _) as [d|e]; [|discriminate]. cbn [bind].
    destruct (match brk with None => false | Some end_ => out + 1 =? end_ end)
      eqn:Hb.
    + intros [= <- <-]. cbn [us_out]. rewrite Hb. split; reflexivity.
    + destruct ((I <? 31) && (B =? PACKEDARRAY_IMPL_BITS_AVAILABLE B I)).
      * destruct (load buf (in_ + 1)); [|discriminate]. cbn [bind].
        intros [= <- <-]. cbn [us_out]. rewrite Hb. split; reflexivity.
      * intros [= <- <-]. cbn [us_out]. rewrite Hb. split; reflexivity.
  - destruct (load buf (in_ + 1)); [|discriminate]. cbn [bind].
    destruct (store dst out _) as [d|e]; [|discriminate]. cbn [bind].
    intros [= <- <-]. cbn [us_out]. split; reflexivity.
Qed.

Lemma unpack_cases_overrun B end_ buf : forall n I s s',
  end_ < us_out s \/ (end_ = us_out s /\ (1 <= n)%nat) ->
  unpack_cases B (Some end_) buf n I s = Ok s' ->
  end_ < us_out s'.
Proof.
  induction n as [|n IH]; intros I s s' Hpast.
  - intros [= <-]. lia.
  - cbn [unpack_cases].
    destruct (unpack_case B I (Some end_) buf s) as [[s1 f]|e] eqn:Hc;
      [|discriminate].
    cbn [bind snd fst]. apply unpack_case_advances in Hc.
    destruct Hc as [Hout ->].
    destruct (Z.eqb_spec (us_out s1) end_) as [Heq|Hne]; [lia|].
    apply IH. left. lia.
Qed.

(** With the assertions compiled in, the specialised path never returns
    from a request of no item: it consumes a value before its first end
    test and fails [PACKEDARRAY_ASSERT(in == end)] (or
    [PACKEDARRAY_ASSERT(out == end)]), unless a memory access faults
    first. *)
Lemma specialised_count_zero_never_returns a offset :
  1 <= bitsPerItem a <= 32 ->
  (forall input a', PackedArray_pack false a offset input 0 <> Ok a') /\
  (forall dst out, PackedArray_unpack false a offset dst 0 <> Ok out).
Proof.
  intros HB.
  assert (Hd : (1 <=? bitsPerItem a) && (bitsPerItem a <=? 32) = true)
    by (apply andb_true_intro; split; apply Z.leb_le; lia).
  pose proof (Z.mod_pos_bound offset 32 ltac:(lia)) as HI.
  assert (Hge : (0 >=? wrap32 (32 - offset mod 32)) = false).
  { rewrite wrap32_small by lia. destruct (Z.geb_spec 0 (32 - offset mod 32)); lia. }
  assert (Hsw : (0 <=? offset mod 32) && (offset mod 32 <=? 31) = true)
    by (apply andb_true_intro; split; apply Z.leb_le; lia).
  split.
  - intros input a'. unfold PackedArray_pack. rewrite Hd.
    unfold __PackedArray_pack_. cbv zeta.
    destruct (load (buffer a) _) as [w|e]; [|discriminate]. cbn [bind].
    rewrite Hge. unfold pack_finish, pack_switch. rewrite Hsw.
    cbn [ps_in]. rewrite Z.add_0_r.
    destruct (pack_cases _ _ _ _ _ _) as [s1|e] eqn:Hc; [|discriminate].
    apply pack_cases_overrun in Hc; [|right; cbn [ps_in]; split; [reflexivity | lia]].
    cbn [bind]. unfold PACKEDARRAY_ASSERT. cbn [orb].
    destruct (Z.eqb_spec (ps_in s1) 0); [lia|]. discriminate.
  - intros dst out. unfold PackedArray_unpack. rewrite Hd.
    unfold __PackedArray_unpack_. cbv zeta.
    destruct (load (buffer a) _) as [w|e]; [|discriminate]. cbn [bind].
    rewrite Hge. unfold unpack_finish, unpack_switch. rewrite Hsw.
    cbn [us_out]. rewrite Z.add_0_r.
    destruct (unpack_cases _ _ _ _ _ _) as [s1|e] eqn:Hc; [|discriminate].
    apply unpack_cases_overrun in Hc; [|right; cbn [us_out]; split; [reflexivity | lia]].
    cbn [bind]. unfold PACKEDARRAY_ASSERT. cbn [orb].
    destruct (Z.eqb_spec (us_out s1) 0); [lia|]. discriminate.
Qed.

(** C5 (the code fails the claim in the specialised path): asked for no
    item of a container of 32 items of 32 bits, at offset 31, the generic
    engine leaves the buffer and the output array as they are, but the
    specialised [PackedArray_pack] stores one input value into item 31 and
    the specialised [PackedArray_unpack] writes item 31 to the output
    array when [NDEBUG] is defined, and both fail their closing assertion
    otherwise. *)
Theorem C5_count_zero_is_not_a_noop :
  Generic.PackedArray_pack true (mkPackedArray 32 32 (repeat 0 32%nat)) 31 [7] 0
    = Ok (mkPackedArray 32 32 (repeat 0 32%nat)) /\
  Generic.PackedArray_pack false (mkPackedArray 32 32 (repeat 0 32%nat)) 31 [7] 0
    = Ok (mkPackedArray 32 32 (repeat 0 32%nat)) /\
  Generic.PackedArray_unpack (mkPackedArray 32 32 (repeat 0 32%nat)) 31 [9] 0
    = Ok [9] /\
  PackedArray_pack true (mkPackedArray 32 32 (repeat 0 32%nat)) 31 [7] 0
    = Ok (mkPackedArray 32 32 (repeat 0 31%nat ++ [7])) /\
  PackedArray_pack false (mkPackedArray 32 32 (repeat 0 32%nat)) 31 [7] 0
    = Err AssertionFailed /\
  PackedArray_unpack true (mkPackedArray 32 32 (repeat 0 32%nat)) 31 [9] 0
    = Ok [0] /\
  PackedArray_unpack false (mkPackedArray 32 32 (repeat 0 32%nat)) 31 [9] 0
    = Err AssertionFailed.
Proof. repeat split; vm_compute; reflexivity. Qed.

(** ** Values read *)

Lemma masked_update_refl B dst : masked_update B dst dst.
Proof. intros j. left. reflexivity. Qed.

Lemma masked_update_trans B d1 d2 d3 :
  masked_update B d1 d2 -> masked_update B d2 d3 -> masked_update B d1 d3.
Proof.
  intros H12 H23 j. destruct (H23 j) as [Heq|Hf]; [|right; exact Hf].
  rewrite Heq. apply H12.
Qed.

Lemma land_ones_fits B x : 0 <= B -> fits B (Z.land x (Z.ones B)).
Proof.
  intros HB. apply bounded_by_bits; [exact HB|]. intros r Hr.
  rewrite Z.land_spec, Z.testbit_ones_nonneg by lia.
  replace (r <? B) with false by (symmetry; apply Z.ltb_ge; lia).
  apply andb_false_r.
Qed.

Lemma store_masked B dst o x dst' :
  store dst o x = Ok dst' -> fits B x -> masked_update B dst dst'.
Proof.
  unfold store. destruct (in_block dst o); [|discriminate].
  intros [= <-] Hx j. rewrite nth_upd.
  destruct (_ && _)%bool; [right; exact Hx | left; reflexivity].
Qed.

Lemma unpack_case_writes B I brk buf s s' f :
  1 <= B <= 32 ->
  unpack_case B I brk buf s = Ok (s', f) ->
  masked_update B (us_dst s) (us_dst s').
Proof.
  intros HB. unfold unpack_case. destruct s as [in_ packed out dst].
  cbn [us_dst]. rewrite IMPL_MASK_ones by exact HB.
  destruct (B <=? PACKEDARRAY_IMPL_BITS_AVAILABLE B I).
  - destruct (store dst out _) as [dst1|e] eqn:Hst; [|discriminate].
    apply store_masked with (B := B) in Hst; [|apply land_ones_fits; lia].
    cbn [bind].
    destruct (match brk with None => false | Some end_ => out + 1 =? end_ end).
    + intros [= <- _]. exact Hst.
    + destruct ((I <? 31) && (B =? PACKEDARRAY_IMPL_BITS_AVAILABLE B I)).
      * destruct (load buf (in_ + 1)); [|discriminate].
        cbn [bind]. intros [= <- _]. exact Hst.
      * intros [= <- _]. exact Hst.
  - destruct (load buf (in_ + 1)) as [w|e]; [|discriminate]. cbn [bind].
    destruct (store dst out _) as [dst1|e] eqn:Hst; [|discriminate].
    apply store_masked with (B := B) in Hst; [|apply land_ones_fits; lia].
    cbn [bind]. intros [= <- _]. exact Hst.
Qed.

Lemma unpack_cases_writes B brk buf : forall n I s s',
  1 <= B <= 32 ->
  unpack_cases B brk buf n I s = Ok s' ->
  masked_update B (us_dst s) (us_dst s').
Proof.
  induction n as [|n IH]; intros I s s' HB.
  - intros [= <-]. apply masked_update_refl.
  - cbn [unpack_cases].
    destruct (unpack_case B I brk buf s) as [[s1 f]|e] eqn:Hc; [|discriminate].
    cbn [bind snd fst]. pose proof (unpack_case_writes _ _ _ _ _ _ _ HB Hc) as H1.
    destruct f.
    + intros [= <-]. exact H1.
    + intros H2. apply (masked_update_trans B _ (us_dst s1)); [exact H1|].
      apply (IH _ _ _ HB H2).
Qed.

Lemma next_word_writes buf s s' :
  next_word buf s = Ok s' -> us_dst s' = us_dst s.
Proof.
  unfold next_word. destruct (load buf (us_in s + 1)); [|discriminate].
  cbn [bind]. intros [= <-]. reflexivity.
Qed.

Lemma unpack_again_writes B buf : forall passes s s',
  1 <= B <= 32 ->
  unpack_again B buf passes s = Ok s' ->
  masked_update B (us_dst s) (us_dst s').
Proof.
  induction passes as [|p IH]; intros s s' HB.
  - intros [= <-]. apply masked_update_refl.
  - cbn [unpack_again].
    destruct (next_word buf s) as [s0|e] eqn:H0; [|discriminate]. cbn [bind].
    destruct (unpack_cases B None buf 32 0 s0) as [s1|e] eqn:H1; [|discriminate].
    cbn [bind]. intros H2.
    rewrite <- (next_word_writes _ _ _ H0).
    apply (masked_update_trans B _ (us_dst s1)).
    + apply (unpack_cases_writes _ _ _ _ _ _ _ HB H1).
    + apply (IH _ _ HB H2).
Qed.

Lemma unpack_switch_writes B end_ buf offset s s' :
  1 <= B <= 32 ->
  unpack_switch B end_ buf offset s = Ok s' ->
  masked_update B (us_dst s) (us_dst s').
Proof.
  intros HB. unfold unpack_switch. destruct (_ && _)%bool.
  - apply unpack_cases_writes. exact HB.
  - intros [= <-]. apply masked_update_refl.
Qed.

Lemma unpack_batch_writes B buf offset n s s' :
  1 <= B <= 32 ->
  unpack_batch B buf offset n s = Ok s' ->
  masked_update B (us_dst s) (us_dst s').
Proof.
  intros HB. unfold unpack_batch. destruct (_ && _)%bool.
  - destruct (unpack_cases B None buf _ offset s) as [s1|e] eqn:H1;
      [|discriminate].
    cbn [bind]. intros H2. apply (masked_update_trans B _ (us_dst s1)).
    + apply (unpack_cases_writes _ _ _ _ _ _ _ HB H1).
    + apply (unpack_again_writes _ _ _ _ _ HB H2).
  - intros [= <-]. apply masked_update_refl.
Qed.

Lemma unpack_finish_writes ndebug B buf cnt offset s out :
  1 <= B <= 32 ->
  unpack_finish ndebug B buf cnt offset s = Ok out ->
  masked_update B (us_dst s) out.
Proof.
  intros HB. unfold unpack_finish.
  destruct (unpack_switch B _ buf offset s) as [s1|e] eqn:H1; [|discriminate].
  cbn [bind]. destruct (PACKEDARRAY_ASSERT _ _); [|discriminate].
  cbn [bind]. intros [= <-].
  apply (unpack_switch_writes _ _ _ _ _ _ HB H1).
Qed.

(** Whatever the request, [PackedArray_unpack] only stores values that fit
    the width. *)
Lemma unpack_writes ndebug a offset dst cnt out :
  PackedArray_unpack ndebug a offset dst cnt = Ok out ->
  masked_update (bitsPerItem a) dst out.
Proof.
  unfold PackedArray_unpack.
  destruct ((1 <=? bitsPerItem a) && (bitsPerItem a <=? 32)) eqn:HBb.
  2:{ intros [= <-]. apply masked_update_refl. }
  apply andb_prop in HBb. destruct HBb as [H1 H2].
  apply Z.leb_le in H1. apply Z.leb_le in H2.
  assert (HB : 1 <= bitsPerItem a <= 32) by lia.
  set (B := bitsPerItem a) in *.
  unfold __PackedArray_unpack_. cbv zeta.
  destruct (load (buffer a) _) as [w|e]; [|discriminate]. cbn [bind].
  set (s0 := mkUnpackState _ w 0 dst).
  change dst with (us_dst s0) at 1.
  destruct (cnt >=? wrap32 (32 - offset mod 32)).
  - destruct (unpack_batch B (buffer a) (offset mod 32) _ s0)
      as [s2|e] eqn:Hs2; [|discriminate]. cbn [bind].
    pose proof (unpack_batch_writes _ _ _ _ _ _ HB Hs2) as W12.
    destruct (_ =? 0).
    + intros [= <-]. exact W12.
    + destruct (next_word (buffer a) s2) as [s3|e] eqn:Hs3; [|discriminate].
      cbn [bind]. intros Hf.
      apply (masked_update_trans B _ (us_dst s2)); [exact W12|].
      rewrite <- (next_word_writes _ _ _ Hs3).
      apply (unpack_finish_writes _ _ _ _ _ _ _ HB Hf).
  - apply unpack_finish_writes. exact HB.
Qed.

(** C9: for every container (whatever its words), every width 1..32 and
    every in-bounds offset, [PackedArray_get] returns a value below
    [2^bitsPerItem]; [PackedArray_unpack] of a range of items returns, and
    every value it wrote is below [2^bitsPerItem]; and whatever the
    request, every output slot that [PackedArray_unpack] changed holds a
    value below [2^bitsPerItem]. *)
Theorem C9_values_below_pow2 ndebug a offset dst n :
  wf_array a ->
  0 <= offset -> (1 <= n)%nat -> offset + Z.of_nat n <= count a ->
  (n <= length dst)%nat ->
  (exists v, PackedArray_get a offset = Ok v /\ 0 <= v < 2 ^ bitsPerItem a) /\
  (exists out,
     PackedArray_unpack ndebug a offset dst (Z.of_nat n) = Ok out /\
     forall j, (j < n)%nat -> 0 <= nth j out 0 < 2 ^ bitsPerItem a) /\
  (forall offset' dst' cnt out,
     PackedArray_unpack ndebug a offset' dst' cnt = Ok out ->
     forall j,
       nth j out 0 = nth j dst' 0 \/ 0 <= nth j out 0 < 2 ^ bitsPerItem a).
Proof.
  intros Hwf Hoff Hn Hend Hlen. pose proof Hwf as [HB Hc Hl Hm].
  split; [|split].
  - eexists. split; [apply get_correct; assumption || lia|].
    apply item_at_fits. lia.
  - eexists. split; [apply unpack_correct; assumption|].
    intros j Hj. rewrite app_nth1 by (rewrite items_at_length; exact Hj).
    unfold items_at.
    rewrite (nth_indep _ 0 (item_at (bitsPerItem a) (buffer a) (offset + Z.of_nat 0)))
      by (rewrite length_map, length_seq; exact Hj).
    rewrite (map_nth (fun j => item_at (bitsPerItem a) (buffer a) (offset + Z.of_nat j))).
    apply item_at_fits. lia.
  - intros offset' dst' cnt out Hu j.
    apply (unpack_writes _ _ _ _ _ _ Hu).
Qed.

Lemma C9_values_below_pow2_witness :
  (exists v,
     PackedArray_get (mkPackedArray 9 4 [4294967295; 4294967295]) 3 = Ok v /\
     0 <= v < 2 ^ bitsPerItem (mkPackedArray 9 4 [4294967295; 4294967295])) /\
  (exists out,
     PackedArray_unpack false (mkPackedArray 9 4 [4294967295; 4294967295])
       3 [0] (Z.of_nat 1) = Ok out /\
     forall j, (j < 1)%nat ->
       0 <= nth j out 0 <
       2 ^ bitsPerItem (mkPackedArray 9 4 [4294967295; 4294967295])) /\
  (forall offset' dst' cnt out,
     PackedArray_unpack false (mkPackedArray 9 4 [4294967295; 4294967295])
       offset' dst' cnt = Ok out ->
     forall j,
       nth j out 0 = nth j dst' 0 \/
       0 <= nth j out 0 <
       2 ^ bitsPerItem (mkPackedArray 9 4 [4294967295; 4294967295])).
Proof.
  apply (C9_values_below_pow2 false
           (mkPackedArray 9 4 [4294967295; 4294967295]) 3 [0] 1);
    [solve_wf | lia | lia | cbn; lia | cbn; lia].
Defined.

(** * Further properties *)

(** ** Reads and writes of one item, whatever the count *)

Lemma get_window a i :
  1 <= bitsPerItem a <= 32 -> Forall is_u32 (buffer a) -> 0 <= i < 2 ^ 32 ->
  item_in (bitsPerItem a) (Z.of_nat (length (buffer a))) i ->
  PackedArray_get a i = Ok (item_at (bitsPerItem a) (buffer a) i).
Proof.
  intros HB Hm Hi Hin.
  destruct (item_in_words _ _ _ HB Hin) as [Ho Ho1].
  destruct (cursor_facts (bitsPerItem a) i HB ltac:(lia))
    as (Hw64 & Hw32 & Hba & Hsb & Hq & Hdm).
  unfold PackedArray_get.
  rewrite Hw64, Hw32, Hba, mask_of_ones by assumption.
  set (B := bitsPerItem a) in *. set (o := i * B / 32) in *.
  set (sb := (i * B) mod 32) in *.
  pose proof (peek_u32 (buffer a) o Hm) as Hw0.
  pose proof (peek_u32 (buffer a) (o + 1) Hm) as Hw1.
  destruct (Z.leb_spec B (32 - sb)) as [Hfit|Hover].
  - mem_step lia. f_equal.
    apply (read_window B _ i o sb); try assumption; try lia.
    intros r Hr. bits.
  - do 2 mem_step lia. f_equal.
    apply (read_window B _ i o sb); try assumption; try lia.
    intros r Hr. unfold shl32, wrap32. bits.
Qed.

Lemma load_out m i : ~ (0 <= i < Z.of_nat (length m)) -> load m i = Err OutOfBounds.
Proof.
  intros H. unfold load, in_block.
  destruct (Z.leb_spec 0 i), (Z.ltb_spec i (Z.of_nat (length m)));
    cbn [andb]; try reflexivity. lia.
Qed.

Lemma store_out m i v :
  ~ (0 <= i < Z.of_nat (length m)) -> store m i v = Err OutOfBounds.
Proof.
  intros H. unfold store, in_block.
  destruct (Z.leb_spec 0 i), (Z.ltb_spec i (Z.of_nat (length m)));
    cbn [andb]; try reflexivity. lia.
Qed.

(** X1: [PackedArray_get] has no check of [offset] against [count]: it
    returns the bits of the window of the item whenever that window lies
    in the words of the buffer, and reads outside the buffer otherwise. *)
Theorem X1_get_succeeds_iff_window_in_buffer a i :
  1 <= bitsPerItem a <= 32 -> Forall is_u32 (buffer a) -> 0 <= i < 2 ^ 32 ->
  PackedArray_get a i =
  if (i + 1) * bitsPerItem a <=? 32 * Z.of_nat (length (buffer a))
  then Ok (item_at (bitsPerItem a) (buffer a) i)
  else Err OutOfBounds.
Proof.
  intros HB Hm Hi.
  destruct (Z.leb_spec ((i + 1) * bitsPerItem a)
              (32 * Z.of_nat (length (buffer a)))) as [Hin|Hout].
  - apply get_window; try assumption. split; lia.
  - destruct (cursor_facts (bitsPerItem a) i HB ltac:(lia))
      as (Hw64 & Hw32 & Hba & Hsb & Hq & Hdm).
    unfold PackedArray_get. rewrite Hw64, Hw32, Hba.
    set (B := bitsPerItem a) in *. set (o := i * B / 32) in *.
    set (sb := (i * B) mod 32) in *.
    destruct (Z.leb_spec B (32 - sb)) as [Hfit|Hover].
    + rewrite load_out by lia. reflexivity.
    + destruct (Z.lt_ge_cases o (Z.of_nat (length (buffer a)))).
      * mem_step lia. rewrite load_out by lia. reflexivity.
      * rewrite load_out by lia. reflexivity.
Qed.

Lemma X1_get_succeeds_iff_window_in_buffer_witness :
  PackedArray_get (mkPackedArray 9 4 [0; 256]) 6 =
  if (6 + 1) * bitsPerItem (mkPackedArray 9 4 [0; 256]) <=?
     32 * Z.of_nat (length (buffer (mkPackedArray 9 4 [0; 256])))
  then Ok (item_at (bitsPerItem (mkPackedArray 9 4 [0; 256]))
             (buffer (mkPackedArray 9 4 [0; 256])) 6)
  else Err OutOfBounds.
Proof.
  apply (X1_get_succeeds_iff_window_in_buffer (mkPackedArray 9 4 [0; 256]) 6);
    [cbn; lia | repeat constructor; unfold is_u32; lia | lia].
Defined.

Lemma assert_unfit B v :
  1 <= B <= 32 -> is_u32 v -> ~ fits B v ->
  PACKEDARRAY_ASSERT false (0 =? Z.land (not32 (mask_of B)) v) =
  Err AssertionFailed.
Proof.
  intros HB Hv Hun. rewrite mask_of_ones by exact HB.
  unfold PACKEDARRAY_ASSERT. cbn [orb].
  destruct (Z.eqb_spec 0 (Z.land (not32 (Z.ones B)) v)) as [Hz|]; [|reflexivity].
  exfalso. unfold fits, is_u32 in *.
  assert (Hpos : 0 < v) by (pose proof (Z.pow_pos_nonneg 2 B); lia).
  assert (Hlog : B <= Z.log2 v).
  { apply Z.log2_le_pow2; lia. }
  assert (Hlog32 : Z.log2 v < 32) by (apply Z.log2_lt_pow2; lia).
  assert (Hb := f_equal (fun x => Z.testbit x (Z.log2 v)) Hz). cbv beta in Hb.
  rewrite Z.testbit_0_l, Z.land_spec, (Z.bit_log2 v Hpos), andb_true_r in Hb.
  unfold not32, wrap32 in Hb.
  rewrite Z.mod_pow2_bits_low, Z.lnot_spec, Z.testbit_ones_nonneg in Hb by lia.
  replace (Z.log2 v <? B) with false in Hb by (symmetry; apply Z.ltb_ge; lia).
  discriminate Hb.
Qed.

Lemma assert_ndebug c : PACKEDARRAY_ASSERT true c = Ok tt.
Proof. reflexivity. Qed.

(** The memory accesses of [PackedArray_set] once its assertion is passed. *)
Lemma set_accesses ndebug a i v :
  1 <= bitsPerItem a <= 32 -> 0 <= i < 2 ^ 32 ->
  PACKEDARRAY_ASSERT ndebug
    (0 =? Z.land (not32 (mask_of (bitsPerItem a))) v) = Ok tt ->
  (item_in (bitsPerItem a) (Z.of_nat (length (buffer a))) i /\
   exists b, PackedArray_set ndebug a i v = Ok (with_buffer a b) /\
             length b = length (buffer a)) \/
  (~ item_in (bitsPerItem a) (Z.of_nat (length (buffer a))) i /\
   PackedArray_set ndebug a i v = Err OutOfBounds).
Proof.
  intros HB Hi Hassert.
  destruct (cursor_facts (bitsPerItem a) i HB ltac:(lia))
    as (Hw64 & Hw32 & Hba & Hsb & Hq & Hdm).
  unfold PackedArray_set. rewrite Hassert. cbn [bind].
  rewrite Hw64, Hw32, Hba. unfold item_in.
  set (B := bitsPerItem a) in *. set (o := i * B / 32) in *.
  set (sb := (i * B) mod 32) in *. set (len := Z.of_nat (length (buffer a))).
  destruct (Z.leb_spec B (32 - sb)) as [Hfit|Hover].
  - destruct (Z.lt_ge_cases o len).
    + left. split; [lia|]. do 2 mem_step lia.
      eexists. split; [reflexivity | apply upd_length].
    + right. split; [lia|]. rewrite load_out by lia. reflexivity.
  - destruct (Z.lt_ge_cases (o + 1) len).
    + left. split; [lia|]. do 2 mem_step lia.
      do 2 mem_step ltac:(rewrite upd_length; lia).
      eexists. split; [reflexivity | rewrite !upd_length; reflexivity].
    + right. split; [lia|].
      destruct (Z.lt_ge_cases o len).
      * do 2 mem_step lia. rewrite load_out by (rewrite upd_length; lia).
        reflexivity.
      * rewrite load_out by lia. reflexivity.
Qed.

(** X2: the three outcomes of [PackedArray_set].  A build with assertions
    rejects a value that does not fit the width before it touches the
    buffer; otherwise the call stores inside the buffer exactly when the
    window of the item lies in its words ([count] is not consulted) and
    keeps the width, the count and the number of words; otherwise it
    accesses the buffer out of bounds. *)
Theorem X2_set_outcome ndebug a i v :
  1 <= bitsPerItem a <= 32 -> 0 <= i < 2 ^ 32 -> is_u32 v ->
  match PackedArray_set ndebug a i v with
  | Ok a' =>
      (ndebug = true \/ fits (bitsPerItem a) v) /\
      item_in (bitsPerItem a) (Z.of_nat (length (buffer a))) i /\
      bitsPerItem a' = bitsPerItem a /\ count a' = count a /\
      length (buffer a') = length (buffer a)
  | Err AssertionFailed => ndebug = false /\ ~ fits (bitsPerItem a) v
  | Err OutOfBounds =>
      (ndebug = true \/ fits (bitsPerItem a) v) /\
      ~ item_in (bitsPerItem a) (Z.of_nat (length (buffer a))) i
  end.
Proof.
  intros HB Hi Hv.
  assert (Hdec : fits (bitsPerItem a) v \/ ~ fits (bitsPerItem a) v).
  { unfold fits. destruct (Z.lt_ge_cases v (2 ^ bitsPerItem a)); [left|right];
      unfold is_u32 in Hv; lia. }
  assert (Hcases :
    (ndebug = false /\ ~ fits (bitsPerItem a) v) \/
    ((ndebug = true \/ fits (bitsPerItem a) v) /\
     PACKEDARRAY_ASSERT ndebug
       (0 =? Z.land (not32 (mask_of (bitsPerItem a))) v) = Ok tt)).
  { destruct ndebug; [right; split; [left|]; reflexivity|].
    destruct Hdec as [Hf|Hf]; [right|left; split; [reflexivity|exact Hf]].
    split; [right; exact Hf | apply assert_fits; assumption]. }
  destruct Hcases as [[-> Hun]|[Hpass Hassert]].
  - unfold PackedArray_set. rewrite assert_unfit by assumption.
    cbn [bind]. split; [reflexivity | exact Hun].
  - destruct (set_accesses ndebug a i v HB Hi Hassert)
      as [[Hin [b [-> Hlen]]]|[Hout ->]].
    + cbn [with_buffer bitsPerItem count buffer]. auto.
    + split; assumption.
Qed.

Lemma X2_set_outcome_witness :
  match PackedArray_set false (mkPackedArray 9 4 [0; 0]) 3 512 with
  | Ok a' =>
      (false = true \/ fits (bitsPerItem (mkPackedArray 9 4 [0; 0])) 512) /\
      item_in (bitsPerItem (mkPackedArray 9 4 [0; 0]))
        (Z.of_nat (length (buffer (mkPackedArray 9 4 [0; 0])))) 3 /\
      bitsPerItem a' = bitsPerItem (mkPackedArray 9 4 [0; 0]) /\
      count a' = count (mkPackedArray 9 4 [0; 0]) /\
      length (buffer a') = length (buffer (mkPackedArray 9 4 [0; 0]))
  | Err AssertionFailed =>
      false = false /\ ~ fits (bitsPerItem (mkPackedArray 9 4 [0; 0])) 512
  | Err OutOfBounds =>
      (false = true \/ fits (bitsPerItem (mkPackedArray 9 4 [0; 0])) 512) /\
      ~ item_in (bitsPerItem (mkPackedArray 9 4 [0; 0]))
          (Z.of_nat (length (buffer (mkPackedArray 9 4 [0; 0])))) 3
  end.
Proof.
  apply (X2_set_outcome false (mkPackedArray 9 4 [0; 0]) 3 512);
    [cbn; lia | lia | unfold is_u32; lia].
Defined.

(** ** Algebra of window writes *)

Lemma write_item_overwrite B x i v w :
  0 <= B -> 0 <= i -> fits B v -> fits B w ->
  write_item B (write_item B x i v) i w = write_item B x i w.
Proof.
  intros HB Hi Hv Hw. apply Z.bits_inj'. intros k Hk.
  rewrite !write_item_testbit by assumption.
  destruct ((i * B <=? k) && (k <? i * B + B)); reflexivity.
Qed.

Lemma write_item_commute B x i j v w :
  0 <= B -> 0 <= i -> 0 <= j -> i <> j -> fits B v -> fits B w ->
  write_item B (write_item B x i v) j w = write_item B (write_item B x j w) i v.
Proof.
  intros HB Hi Hj Hne Hv Hw. apply Z.bits_inj'. intros k Hk.
  rewrite !write_item_testbit by assumption.
  assert (i * B + B <= j * B \/ j * B + B <= i * B) by nia.
  destruct (Z.leb_spec (i * B) k), (Z.ltb_spec k (i * B + B)),
    (Z.leb_spec (j * B) k), (Z.ltb_spec k (j * B + B)); cbn [andb];
    try reflexivity; lia.
Qed.

Lemma write_item_items_commute B x i j vs w :
  0 <= B -> 0 <= j < i -> Forall (fits B) vs -> fits B w ->
  write_item B (write_items B x i vs) j w =
  write_items B (write_item B x j w) i vs.
Proof.
  intros HB Hj Hvs Hw. revert x i Hj.
  induction Hvs as [|v t Hv Ht IH]; intros x i Hj; [reflexivity|].
  cbn [write_items]. rewrite IH by lia. f_equal.
  apply write_item_commute; assumption || lia.
Qed.

Lemma write_items_overwrite B x i vs : forall ws,
  0 <= B -> 0 <= i -> Forall (fits B) vs -> Forall (fits B) ws ->
  length vs = length ws ->
  write_items B (write_items B x i vs) i ws = write_items B x i ws.
Proof.
  intros ws HB Hi Hvs. revert x i Hi ws.
  induction Hvs as [|v t Hv Ht IH]; intros x i Hi [|w ws] Hws Hlen;
    try discriminate; [reflexivity|].
  inversion Hws as [|? ? Hw Hws']; subst.
  cbn [write_items].
  rewrite write_item_items_commute by (assumption || lia).
  rewrite write_item_overwrite by assumption.
  apply IH; try assumption; try lia. simpl in Hlen. lia.
Qed.

(** ** Composition of writes *)

Lemma with_buffer_twice a b b' :
  with_buffer (with_buffer a b) b' = with_buffer a b'.
Proof. reflexivity. Qed.

Lemma same_container a b1 b2 :
  length b1 = length b2 -> Forall is_u32 b1 -> Forall is_u32 b2 ->
  bits_of b1 = bits_of b2 -> with_buffer a b1 = with_buffer a b2.
Proof. intros Hl H1 H2 Hb. f_equal. apply bits_of_inj; assumption. Qed.

(** X3: a second [PackedArray_set] of the same item replaces the first
    (the last write wins), and two [PackedArray_set] of different items
    commute: either order leaves the same buffer. *)
Theorem X3_set_overwrites_and_commutes ndebug a i j u v w :
  wf_array a -> 0 <= i < count a -> 0 <= j < count a -> i <> j ->
  fits (bitsPerItem a) u -> fits (bitsPerItem a) v -> fits (bitsPerItem a) w ->
  (exists a',
     (a1 <- PackedArray_set ndebug a i u ;; PackedArray_set ndebug a1 i v) = Ok a' /\
     PackedArray_set ndebug a i v = Ok a') /\
  (exists a',
     (a1 <- PackedArray_set ndebug a i v ;; PackedArray_set ndebug a1 j w) = Ok a' /\
     (a1 <- PackedArray_set ndebug a j w ;; PackedArray_set ndebug a1 i v) = Ok a').
Proof.
  intros Hwf Hi Hj Hne Hu Hv Hw. pose proof Hwf as [HB Hc Hl Hm].
  destruct (set_correct ndebug a i u Hwf Hi Hu) as (bu & Hsu & Hlu & Hmu & Hbu).
  destruct (set_correct ndebug a i v Hwf Hi Hv) as (bv & Hsv & Hlv & Hmv & Hbv).
  destruct (set_correct ndebug a j w Hwf Hj Hw) as (bw & Hsw & Hlw & Hmw & Hbw).
  pose proof (with_buffer_wf a bu Hwf Hlu Hmu) as Hwfu.
  pose proof (with_buffer_wf a bv Hwf Hlv Hmv) as Hwfv.
  pose proof (with_buffer_wf a bw Hwf Hlw Hmw) as Hwfw.
  destruct (set_correct ndebug (with_buffer a bu) i v Hwfu Hi Hv)
    as (buv & Hsuv & Hluv & Hmuv & Hbuv).
  destruct (set_correct ndebug (with_buffer a bv) j w Hwfv Hj Hw)
    as (bvw & Hsvw & Hlvw & Hmvw & Hbvw).
  destruct (set_correct ndebug (with_buffer a bw) i v Hwfw Hi Hv)
    as (bwv & Hswv & Hlwv & Hmwv & Hbwv).
  cbn [with_buffer bitsPerItem count buffer] in Hsuv, Hluv, Hbuv, Hsvw, Hlvw,
    Hbvw, Hswv, Hlwv, Hbwv.
  split.
  - exists (with_buffer a bv). rewrite Hsu, Hsv. cbn [bind]. rewrite Hsuv.
    split; [|reflexivity]. f_equal. rewrite with_buffer_twice.
    apply same_container; try assumption; try congruence.
    rewrite Hbuv, Hbu, Hbv. apply write_item_overwrite; assumption || lia.
  - exists (with_buffer a bvw). rewrite Hsv, Hsw. cbn [bind].
    rewrite Hsvw, Hswv. split; [reflexivity|]. f_equal.
    rewrite !with_buffer_twice.
    apply same_container; try assumption; try congruence.
    rewrite Hbwv, Hbw, Hbvw, Hbv.
    apply write_item_commute; assumption || lia.
Qed.

Lemma X3_set_overwrites_and_commutes_witness :
  (exists a',
     (a1 <- PackedArray_set false (mkPackedArray 9 4 [0; 0]) 3 7 ;;
      PackedArray_set false a1 3 256) = Ok a' /\
     PackedArray_set false (mkPackedArray 9 4 [0; 0]) 3 256 = Ok a') /\
  (exists a',
     (a1 <- PackedArray_set false (mkPackedArray 9 4 [0; 0]) 3 256 ;;
      PackedArray_set false a1 2 511) = Ok a' /\
     (a1 <- PackedArray_set false (mkPackedArray 9 4 [0; 0]) 2 511 ;;
      PackedArray_set false a1 3 256) = Ok a').
Proof.
  apply (X3_set_overwrites_and_commutes false (mkPackedArray 9 4 [0; 0])
           3 2 7 256 511);
    [solve_wf | cbn; lia | cbn; lia | lia | unfold fits; cbn; lia
    | unfold fits; cbn; lia | unfold fits; cbn; lia].
Defined.

Lemma set_each_correct ndebug vs : forall a i,
  wf_array a -> 0 <= i -> i + Z.of_nat (length vs) <= count a ->
  Forall (fits (bitsPerItem a)) vs ->
  exists b,
    set_each ndebug a i vs = Ok (with_buffer a b) /\
    length b = length (buffer a) /\ Forall is_u32 b /\
    bits_of b = write_items (bitsPerItem a) (bits_of (buffer a)) i vs.
Proof.
  induction vs as [|v t IH]; intros a i Hwf Hi Hend Hfit.
  - exists (buffer a). cbn [set_each write_items].
    rewrite with_buffer_same. destruct Hwf. auto.
  - inversion Hfit as [|? ? Hv Ht]; subst. cbn [length] in Hend.
    destruct (set_correct ndebug a i v Hwf ltac:(lia) Hv)
      as (b & Hs & Hlb & Hmb & Hb).
    pose proof (with_buffer_wf a b Hwf Hlb Hmb) as Hwf'.
    destruct (IH (with_buffer a b) (i + 1) Hwf' ltac:(lia)
                ltac:(cbn [with_buffer count]; lia) Ht)
      as (b' & Hs' & Hlb' & Hmb' & Hb').
    cbn [with_buffer bitsPerItem count buffer] in Hs', Hlb', Hb'.
    exists b'. cbn [set_each]. rewrite Hs. cbn [bind]. rewrite Hs'.
    split; [rewrite with_buffer_twice; reflexivity|]. split; [congruence|]. split; [assumption|].
    cbn [write_items]. rewrite Hb', Hb. reflexivity.
Qed.

(** X4: a bulk [PackedArray_pack] leaves the same container as one
    [PackedArray_set] per value, in order. *)
Theorem X4_pack_equals_set_of_each ndebug a offset values :
  wf_array a -> 0 <= offset -> (1 <= length values)%nat ->
  offset + Z.of_nat (length values) <= count a ->
  Forall (fits (bitsPerItem a)) values ->
  exists a',
    PackedArray_pack ndebug a offset values (Z.of_nat (length values)) = Ok a' /\
    set_each ndebug a offset values = Ok a'.
Proof.
  intros Hwf Hoff Hn Hend Hfit.
  destruct (pack_correct ndebug a offset values (length values))
    as (b & Hp & Hlb & Hmb & Hb); try assumption; try lia.
  { rewrite firstn_all. exact Hfit. }
  rewrite firstn_all in Hb.
  destruct (set_each_correct ndebug values a offset Hwf Hoff Hend Hfit)
    as (b' & Hs & Hlb' & Hmb' & Hb').
  exists (with_buffer a b). split; [exact Hp|]. rewrite Hs. f_equal.
  apply same_container; congruence.
Qed.

Lemma X4_pack_equals_set_of_each_witness :
  exists a',
    PackedArray_pack false (mkPackedArray 9 4 [0; 0]) 1 [511; 0; 256]
      (Z.of_nat (length [511; 0; 256])) = Ok a' /\
    set_each false (mkPackedArray 9 4 [0; 0]) 1 [511; 0; 256] = Ok a'.
Proof.
  apply (X4_pack_equals_set_of_each false (mkPackedArray 9 4 [0; 0]) 1
           [511; 0; 256]);
    [solve_wf | lia | cbn; lia | cbn; lia | solve_fits].
Defined.

Lemma get_each_correct a n : forall i,
  wf_array a -> 0 <= i -> i + Z.of_nat n <= count a ->
  get_each a i n = Ok (items_at (bitsPerItem a) (buffer a) i n).
Proof.
  induction n as [|k IH]; intros i Hwf Hi Hend; [reflexivity|].
  cbn [get_each]. rewrite get_correct by (assumption || lia). cbn [bind].
  rewrite IH by (assumption || lia). cbn [bind]. f_equal.
  unfold items_at. cbn [seq map]. rewrite Z.add_0_r. f_equal.
  rewrite <- seq_shift, map_map. apply map_ext. intros j. f_equal. lia.
Qed.

(** X5: a bulk [PackedArray_unpack] of [n] items writes to the first [n]
    slots of the output what one [PackedArray_get] per item returns, and
    leaves the other slots of the output as they were. *)
Theorem X5_unpack_equals_get_of_each ndebug a offset dst n :
  wf_array a -> 0 <= offset -> (1 <= n)%nat -> offset + Z.of_nat n <= count a ->
  (n <= length dst)%nat ->
  exists vs,
    get_each a offset n = Ok vs /\ length vs = n /\
    PackedArray_unpack ndebug a offset dst (Z.of_nat n) = Ok (vs ++ skipn n dst).
Proof.
  intros Hwf Hoff Hn Hend Hlen.
  exists (items_at (bitsPerItem a) (buffer a) offset n).
  split; [apply get_each_correct; assumption|].
  split; [apply items_at_length|].
  apply unpack_correct; assumption.
Qed.

Lemma X5_unpack_equals_get_of_each_witness :
  exists vs,
    get_each (mkPackedArray 9 4 [261633; 8]) 1 2 = Ok vs /\ length vs = 2%nat /\
    PackedArray_unpack false (mkPackedArray 9 4 [261633; 8]) 1 [5; 5; 5]
      (Z.of_nat 2) = Ok (vs ++ skipn 2 [5; 5; 5]).
Proof.
  apply (X5_unpack_equals_get_of_each false (mkPackedArray 9 4 [261633; 8]) 1
           [5; 5; 5] 2);
    [solve_wf | lia | lia | cbn; lia | cbn; lia].
Defined.

(** X6: packing a sequence in one call is packing its two halves one
    after the other, the second where the first stopped. *)
Theorem X6_pack_of_concatenation ndebug a offset vs ws :
  wf_array a -> 0 <= offset -> (1 <= length vs)%nat -> (1 <= length ws)%nat ->
  offset + Z.of_nat (length vs) + Z.of_nat (length ws) <= count a ->
  Forall (fits (bitsPerItem a)) vs -> Forall (fits (bitsPerItem a)) ws ->
  exists a1 a2,
    PackedArray_pack ndebug a offset vs (Z.of_nat (length vs)) = Ok a1 /\
    PackedArray_pack ndebug a1 (offset + Z.of_nat (length vs)) ws
      (Z.of_nat (length ws)) = Ok a2 /\
    PackedArray_pack ndebug a offset (vs ++ ws)
      (Z.of_nat (length (vs ++ ws))) = Ok a2.
Proof.
  intros Hwf Hoff Hn1 Hn2 Hend Hvs Hws.
  destruct (pack_correct ndebug a offset vs (length vs))
    as (b1 & Hp1 & Hl1 & Hm1 & Hb1); try assumption; try lia.
  { rewrite firstn_all. exact Hvs. }
  pose proof (with_buffer_wf a b1 Hwf Hl1 Hm1) as Hwf1.
  destruct (pack_correct ndebug (with_buffer a b1)
              (offset + Z.of_nat (length vs)) ws (length ws))
    as (b2 & Hp2 & Hl2 & Hm2 & Hb2); try assumption; try lia.
  { rewrite firstn_all. exact Hws. }
  destruct (pack_correct ndebug a offset (vs ++ ws) (length (vs ++ ws)))
    as (b & Hp & Hl & Hm & Hb); try assumption; try lia.
  { rewrite length_app. lia. }
  { rewrite length_app. lia. }
  { rewrite firstn_all. apply Forall_app. split; assumption. }
  rewrite !firstn_all in *.
  rewrite with_buffer_twice in Hp2.
  cbn [with_buffer bitsPerItem buffer] in Hl2, Hb2.
  exists (with_buffer a b1), (with_buffer a b2).
  split; [exact Hp1|]. split; [exact Hp2|]. rewrite Hp. f_equal.
  apply same_container; try assumption; try congruence.
  rewrite Hb, write_items_app, Hb2, Hb1. reflexivity.
Qed.

Lemma X6_pack_of_concatenation_witness :
  exists a1 a2,
    PackedArray_pack false (mkPackedArray 9 4 [0; 0]) 0 [1; 511]
      (Z.of_nat (length [1; 511])) = Ok a1 /\
    PackedArray_pack false a1 (0 + Z.of_nat (length [1; 511])) [0; 256]
      (Z.of_nat (length [0; 256])) = Ok a2 /\
    PackedArray_pack false (mkPackedArray 9 4 [0; 0]) 0 ([1; 511] ++ [0; 256])
      (Z.of_nat (length ([1; 511] ++ [0; 256]))) = Ok a2.
Proof.
  apply (X6_pack_of_concatenation false (mkPackedArray 9 4 [0; 0]) 0
           [1; 511] [0; 256]);
    [solve_wf | lia | cbn; lia | cbn; lia | cbn; lia | solve_fits | solve_fits].
Defined.

(** X7: a second [PackedArray_pack] over the same range replaces the first
    (what the buffer held in the range does not matter), and packing the
    same values again changes nothing. *)
Theorem X7_pack_last_write_wins ndebug a offset vs ws :
  wf_array a -> 0 <= offset -> (1 <= length vs)%nat ->
  length ws = length vs ->
  offset + Z.of_nat (length vs) <= count a ->
  Forall (fits (bitsPerItem a)) vs -> Forall (fits (bitsPerItem a)) ws ->
  exists a1 a2,
    PackedArray_pack ndebug a offset vs (Z.of_nat (length vs)) = Ok a1 /\
    PackedArray_pack ndebug a1 offset ws (Z.of_nat (length ws)) = Ok a2 /\
    PackedArray_pack ndebug a offset ws (Z.of_nat (length ws)) = Ok a2 /\
    PackedArray_pack ndebug a2 offset ws (Z.of_nat (length ws)) = Ok a2.
Proof.
  intros Hwf Hoff Hn Hlen Hend Hvs Hws.
  assert (Hp : forall a0 xs, wf_array a0 -> bitsPerItem a0 = bitsPerItem a ->
            count a0 = count a -> length xs = length vs ->
            Forall (fits (bitsPerItem a)) xs ->
            exists b,
              PackedArray_pack ndebug a0 offset xs (Z.of_nat (length xs)) =
                Ok (with_buffer a0 b) /\
              length b = length (buffer a0) /\ Forall is_u32 b /\
              bits_of b =
              write_items (bitsPerItem a) (bits_of (buffer a0)) offset xs).
  { intros a0 xs Hwf0 HB0 Hc0 Hlx Hxs.
    destruct (pack_correct ndebug a0 offset xs (length xs))
      as (b & Hp & Hl & Hm & Hb); try assumption; try lia.
    { rewrite firstn_all, HB0. exact Hxs. }
    rewrite firstn_all, HB0 in Hb. exists b. auto. }
  destruct (Hp a vs Hwf eq_refl eq_refl eq_refl Hvs)
    as (b1 & Hp1 & Hl1 & Hm1 & Hb1).
  pose proof (with_buffer_wf a b1 Hwf Hl1 Hm1) as Hwf1.
  destruct (Hp (with_buffer a b1) ws Hwf1 eq_refl eq_refl Hlen Hws)
    as (b2 & Hp2 & Hl2 & Hm2 & Hb2).
  destruct (Hp a ws Hwf eq_refl eq_refl Hlen Hws)
    as (b3 & Hp3 & Hl3 & Hm3 & Hb3).
  pose proof (with_buffer_wf a b3 Hwf Hl3 Hm3) as Hwf3.
  destruct (Hp (with_buffer a b3) ws Hwf3 eq_refl eq_refl Hlen Hws)
    as (b4 & Hp4 & Hl4 & Hm4 & Hb4).
  rewrite with_buffer_twice in Hp2, Hp4.
  cbn [with_buffer buffer] in Hl2, Hb2, Hl4, Hb4.
  assert (HB : 0 <= bitsPerItem a) by (destruct Hwf; lia).
  assert (E2 : with_buffer a b2 = with_buffer a b3).
  { apply same_container; try assumption; try congruence.
    rewrite Hb2, Hb1, Hb3.
    apply write_items_overwrite; try assumption. congruence. }
  assert (E4 : with_buffer a b4 = with_buffer a b3).
  { apply same_container; try assumption; try congruence.
    rewrite Hb4, Hb3.
    apply write_items_overwrite; try assumption. reflexivity. }
  exists (with_buffer a b1), (with_buffer a b3).
  split; [exact Hp1|]. split; [rewrite Hp2, E2; reflexivity|].
  split; [exact Hp3|]. rewrite Hp4, E4. reflexivity.
Qed.

Lemma X7_pack_last_write_wins_witness :
  exists a1 a2,
    PackedArray_pack false (mkPackedArray 9 4 [0; 0]) 1 [7; 7; 7]
      (Z.of_nat (length [7; 7; 7])) = Ok a1 /\
    PackedArray_pack false a1 1 [511; 0; 256]
      (Z.of_nat (length [511; 0; 256])) = Ok a2 /\
    PackedArray_pack false (mkPackedArray 9 4 [0; 0]) 1 [511; 0; 256]
      (Z.of_nat (length [511; 0; 256])) = Ok a2 /\
    PackedArray_pack false a2 1 [511; 0; 256]
      (Z.of_nat (length [511; 0; 256])) = Ok a2.
Proof.
  apply (X7_pack_last_write_wins false (mkPackedArray 9 4 [0; 0]) 1
           [7; 7; 7] [511; 0; 256]);
    [solve_wf | lia | cbn; lia | reflexivity | cbn; lia | solve_fits
    | solve_fits].
Defined.

(** X8: after a bulk [PackedArray_pack], [PackedArray_get] of an item of
    the range returns the value packed for it. *)
Theorem X8_get_after_pack ndebug a offset values j :
  wf_array a -> 0 <= offset ->
  offset + Z.of_nat (length values) <= count a ->
  Forall (fits (bitsPerItem a)) values -> (j < length values)%nat ->
  exists a',
    PackedArray_pack ndebug a offset values (Z.of_nat (length values)) = Ok a' /\
    PackedArray_get a' (offset + Z.of_nat j) = Ok (nth j values 0).
Proof.
  intros Hwf Hoff Hend Hfit Hj. pose proof Hwf as [HB Hc Hl Hm].
  destruct (pack_correct ndebug a offset values (length values))
    as (b & Hp & Hlb & Hmb & Hb); try assumption; try lia.
  { rewrite firstn_all. exact Hfit. }
  rewrite firstn_all in Hb.
  exists (with_buffer a b). split; [exact Hp|].
  rewrite get_correct.
  - cbn [with_buffer bitsPerItem buffer]. f_equal. unfold item_at.
    rewrite Hb. apply write_items_same; assumption || lia.
  - apply with_buffer_wf; assumption.
  - unfold with_buffer. cbn [count]. lia.
Qed.

Lemma X8_get_after_pack_witness :
  exists a',
    PackedArray_pack false (mkPackedArray 9 4 [0; 0]) 1 [511; 0; 256]
      (Z.of_nat (length [511; 0; 256])) = Ok a' /\
    PackedArray_get a' (1 + Z.of_nat 2) = Ok (nth 2 [511; 0; 256] 0).
Proof.
  apply (X8_get_after_pack false (mkPackedArray 9 4 [0; 0]) 1 [511; 0; 256] 2);
    [solve_wf | lia | cbn; lia | solve_fits | cbn; lia].
Defined.

(** ** The width that values need *)

Lemma maximum_upper l v : In v l -> v <= maximum l.
Proof.
  induction l as [|h t IH]; intros Hin; [destruct Hin|].
  cbn [maximum fold_right]. fold (maximum t).
  destruct Hin as [->|Hin]; [lia|]. apply IH in Hin. lia.
Qed.

Lemma maximum_reached l : maximum l = 0 \/ In (maximum l) l.
Proof.
  induction l as [|h t IH]; [left; reflexivity|].
  cbn [maximum fold_right]. fold (maximum t).
  destruct (Z.max_spec h (maximum t)) as [[_ ->]|[_ ->]].
  - destruct IH as [H0|Hin]; [left; exact H0 | right; right; exact Hin].
  - right. left. reflexivity.
Qed.

Lemma Forall_prefix (P : Z -> Prop) (l : list Z) n :
  Forall P l -> Forall P (firstn n l).
Proof.
  intros H. revert n. induction H as [|h t Hh Ht IH]; intros [|n];
    cbn [firstn]; constructor; auto.
Qed.

Lemma computeBitsPerItem_prefix tc input n :
  Forall is_u32 input -> (n <= length input)%nat ->
  PackedArray_computeBitsPerItem tc input (Z.of_nat n) =
  Ok (if maximum (firstn n input) =? 0 then 1
      else Z.log2 (maximum (firstn n input)) + 1).
Proof.
  intros Hin Hn.
  pose proof (Forall_prefix is_u32 input n Hin) as Hpre.
  pose proof (maximum_u32 _ Hpre) as Hm.
  unfold PackedArray_computeBitsPerItem. rewrite Nat2Z.id.
  change 0 with (Z.of_nat 0) at 1.
  rewrite (scan_max_correct n input 0 0) by (simpl; lia).
  cbn [bind skipn]. rewrite Z.max_r by (unfold is_u32 in Hm; lia).
  rewrite highestBitSet_correct by exact Hm.
  f_equal. destruct (Z.eqb_spec (maximum (firstn n input)) 0) as [H0|H0].
  - reflexivity.
  - assert (0 <= Z.log2 (maximum (firstn n input)) < 32).
    { split; [apply Z.log2_nonneg|].
      unfold is_u32 in Hm. apply Z.log2_lt_pow2; lia. }
    rewrite wrap32_small by lia.
    destruct (Z.eqb_spec (Z.log2 (maximum (firstn n input)) + 1) 0); lia.
Qed.

(** The width read off the maximum is sufficient and minimal. *)
Lemma width_of_maximum l :
  Forall is_u32 l ->
  let B := if maximum l =? 0 then 1 else Z.log2 (maximum l) + 1 in
  1 <= B <= 32 /\ Forall (fits B) l /\
  forall B', 1 <= B' -> Forall (fits B') l -> B <= B'.
Proof.
  intros Hl. cbv zeta.
  pose proof (maximum_u32 l Hl) as Hm. unfold is_u32 in Hm.
  destruct (Z.eqb_spec (maximum l) 0) as [H0|H0].
  - split; [lia|]. split.
    + apply Forall_forall. intros x Hx.
      pose proof (maximum_upper l x Hx).
      pose proof (proj1 (Forall_forall _ _) Hl x Hx) as Hx32.
      unfold is_u32 in Hx32. unfold fits. lia.
    + intros B' HB' _. exact HB'.
  - assert (Hpos : 0 < maximum l) by lia.
    pose proof (Z.log2_spec (maximum l) Hpos) as Hspec.
    pose proof (Z.log2_nonneg (maximum l)).
    assert (Z.log2 (maximum l) < 32) by (apply Z.log2_lt_pow2; lia).
    split; [lia|]. split.
    + apply Forall_forall. intros x Hx.
      pose proof (maximum_upper l x Hx).
      pose proof (proj1 (Forall_forall _ _) Hl x Hx) as Hx32.
      unfold is_u32 in Hx32. unfold fits.
      replace (Z.log2 (maximum l) + 1) with (Z.succ (Z.log2 (maximum l))) by lia.
      lia.
    + intros B' HB' Hfit.
      destruct (maximum_reached l) as [Hz|Hmax]; [lia|].
      pose proof (proj1 (Forall_forall _ _) Hfit _ Hmax) as Hf.
      unfold fits in Hf.
      assert (Z.log2 (maximum l) < B') by (apply Z.log2_lt_pow2; lia).
      lia.
Qed.

(** X9: the width [PackedArray_computeBitsPerItem] returns for the first
    [count] values is between 1 and 32, every one of those values fits it,
    and no smaller width (of at least one bit) holds them all. *)
Theorem X9_computeBitsPerItem_is_least_width tc input n :
  Forall is_u32 input -> (n <= length input)%nat ->
  exists B,
    PackedArray_computeBitsPerItem tc input (Z.of_nat n) = Ok B /\
    1 <= B <= 32 /\
    Forall (fits B) (firstn n input) /\
    forall B', 1 <= B' -> Forall (fits B') (firstn n input) -> B <= B'.
Proof.
  intros Hin Hn. rewrite (computeBitsPerItem_prefix tc input n Hin Hn).
  eexists. split; [reflexivity|].
  apply width_of_maximum. apply Forall_prefix. exact Hin.
Qed.

Lemma X9_computeBitsPerItem_is_least_width_witness :
  exists B,
    PackedArray_computeBitsPerItem Portable [5; 131071; 12; 4294967295]
      (Z.of_nat 3) = Ok B /\
    1 <= B <= 32 /\
    Forall (fits B) (firstn 3 [5; 131071; 12; 4294967295]) /\
    forall B', 1 <= B' ->
      Forall (fits B') (firstn 3 [5; 131071; 12; 4294967295]) -> B <= B'.
Proof.
  apply (X9_computeBitsPerItem_is_least_width Portable
           [5; 131071; 12; 4294967295] 3);
    [repeat constructor; unfold is_u32; lia | cbn; lia].
Defined.

(** ** What a new container holds *)

Lemma peek_map_seq (f : nat -> Z) n i :
  0 <= i < Z.of_nat n -> peek (map f (seq 0 n)) i = f (Z.to_nat i).
Proof.
  intros Hi. unfold peek.
  rewrite (nth_indep _ 0 (f 0%nat)) by (rewrite length_map, length_seq; lia).
  rewrite map_nth, seq_nth by lia. reflexivity.
Qed.

(** X10: for at least one item, [PackedArray_create] returns a container
    with the requested width and count and [ceil(width * count / 32)]
    words, of which it clears the last one only: every other word holds
    what the allocator returned. *)
Theorem X10_create_clears_last_word_only ndebug content B n :
  1 <= B <= 32 -> 1 <= n < 2 ^ 32 ->
  exists a,
    PackedArray_create ndebug (Some content) B n = Ok (Some a) /\
    bitsPerItem a = B /\ count a = n /\ wf_array a /\
    peek (buffer a) (Z.of_nat (length (buffer a)) - 1) = 0 /\
    forall i, 0 <= i < Z.of_nat (length (buffer a)) - 1 ->
      peek (buffer a) i = wrap32 (content i).
Proof.
  intros HB Hn. unfold PackedArray_create.
  destruct (words_no_wrap B n HB ltac:(lia)) as [Hw Hr]. rewrite Hw.
  set (words := (B * n + 31) / 32) in *.
  assert (1 <= words).
  { unfold words. apply Z.div_le_lower_bound; nia. }
  replace (0 <? B) with true by (symmetry; apply Z.ltb_lt; lia).
  replace (B <=? 32) with true by (symmetry; apply Z.leb_le; lia).
  unfold PACKEDARRAY_ASSERT. rewrite !orb_true_r. cbn [bind].
  rewrite (wrap64_small (4 * words)) by lia.
  replace (4 * words / 4) with words
    by (symmetry; rewrite Z.mul_comm; apply Z.div_mul; lia).
  rewrite (wrap64_small (words - 1)) by lia.
  set (block := map _ _).
  assert (Hlen : Z.of_nat (length block) = words).
  { unfold block. rewrite length_map, length_seq. lia. }
  assert (Hblock : Forall is_u32 block).
  { unfold block. apply Forall_forall. intros x Hx.
    apply in_map_iff in Hx. destruct Hx as [i [<- _]]. apply wrap32_range. }
  rewrite store_ok by lia. cbn [bind].
  eexists. split; [reflexivity|]. cbn [bitsPerItem count buffer].
  rewrite upd_length, Hlen.
  split; [reflexivity|]. split; [reflexivity|]. split; [|split].
  - constructor; cbn [bitsPerItem count buffer]; try lia.
    + rewrite upd_length. exact Hlen.
    + apply Forall_upd; [exact Hblock | exact is_u32_0].
  - rewrite peek_upd by lia. rewrite Z.eqb_refl.
    replace (words - 1 <? Z.of_nat (length block)) with true; [reflexivity|].
    symmetry. apply Z.ltb_lt. lia.
  - intros i Hi. rewrite peek_upd by lia.
    replace (i =? words - 1) with false by (symmetry; apply Z.eqb_neq; lia).
    cbn [andb]. unfold block. rewrite peek_map_seq by lia.
    rewrite Z2Nat.id by lia. reflexivity.
Qed.

Lemma X10_create_clears_last_word_only_witness :
  exists a,
    PackedArray_create false (Some (fun i => i + 7)) 9 10 = Ok (Some a) /\
    bitsPerItem a = 9 /\ count a = 10 /\ wf_array a /\
    peek (buffer a) (Z.of_nat (length (buffer a)) - 1) = 0 /\
    forall i, 0 <= i < Z.of_nat (length (buffer a)) - 1 ->
      peek (buffer a) i = wrap32 ((fun i => i + 7) i).
Proof.
  apply (X10_create_clears_last_word_only false (fun i => i + 7) 9 10); lia.
Defined.

(** ** From values to a container and back *)

(** X11: the intended use of the interface.  For any non-empty array of
    32-bit values: with the width [PackedArray_computeBitsPerItem] returns
    for them, [PackedArray_create] makes a container of that many items
    (whatever the allocated memory holds), [PackedArray_pack] stores them
    all and [PackedArray_unpack] returns exactly the values. *)
Theorem X11_compute_create_pack_unpack tc ndebug content values dst :
  Forall is_u32 values ->
  1 <= Z.of_nat (length values) < 2 ^ 32 ->
  length dst = length values ->
  exists B a a',
    PackedArray_computeBitsPerItem tc values (Z.of_nat (length values)) = Ok B /\
    PackedArray_create ndebug (Some content) B (Z.of_nat (length values)) =
      Ok (Some a) /\
    PackedArray_pack ndebug a 0 values (Z.of_nat (length values)) = Ok a' /\
    PackedArray_unpack ndebug a' 0 dst (Z.of_nat (length values)) = Ok values.
Proof.
  intros Hin Hn Hdst.
  pose proof (computeBitsPerItem_prefix tc values (length values) Hin (le_n _))
    as HB.
  rewrite firstn_all in HB.
  destruct (width_of_maximum values Hin) as (HBr & Hfit & _).
  cbv zeta in HBr, Hfit.
  remember (if maximum values =? 0 then 1 else Z.log2 (maximum values) + 1)
    as B eqn:EB.
  clear EB.
  destruct (create_ok ndebug content B (Z.of_nat (length values)) HBr Hn)
    as (a & Ha & HaB & Hac & Hwf & _).
  subst B.
  destruct (pack_correct ndebug a 0 values (length values))
    as (b & Hp & Hlb & Hmb & Hb); try assumption; try lia.
  { rewrite firstn_all. exact Hfit. }
  rewrite firstn_all in Hb.
  exists (bitsPerItem a), a, (with_buffer a b).
  split; [exact HB|]. split; [exact Ha|]. split; [exact Hp|].
  rewrite unpack_correct; try assumption; try lia.
  - cbn [with_buffer bitsPerItem buffer].
    rewrite (items_at_written (bitsPerItem a) b _ 0 values
               ltac:(lia) ltac:(lia) Hfit Hb).
    rewrite <- Hdst, skipn_all, app_nil_r. reflexivity.
  - apply with_buffer_wf; assumption.
  - unfold with_buffer. cbn [count]. lia.
Qed.

Lemma X11_compute_create_pack_unpack_witness :
  exists B a a',
    PackedArray_computeBitsPerItem Portable [5; 131071; 12]
      (Z.of_nat (length [5; 131071; 12])) = Ok B /\
    PackedArray_create false (Some (fun i => i + 7)) B
      (Z.of_nat (length [5; 131071; 12])) = Ok (Some a) /\
    PackedArray_pack false a 0 [5; 131071; 12]
      (Z.of_nat (length [5; 131071; 12])) = Ok a' /\
    PackedArray_unpack false a' 0 [0; 0; 0]
      (Z.of_nat (length [5; 131071; 12])) = Ok [5; 131071; 12].
Proof.
  apply (X11_compute_create_pack_unpack Portable false (fun i => i + 7)
           [5; 131071; 12] [0; 0; 0]);
    [repeat constructor; unfold is_u32; lia | cbn; lia | reflexivity].
Defined.

(** ** Edge cases of the generic engine *)

(** X12: asked for no item, the width-agnostic [PackedArray_pack] and
    [PackedArray_unpack] still load the word under the cursor (and the
    pack stores it back): they leave the container and the output as they
    are when that word exists, and access the buffer out of bounds when it
    does not, as at [offset = count] of a container whose last word is
    full. *)
Theorem X12_generic_count_zero_touches_cursor_word ndebug a offset input dst :
  1 <= bitsPerItem a <= 32 -> 0 <= offset < 2 ^ 32 ->
  Generic.PackedArray_pack ndebug a offset input 0 =
    (if offset * bitsPerItem a / 32 <? Z.of_nat (length (buffer a))
     then Ok a else Err OutOfBounds) /\
  Generic.PackedArray_unpack a offset dst 0 =
    (if offset * bitsPerItem a / 32 <? Z.of_nat (length (buffer a))
     then Ok dst else Err OutOfBounds).
Proof.
  intros HB Hoff.
  destruct (cursor_facts (bitsPerItem a) offset HB Hoff)
    as (Hw64 & Hw32 & Hba & Hsb & Hq & Hdm).
  unfold Generic.PackedArray_pack, Generic.PackedArray_unpack,
    generic_pack, generic_unpack.
  rewrite Hw64. cbn [Z.to_nat pack_loop unpack_loop].
  destruct (Z.ltb_spec (offset * bitsPerItem a / 32)
              (Z.of_nat (length (buffer a)))) as [Hin|Hout].
  - rewrite load_ok by lia. cbn [bind pc_buf pc_out pc_packed uc_dst].
    rewrite store_ok by lia. cbn [bind]. unfold peek. rewrite upd_same.
    rewrite with_buffer_same. split; reflexivity.
  - rewrite load_out by lia. split; reflexivity.
Qed.

Lemma X12_generic_count_zero_touches_cursor_word_witness :
  Generic.PackedArray_pack false (mkPackedArray 32 1 [5]) 1 [] 0 =
    (if 1 * bitsPerItem (mkPackedArray 32 1 [5]) / 32 <?
        Z.of_nat (length (buffer (mkPackedArray 32 1 [5])))
     then Ok (mkPackedArray 32 1 [5]) else Err OutOfBounds) /\
  Generic.PackedArray_unpack (mkPackedArray 32 1 [5]) 1 [] 0 =
    (if 1 * bitsPerItem (mkPackedArray 32 1 [5]) / 32 <?
        Z.of_nat (length (buffer (mkPackedArray 32 1 [5])))
     then Ok [] else Err OutOfBounds).
Proof.
  apply (X12_generic_count_zero_touches_cursor_word false (mkPackedArray 32 1 [5])
           1 [] []); cbn; lia.
Defined.

Lemma generic_pack_loop_rejects B buf0 offset input : forall d n k s,
  1 <= B <= 32 -> 0 <= offset ->
  generic_pack_inv B buf0 offset input k s ->
  (offset + Z.of_nat (k + n)) * B <= 32 * Z.of_nat (length buf0) ->
  (k + n <= length input)%nat -> Forall is_u32 input ->
  (d < n)%nat -> Forall (fits B) (firstn (k + d) input) ->
  ~ fits B (peek input (Z.of_nat (k + d))) ->
  pack_loop false B (mask_of B) input n s = Err AssertionFailed.
Proof.
  induction d as [|d IH]; intros n k s HB Hoff Hinv Hlast Hlen Hin Hd Hpre Hbad;
    (destruct n as [|n]; [lia|]); cbn [pack_loop].
  - rewrite Nat.add_0_r in Hbad.
    destruct Hinv as [Hk _ _ _ _ _ _]. destruct s as [out sb ba packed in_ buf].
    cbn [pc_in] in Hk. subst in_. cbn [pack_iter].
    rewrite load_ok by lia. cbn [bind].
    rewrite assert_unfit; try assumption; [reflexivity|].
    apply peek_u32. exact Hin.
  - assert (Hv : fits B (peek input (Z.of_nat k))).
    { apply (firstn_fits B input (k + S d) k Hpre); lia. }
    destruct (generic_pack_step false B buf0 offset input k s HB Hoff Hinv)
      as [s1 [Hs1 Hinv1]]; try assumption; try lia.
    { split; [lia|]. nia. }
    rewrite Hs1. cbn [bind].
    replace (k + S n)%nat with (S k + n)%nat in * by lia.
    replace (k + S d)%nat with (S k + d)%nat in * by lia.
    apply (IH n (S k)); try assumption. lia.
Qed.

Lemma first_unfit B (input : list Z) : forall k,
  ~ fits B (nth k input 0) ->
  exists d, (d <= k)%nat /\ Forall (fits B) (firstn d input) /\
            ~ fits B (nth d input 0).
Proof.
  induction k as [k IH] using lt_wf_ind. intros Hbad.
  destruct (Forall_dec (fits B)) with (l := firstn k input) as [Hall|Hsome].
  { intros x. unfold fits.
    destruct (Z_le_dec 0 x), (Z_lt_dec x (2 ^ B)); (left; lia) || (right; lia). }
  - exists k. auto.
  - apply neg_Forall_Exists_neg in Hsome.
    2:{ intros x. unfold fits.
        destruct (Z_le_dec 0 x), (Z_lt_dec x (2 ^ B)); (left; lia) || (right; lia). }
    apply Exists_exists in Hsome. destruct Hsome as [x [Hx Hxbad]].
    apply (In_nth _ _ 0) in Hx. destruct Hx as [j [Hj Hnth]].
    rewrite length_firstn in Hj.
    assert (Hjk : (j < k)%nat) by lia.
    assert (Hnth' : nth j input 0 = x).
    { rewrite <- Hnth. rewrite <- (firstn_skipn k input) at 1.
      rewrite app_nth1 by (rewrite length_firstn; lia). reflexivity. }
    destruct (IH j Hjk) as [d [Hd Hrest]]; [rewrite Hnth'; exact Hxbad|].
    exists d. split; [lia | exact Hrest].
Qed.

(** X13: in a build with assertions, the generic pack (the width-agnostic
    [PackedArray_pack] and [PackedArray_pack_reference]) stops on its
    assertion as soon as one of the values to pack does not fit the
    width. *)
Theorem X13_generic_pack_rejects_unfit_value a offset input n k :
  wf_array a -> 0 <= offset < count a -> offset + Z.of_nat n <= count a ->
  (n <= length input)%nat -> Forall is_u32 input ->
  (k < n)%nat -> ~ fits (bitsPerItem a) (nth k input 0) ->
  Generic.PackedArray_pack false a offset input (Z.of_nat n) =
    Err AssertionFailed /\
  PackedArray_pack_reference false a offset input (Z.of_nat n) =
    Err AssertionFailed.
Proof.
  intros Hwf Hoff Hend Hlen Hin Hk Hbad. pose proof Hwf as [HB Hc Hl Hm].
  assert (Hg : generic_pack false a offset input (Z.of_nat n) =
               Err AssertionFailed).
  { destruct (first_unfit _ _ _ Hbad) as (d & Hd & Hpre & Hdbad).
    pose proof (wf_item_in a offset Hwf Hoff) as Hitem.
    destruct (item_in_words _ _ _ HB Hitem) as [Ho _].
    destruct (cursor_facts (bitsPerItem a) offset HB ltac:(lia))
      as (Hw64 & Hw32 & Hba & Hsb & Hq & Hdm).
    unfold generic_pack. rewrite Hw64, Hw32, Hba. mem_step lia.
    rewrite Nat2Z.id.
    rewrite (generic_pack_loop_rejects (bitsPerItem a) (buffer a) offset input
               d n 0%nat); try assumption; try lia; try reflexivity.
    - constructor; cbn [pc_in pc_buf pc_packed pc_out pc_startBit
                          pc_bitsAvailable]; auto with u32.
      + left. rewrite Z.add_0_r. repeat split; reflexivity.
      + cbn [firstn write_items]. unfold peek. rewrite upd_same. reflexivity.
    - cbn [Nat.add]. apply wf_end_in_buffer; assumption || lia.
    - cbn [Nat.add]. unfold peek. rewrite Nat2Z.id. exact Hdbad. }
  split; [exact Hg|].
  unfold PackedArray_pack_reference.
  replace (Z.of_nat n =? 0) with false by (symmetry; apply Z.eqb_neq; lia).
  cbn [negb PACKEDARRAY_ASSERT orb bind]. exact Hg.
Qed.

Lemma X13_generic_pack_rejects_unfit_value_witness :
  Generic.PackedArray_pack false (mkPackedArray 9 4 [0; 0]) 1 [511; 512; 0]
    (Z.of_nat 3) = Err AssertionFailed /\
  PackedArray_pack_reference false (mkPackedArray 9 4 [0; 0]) 1 [511; 512; 0]
    (Z.of_nat 3) = Err AssertionFailed.
Proof.
  apply (X13_generic_pack_rejects_unfit_value (mkPackedArray 9 4 [0; 0]) 1
           [511; 512; 0] 3 1);
    [solve_wf | cbn; lia | cbn; lia | cbn; lia
    | repeat constructor; unfold is_u32; lia | lia
    | unfold fits; cbn; lia].
Defined.

(** ** The specialised pack does not look at the values *)

Lemma alike_bind {A B : Type} (R : A -> A -> Prop) (Q : B -> B -> Prop)
    (c c' : res A) (k k' : A -> res B) :
  alike R c c' -> (forall x y, R x y -> alike Q (k x) (k' y)) ->
  alike Q (bind c k) (bind c' k').
Proof.
  destruct c, c'; cbn [alike bind]; intros H Hk; try contradiction; auto.
Qed.

Lemma load_alike m m' i :
  length m = length m' -> alike (fun _ _ => True) (load m i) (load m' i).
Proof.
  intros Hl. unfold load, in_block. rewrite Hl.
  destruct (_ && _)%bool; cbn [alike]; auto.
Qed.

Lemma store_alike m m' i v v' :
  length m = length m' -> alike same_length (store m i v) (store m' i v').
Proof.
  intros Hl. unfold store, in_block. rewrite Hl.
  destruct (_ && _)%bool; cbn [alike]; auto.
  unfold same_length. rewrite !upd_length. exact Hl.
Qed.

Ltac shape := unfold alike, same_shape, same_length in *;
  cbn [ps_out ps_in ps_buf fst snd] in *; auto.

Lemma pack_case_alike B I brk input input' s s' :
  length input = length input' -> same_shape s s' ->
  alike (fun p p' => same_shape (fst p) (fst p') /\ snd p = snd p')
    (pack_case B I brk input s) (pack_case B I brk input' s').
Proof.
  intros Hin [Ho [Hi Hl]].
  destruct s as [out in_ packed buf], s' as [out' in_' packed' buf'].
  cbn [ps_out ps_in ps_buf] in Ho, Hi, Hl. subst out' in_'.
  unfold pack_case.
  apply (alike_bind same_shape).
  - destruct (B <=? PACKEDARRAY_IMPL_BITS_AVAILABLE B I).
    + apply (alike_bind (fun _ _ => True)); [apply load_alike; exact Hin|].
      intros v v' _.
      destruct (B =? PACKEDARRAY_IMPL_BITS_AVAILABLE B I).
      * apply (alike_bind same_length); [apply store_alike; exact Hl|].
        intros b b' Hb. shape.
      * shape.
    + apply (alike_bind (fun _ _ => True)); [apply load_alike; exact Hin|].
      intros v v' _.
      apply (alike_bind same_length); [apply store_alike; exact Hl|].
      intros b b' Hb. shape.
  - intros x y Hxy. cbn [alike fst snd]. split; [exact Hxy|].
    unfold pack_case_break. destruct brk; [|reflexivity].
    destruct Hxy as [_ [-> _]]. reflexivity.
Qed.

Lemma pack_cases_alike B brk input input' : forall n I s s',
  length input = length input' -> same_shape s s' ->
  alike same_shape (pack_cases B brk input n I s)
    (pack_cases B brk input' n I s').
Proof.
  induction n as [|n IH]; intros I s s' Hin Hs; [exact Hs|].
  cbn [pack_cases].
  apply (alike_bind _ _ _ _ _ _ (pack_case_alike B I brk _ _ _ _ Hin Hs)).
  intros [x f] [y g] [Hxy Hfg]. cbn [fst snd] in *. subst g.
  destruct f; [exact Hxy | apply IH; assumption].
Qed.

Lemma pack_again_alike B input input' : forall passes s s',
  length input = length input' -> same_shape s s' ->
  alike same_shape (pack_again B input passes s)
    (pack_again B input' passes s').
Proof.
  induction passes as [|p IH]; intros s s' Hin Hs; [exact Hs|].
  cbn [pack_again].
  apply (alike_bind _ _ _ _ _ _ (pack_cases_alike B None _ _ 32 0 _ _ Hin Hs)).
  intros x y Hxy. apply IH; assumption.
Qed.

Lemma pack_finish_alike ndebug B input input' cnt offset startBit s s' :
  length input = length input' -> same_shape s s' ->
  alike same_length
    (pack_finish ndebug B input cnt offset startBit s)
    (pack_finish ndebug B input' cnt offset startBit s').
Proof.
  intros Hin Hs. unfold pack_finish.
  pose proof Hs as [Ho [Hi Hl]]. rewrite <- Hi.
  apply (alike_bind same_shape).
  - unfold pack_switch. destruct (_ && _)%bool.
    + apply pack_cases_alike; assumption.
    + exact Hs.
  - intros x y [Hxo [Hxi Hxl]]. rewrite <- Hxi.
    destruct (PACKEDARRAY_ASSERT ndebug _); cbn [bind alike]; [|reflexivity].
    destruct (negb _).
    + rewrite <- Hxo.
      apply (alike_bind (fun _ _ => True)); [apply load_alike; exact Hxl|].
      intros w w' _. apply store_alike. exact Hxl.
    + exact Hxl.
Qed.

Lemma specialised_pack_alike ndebug B buf buf' offset input input' cnt :
  length input = length input' -> length buf = length buf' ->
  alike same_length
    (__PackedArray_pack_ ndebug B buf offset input cnt)
    (__PackedArray_pack_ ndebug B buf' offset input' cnt).
Proof.
  intros Hin Hl. unfold __PackedArray_pack_. cbv zeta.
  apply (alike_bind (fun _ _ => True)); [apply load_alike; exact Hl|].
  intros w w' _.
  set (s := mkPackState _ 0 _ buf). set (s' := mkPackState _ 0 _ buf').
  assert (Hs : same_shape s s') by (subst s s'; shape).
  destruct (cnt >=? wrap32 (32 - offset mod 32)).
  - apply (alike_bind same_shape).
    + unfold pack_batch. destruct (_ && _)%bool; [|exact Hs].
      apply (alike_bind same_shape); [apply pack_cases_alike; assumption|].
      intros x y Hxy. apply pack_again_alike; assumption.
    + intros x y Hxy. destruct (_ =? 0).
      * destruct Hxy as [_ [_ Hxl]]. exact Hxl.
      * apply pack_finish_alike; assumption.
  - apply pack_finish_alike; assumption.
Qed.

Lemma Forall_fits_zeros B (l : list Z) :
  0 <= B -> Forall (fits B) (map (fun _ => 0) l).
Proof.
  intros HB. apply Forall_forall. intros x Hx. apply in_map_iff in Hx.
  destruct Hx as [_ [<- _]]. unfold fits.
  pose proof (Z.pow_pos_nonneg 2 B). lia.
Qed.

(** X14: the specialised [PackedArray_pack] never checks the values it is
    given.  For every request of at least one item inside the container
    it returns, in both builds and for any 32-bit values, those that do
    not fit the width included, with a buffer of the same number of
    words; it touches neither the buffer nor the input out of bounds. *)
Theorem X14_specialised_pack_accepts_any_value ndebug a offset input n :
  wf_array a -> 0 <= offset -> (1 <= n)%nat -> offset + Z.of_nat n <= count a ->
  (n <= length input)%nat ->
  exists a',
    PackedArray_pack ndebug a offset input (Z.of_nat n) = Ok a' /\
    bitsPerItem a' = bitsPerItem a /\ count a' = count a /\
    length (buffer a') = length (buffer a).
Proof.
  intros Hwf Hoff Hn Hend Hlen. pose proof Hwf as [HB Hc Hl Hm].
  set (zeros := map (fun _ : Z => 0) input).
  destruct (pack_correct ndebug a offset zeros n)
    as (b0 & Hp0 & Hl0 & _); try assumption.
  { unfold zeros. rewrite length_map. exact Hlen. }
  { apply Forall_prefix. apply Forall_fits_zeros. lia. }
  unfold PackedArray_pack in *. rewrite dispatch_width in * by exact Hwf.
  pose proof (specialised_pack_alike ndebug (bitsPerItem a) (buffer a)
                (buffer a) offset input zeros (Z.of_nat n)) as Hsim.
  destruct (__PackedArray_pack_ ndebug (bitsPerItem a) (buffer a) offset
              zeros (Z.of_nat n)) as [bz|e]; [|discriminate Hp0].
  cbn [bind] in Hp0.
  assert (Hbz : bz = b0) by (unfold with_buffer in Hp0; congruence).
  destruct (__PackedArray_pack_ ndebug (bitsPerItem a) (buffer a) offset
              input (Z.of_nat n)) as [b|e].
  - cbn [bind]. exists (with_buffer a b). split; [reflexivity|].
    cbn [with_buffer bitsPerItem count buffer].
    split; [reflexivity|]. split; [reflexivity|].
    assert (Hbb : same_length b bz).
    { apply Hsim; [unfold zeros; rewrite length_map|]; reflexivity. }
    unfold same_length in Hbb. congruence.
  - exfalso. apply Hsim; [unfold zeros; rewrite length_map|]; reflexivity.
Qed.

Lemma X14_specialised_pack_accepts_any_value_witness :
  exists a',
    PackedArray_pack false (mkPackedArray 9 4 [0; 0]) 1
      [4294967295; 512; 7] (Z.of_nat 3) = Ok a' /\
    bitsPerItem a' = bitsPerItem (mkPackedArray 9 4 [0; 0]) /\
    count a' = count (mkPackedArray 9 4 [0; 0]) /\
    length (buffer a') = length (buffer (mkPackedArray 9 4 [0; 0])).
Proof.
  apply (X14_specialised_pack_accepts_any_value false (mkPackedArray 9 4 [0; 0])
           1 [4294967295; 512; 7] 3);
    [solve_wf | lia | lia | cbn; lia | cbn; lia].
Defined.

(** ** Bulk access and the count *)

(** X15: [PackedArray_pack] and [PackedArray_unpack] never consult the
    count of the container.  Whatever the count field holds, a range of at
    least one item whose bits lie in the words of the buffer is packed and
    read back, also where it extends past [count]. *)
Theorem X15_bulk_access_ignores_count ndebug a offset values dst :
  1 <= bitsPerItem a <= 32 -> Forall is_u32 (buffer a) ->
  0 <= offset -> (1 <= length values)%nat ->
  offset + Z.of_nat (length values) < 2 ^ 32 ->
  (offset + Z.of_nat (length values)) * bitsPerItem a <=
    32 * Z.of_nat (length (buffer a)) ->
  Forall (fits (bitsPerItem a)) values ->
  (length values <= length dst)%nat ->
  exists a',
    PackedArray_pack ndebug a offset values (Z.of_nat (length values)) = Ok a' /\
    count a' = count a /\
    PackedArray_unpack ndebug a' offset dst (Z.of_nat (length values)) =
      Ok (values ++ skipn (length values) dst).
Proof.
  intros HB Hm Hoff Hn H32 Hin Hfit Hdst.
  assert (Hd : (1 <=? bitsPerItem a) && (bitsPerItem a <=? 32) = true)
    by (apply andb_true_intro; split; apply Z.leb_le; lia).
  destruct (specialised_pack_correct ndebug (bitsPerItem a) (buffer a) offset
              values (length values))
    as (b & Hp & Hlb & Hmb & Hb); try assumption; try lia.
  { rewrite firstn_all. exact Hfit. }
  rewrite firstn_all in Hb.
  exists (with_buffer a b). unfold PackedArray_pack, PackedArray_unpack.
  rewrite Hd, Hp. cbn [bind with_buffer bitsPerItem count buffer].
  split; [reflexivity|]. split; [reflexivity|]. rewrite Hd.
  rewrite specialised_unpack_correct; try assumption; try lia.
  rewrite (items_at_written (bitsPerItem a) b _ offset values
             ltac:(lia) Hoff Hfit Hb).
  reflexivity.
Qed.

Lemma X15_bulk_access_ignores_count_witness :
  exists a',
    PackedArray_pack false (mkPackedArray 9 0 [0; 0]) 5 [511; 256]
      (Z.of_nat (length [511; 256])) = Ok a' /\
    count a' = count (mkPackedArray 9 0 [0; 0]) /\
    PackedArray_unpack false a' 5 [7; 7; 7] (Z.of_nat (length [511; 256])) =
      Ok ([511; 256] ++ skipn (length [511; 256]) [7; 7; 7]).
Proof.
  apply (X15_bulk_access_ignores_count false (mkPackedArray 9 0 [0; 0]) 5
           [511; 256] [7; 7; 7]);
    [cbn; lia | repeat constructor; unfold is_u32; lia | lia | cbn; lia
    | cbn; lia | cbn; lia | solve_fits | cbn; lia].
Defined.

(** ** Reading, then writing back *)

Lemma write_item_own B x i :
  0 <= B -> 0 <= i ->
  write_item B x i (Z.land (Z.shiftr x (i * B)) (Z.ones B)) = x.
Proof.
  intros HB Hi. apply Z.bits_inj'. intros k Hk.
  assert (0 <= i * B) by nia.
  rewrite write_item_testbit by (try assumption; apply land_ones_fits; lia).
  destruct (Z.leb_spec (i * B) k), (Z.ltb_spec k (i * B + B)); cbn [andb];
    try reflexivity.
  rewrite Z.land_spec, Z.shiftr_spec, Z.testbit_ones_nonneg by lia.
  replace (k - i * B <? B) with true by (symmetry; apply Z.ltb_lt; lia).
  rewrite andb_true_r. f_equal. lia.
Qed.

Lemma items_at_cons B m offset n :
  items_at B m offset (S n) =
  item_at B m offset :: items_at B m (offset + 1) n.
Proof.
  unfold items_at. cbn [seq map]. rewrite Z.add_0_r. f_equal.
  rewrite <- seq_shift, map_map. apply map_ext. intros j. f_equal. lia.
Qed.

Lemma write_items_own B m n : forall offset,
  0 <= B -> 0 <= offset ->
  write_items B (bits_of m) offset (items_at B m offset n) = bits_of m.
Proof.
  induction n as [|n IH]; intros offset HB Hoff; [reflexivity|].
  rewrite items_at_cons. cbn [write_items]. unfold item_at at 1.
  rewrite write_item_own by assumption. apply IH; lia.
Qed.

Lemma items_at_fit B m offset n : 0 <= B -> Forall (fits B) (items_at B m offset n).
Proof.
  intros HB. apply Forall_forall. intros x Hx. unfold items_at in Hx.
  apply in_map_iff in Hx. destruct Hx as [j [<- _]]. apply item_at_fits. exact HB.
Qed.

(** X16: the round trip in the other direction.  Packing back the values
    that [PackedArray_unpack] has just read from a range leaves the
    container exactly as it was, whatever its words. *)
Theorem X16_unpack_then_pack_restores ndebug a offset dst n :
  wf_array a -> 0 <= offset -> (1 <= n)%nat -> offset + Z.of_nat n <= count a ->
  (n <= length dst)%nat ->
  exists out,
    PackedArray_unpack ndebug a offset dst (Z.of_nat n) = Ok out /\
    PackedArray_pack ndebug a offset out (Z.of_nat n) = Ok a.
Proof.
  intros Hwf Hoff Hn Hend Hdst. pose proof Hwf as [HB Hc Hl Hm].
  set (vs := items_at (bitsPerItem a) (buffer a) offset n).
  assert (Hlen : length vs = n) by apply items_at_length.
  exists (vs ++ skipn n dst). split; [apply unpack_correct; assumption|].
  assert (Hfirst : firstn n (vs ++ skipn n dst) = vs).
  { rewrite <- Hlen at 1. rewrite firstn_app, firstn_all, Nat.sub_diag.
    cbn [firstn]. apply app_nil_r. }
  destruct (pack_correct ndebug a offset (vs ++ skipn n dst) n)
    as (b & Hp & Hlb & Hmb & Hb); try assumption.
  { rewrite length_app. lia. }
  { rewrite Hfirst. apply items_at_fit. lia. }
  rewrite Hp. f_equal. rewrite Hfirst in Hb. unfold vs in Hb.
  rewrite write_items_own in Hb by lia.
  rewrite (bits_of_inj b (buffer a)); auto. apply with_buffer_same.
Qed.

Lemma X16_unpack_then_pack_restores_witness :
  exists out,
    PackedArray_unpack false (mkPackedArray 9 4 [4294967295; 123456]) 1
      [0; 0; 0] (Z.of_nat 3) = Ok out /\
    PackedArray_pack false (mkPackedArray 9 4 [4294967295; 123456]) 1 out
      (Z.of_nat 3) = Ok (mkPackedArray 9 4 [4294967295; 123456]).
Proof.
  apply (X16_unpack_then_pack_restores false
           (mkPackedArray 9 4 [4294967295; 123456]) 1 [0; 0; 0] 3);
    [solve_wf | lia | lia | cbn; lia | cbn; lia].
Defined.


(** ** The self-test passes *)

Lemma runs_ret {A : Type} (x : A) (P : A -> Prop) : P x -> runs (test_ret x) P.
Proof. intros H st. exists x, st. split; [reflexivity | exact H]. Qed.

Lemma runs_bind {A B : Type} (c : test A) (k : A -> test B)
    (P : A -> Prop) (Q : B -> Prop) :
  runs c P -> (forall x, P x -> runs (k x) Q) -> runs (test_bind c k) Q.
Proof.
  intros Hc Hk st. destruct (Hc st) as (x & st1 & Hx & HP).
  destruct (Hk x HP st1) as (y & st2 & Hy & HQ).
  exists y, st2. unfold test_bind. rewrite Hx. cbn [bind fst snd].
  split; assumption.
Qed.

Lemma runs_weaken {A : Type} (c : test A) (P Q : A -> Prop) :
  runs c P -> (forall x, P x -> Q x) -> runs c Q.
Proof.
  intros Hc HPQ st. destruct (Hc st) as (x & st1 & Hx & HP).
  exists x, st1. auto.
Qed.

Lemma runs_lift {A : Type} (c : res A) (x : A) (P : A -> Prop) :
  c = Ok x -> P x -> runs (lift c) P.
Proof.
  intros -> HP st. exists x, st. split; [reflexivity | exact HP].
Qed.

Lemma runs_assert ndebug c (P : unit -> Prop) :
  c = true -> P tt -> runs (test_assert ndebug c) P.
Proof.
  intros -> HP. apply (runs_lift _ tt); [|exact HP].
  unfold PACKEDARRAY_ASSERT. rewrite orb_true_r. reflexivity.
Qed.

Lemma runs_rand env :
  obliging env -> runs (rand env) (fun r => 0 <= r < 2 ^ 31).
Proof. intros [Hr _] st. eexists _, _. split; [reflexivity | apply Hr]. Qed.

Lemma runs_for_up {V : Type} (P : Z -> V -> Prop) body : forall n i s,
  P i s ->
  (forall j t, i <= j < i + Z.of_nat n -> P j t -> runs (body j t) (P (j + 1))) ->
  runs (@for_up V n i body s) (P (i + Z.of_nat n)).
Proof.
  induction n as [|n IH]; intros i s HP Hbody.
  - cbn [for_up]. apply runs_ret. rewrite Z.add_0_r. exact HP.
  - cbn [for_up]. apply (runs_bind _ _ (P (i + 1))).
    + apply Hbody; [lia | exact HP].
    + intros t Ht. replace (i + Z.of_nat (S n)) with (i + 1 + Z.of_nat n) by lia.
      apply IH; [exact Ht|]. intros j u Hj. apply Hbody. lia.
Qed.

Lemma runs_for {V : Type} (P : Z -> V -> Prop) body lo hi s :
  lo <= hi -> P lo s ->
  (forall j t, lo <= j < hi -> P j t -> runs (body j t) (P (j + 1))) ->
  runs (@for_ V lo hi body s) (P hi).
Proof.
  intros Hle HP Hbody. unfold for_.
  replace hi with (lo + Z.of_nat (Z.to_nat (hi - lo))) at 2 by lia.
  apply runs_for_up; [exact HP|]. intros j t Hj. apply Hbody. lia.
Qed.

Lemma runs_for_down_from {V : Type} (P : V -> Prop) body : forall n i s,
  P s ->
  (forall j t, i - Z.of_nat n < j <= i -> P t -> runs (body j t) P) ->
  runs (@for_down_from V n i body s) P.
Proof.
  induction n as [|n IH]; intros i s HP Hbody.
  - cbn [for_down_from]. apply runs_ret. exact HP.
  - cbn [for_down_from]. apply (runs_bind _ _ P).
    + apply Hbody; [lia | exact HP].
    + intros t Ht. apply IH; [exact Ht|]. intros j u Hj. apply Hbody. lia.
Qed.

Lemma runs_for_down {V : Type} (P : V -> Prop) body hi lo s :
  P s ->
  (forall j t, lo <= j <= hi -> P t -> runs (body j t) P) ->
  runs (@for_down V hi lo body s) P.
Proof.
  intros HP Hbody. unfold for_down.
  apply runs_for_down_from; [exact HP|]. intros j t Hj. apply Hbody. lia.
Qed.

Lemma words_eqb_refl x : words_eqb x x = true.
Proof.
  induction x as [|a x IH]; [reflexivity|].
  cbn [words_eqb]. rewrite Z.eqb_refl, IH. reflexivity.
Qed.

Lemma memcmp_same x n :
  0 <= n <= Z.of_nat (length x) -> memcmp_is_0 x x n = Ok true.
Proof.
  intros Hn. unfold memcmp_is_0.
  replace (n <=? Z.of_nat (length x)) with true by (symmetry; apply Z.leb_le; lia).
  cbn [andb]. rewrite words_eqb_refl. reflexivity.
Qed.

Lemma bufferSize_length a :
  wf_array a -> PackedArray_bufferSize a = Z.of_nat (length (buffer a)).
Proof.
  intros [HB Hc Hl Hm]. unfold PackedArray_bufferSize.
  destruct (words_no_wrap (bitsPerItem a) (count a) HB Hc) as [Hw Hr].
  rewrite Hw, wrap32_small by exact Hr. symmetry. exact Hl.
Qed.

Lemma drawn_fits B r :
  1 <= B <= 32 -> fits B (Z.land (wrap32 r) (mask_of B)).
Proof.
  intros HB. rewrite mask_of_ones by exact HB. apply land_ones_fits. lia.
Qed.

Lemma pack_reference_is_generic a offset input n :
  n <> 0 ->
  PackedArray_pack_reference false a offset input n =
  generic_pack false a offset input n.
Proof.
  intros Hn. unfold PackedArray_pack_reference.
  replace (n =? 0) with false by (symmetry; apply Z.eqb_neq; exact Hn).
  reflexivity.
Qed.

Lemma unpack_reference_is_generic a offset dst n :
  n <> 0 ->
  PackedArray_unpack_reference false a offset dst n =
  generic_unpack a offset dst n.
Proof.
  intros Hn. unfold PackedArray_unpack_reference.
  replace (n =? 0) with false by (symmetry; apply Z.eqb_neq; exact Hn).
  reflexivity.
Qed.

(** Both pack engines, on a container and its twin. *)
Lemma pack_twins ndebug a offset input n :
  wf_array a -> 0 <= offset -> (1 <= n)%nat -> offset + Z.of_nat n <= count a ->
  (n <= length input)%nat -> Forall (fits (bitsPerItem a)) (firstn n input) ->
  exists b,
    PackedArray_pack ndebug a offset input (Z.of_nat n) = Ok (with_buffer a b) /\
    PackedArray_pack_reference false a offset input (Z.of_nat n) =
      Ok (with_buffer a b) /\
    length b = length (buffer a) /\ Forall is_u32 b /\
    bits_of b =
    write_items (bitsPerItem a) (bits_of (buffer a)) offset (firstn n input).
Proof.
  intros Hwf Hoff Hn Hend Hlen Hfit.
  destruct (pack_correct ndebug a offset input n)
    as (b1 & Hp1 & Hl1 & Hm1 & Hb1); try assumption.
  destruct (generic_pack_correct false a offset input n)
    as (b2 & Hp2 & Hl2 & Hm2 & Hb2); try assumption; try lia.
  assert (b2 = b1) as -> by (apply bits_of_inj; try assumption; congruence).
  exists b1. rewrite pack_reference_is_generic by lia. auto.
Qed.

Ltac test_step H := rewrite H; cbn [bind fst snd].

Lemma assert_true_ok ndebug : PACKEDARRAY_ASSERT ndebug true = Ok tt.
Proof. unfold PACKEDARRAY_ASSERT. rewrite orb_true_r. reflexivity. Qed.

Lemma one_by_one_item_runs env ndebug bits cnt i a :
  obliging env -> 1 <= bits <= 32 -> twins bits cnt a -> 0 <= i < cnt ->
  runs (one_by_one_item env ndebug (mask_of bits) i a) (twins bits cnt).
Proof.
  intros Henv HB Ha Hi. destruct a as [a1 a2].
  destruct Ha as (Hwf & Heq & Hbits & Hcnt). cbn [fst snd] in *. subst a2.
  pose proof Hwf as [_ Hc _ _].
  intros st. set (r := rand_result env (rand_calls st)).
  set (v1 := Z.land (wrap32 r) (mask_of bits)).
  assert (Hv : fits (bitsPerItem a1) v1)
    by (rewrite Hbits; apply drawn_fits; exact HB).
  assert (Hwi : wrap32 i = i) by (apply wrap32_small; lia).
  destruct (pack_twins ndebug a1 i [v1] 1)
    as (b & Hp & Hr & Hlb & Hmb & Hb); try assumption; cbn [length]; try lia.
  { constructor; [exact Hv | constructor]. }
  change (Z.of_nat 1) with 1 in Hp, Hr. cbn [firstn write_items] in Hb.
  pose proof (with_buffer_wf a1 b Hwf Hlb Hmb) as Hwf'.
  set (a' := with_buffer a1 b) in *.
  assert (Hi' : 0 <= i < count a') by (unfold a', with_buffer; cbn [count]; lia).
  assert (Hcmp : memcmp_is_0 (buffer a') (buffer a') (PackedArray_bufferSize a')
                 = Ok true).
  { apply memcmp_same. rewrite bufferSize_length by exact Hwf'. lia. }
  assert (Hitem : item_at (bitsPerItem a') (buffer a') i = v1).
  { unfold a', with_buffer, item_at. cbn [bitsPerItem buffer]. rewrite Hb.
    apply window_write_same; try assumption; lia. }
  assert (Hset : PackedArray_set ndebug a' i v1 = Ok a').
  { destruct (set_correct ndebug a' i v1 Hwf' Hi' Hv)
      as (b3 & Hs & Hl3 & Hm3 & Hb3).
    rewrite Hs. f_equal. unfold a'. rewrite with_buffer_twice.
    apply same_container; try assumption.
    rewrite Hb3. unfold a', with_buffer. cbn [bitsPerItem buffer].
    rewrite Hb. apply write_item_overwrite; try assumption; lia. }
  assert (Hun : forall d, PackedArray_unpack ndebug a' i [d] 1 = Ok [v1]).
  { intros d. change 1 with (Z.of_nat 1) at 1.
    rewrite unpack_correct; cbn [length]; try assumption; try lia.
    unfold items_at. cbn [seq map app skipn Z.of_nat]. rewrite Z.add_0_r.
    rewrite Hitem. reflexivity. }
  assert (Hur : forall d,
            PackedArray_unpack_reference false a' i [d] 1 = Ok [v1]).
  { intros d. rewrite unpack_reference_is_generic by lia.
    change 1 with (Z.of_nat 1) at 1.
    rewrite generic_unpack_correct; cbn [length]; try assumption; try lia.
    unfold items_at. cbn [seq map app skipn Z.of_nat]. rewrite Z.add_0_r.
    rewrite Hitem. reflexivity. }
  assert (Hget : PackedArray_get a' i = Ok v1).
  { rewrite get_correct by assumption. rewrite Hitem. reflexivity. }
  exists (a', a'). eexists.
  unfold one_by_one_item, test_bind, lift, rand, test_assert, test_ret.
  cbv zeta. cbn [bind fst snd]. fold r. fold v1. rewrite Hwi.
  test_step Hp. test_step Hr. test_step Hcmp. test_step (assert_true_ok false).
  test_step Hset. test_step Hcmp. test_step (assert_true_ok false).
  test_step (Hun (wrap32 (v1 + 1))).
  change (peek [v1] 0) with v1. rewrite Z.eqb_refl.
  test_step (assert_true_ok false).
  test_step (Hur v1). change (peek [v1] 0) with v1. rewrite Z.eqb_refl.
  test_step (assert_true_ok false).
  test_step Hget. rewrite Z.eqb_refl. test_step (assert_true_ok false).
  split; [reflexivity|].
  unfold twins. cbn [fst snd]. split; [exact Hwf'|]. split; [reflexivity|].
  unfold a', with_buffer. cbn [bitsPerItem count]. split; assumption.
Qed.

Lemma blocks_equal (x y : list Z) :
  length x = length y ->
  (forall k, 0 <= k < Z.of_nat (length x) -> peek x k = peek y k) -> x = y.
Proof.
  intros Hl Hk. apply (nth_ext x y 0 0 Hl). intros n Hn.
  specialize (Hk (Z.of_nat n) ltac:(lia)). unfold peek in Hk.
  rewrite Nat2Z.id in Hk. exact Hk.
Qed.

Lemma container_equal a1 a2 :
  bitsPerItem a1 = bitsPerItem a2 -> count a1 = count a2 ->
  buffer a1 = buffer a2 -> a1 = a2.
Proof. destruct a1, a2. cbn. intros -> -> ->. reflexivity. Qed.

Lemma fill_item_runs env bits cnt j a :
  obliging env -> filled bits cnt j a ->
  0 <= j < (bits * cnt + 31) / 32 ->
  runs (fill_item env j a) (filled bits cnt (j + 1)).
Proof.
  intros Henv (Hwf1 & Hwf2 & Hb1 & Hb2 & Hc1 & Hc2 & Hsame) Hj.
  destruct a as [a1 a2]. cbn [fst snd] in *.
  assert (Hlen1 : Z.of_nat (length (buffer a1)) = (bits * cnt + 31) / 32).
  { destruct Hwf1 as [_ _ Hl1 _]. rewrite Hl1, Hb1, Hc1. reflexivity. }
  assert (Hlen : length (buffer a2) = length (buffer a1)).
  { destruct Hwf1 as [_ _ Hl1 _], Hwf2 as [_ _ Hl2 _].
    apply Nat2Z.inj. rewrite Hl1, Hl2, Hb1, Hb2, Hc1, Hc2. reflexivity. }
  intros st. set (r := rand_result env (rand_calls st)).
  eexists (_, _), _.
  unfold fill_item, test_bind, lift, rand, test_ret. cbn [bind fst snd].
  fold r. rewrite !store_ok by lia. cbn [bind fst snd].
  split; [reflexivity|]. unfold filled. cbn [fst snd].
  pose proof (wrap32_range r) as Hr.
  split; [apply with_buffer_wf; [assumption | apply upd_length
                                 | apply Forall_upd; [apply Hwf1 | exact Hr]]|].
  split; [apply with_buffer_wf; [assumption | apply upd_length
                                 | apply Forall_upd; [apply Hwf2 | exact Hr]]|].
  unfold with_buffer. cbn [bitsPerItem count buffer].
  repeat (split; [assumption|]).
  intros k Hk. rewrite !peek_upd by lia. rewrite Hlen.
  destruct (Z.eqb_spec k j) as [->|Hne]; cbn [andb].
  - replace (j <? Z.of_nat (length (buffer a1))) with true
      by (symmetry; apply Z.ltb_lt; lia).
    reflexivity.
  - apply Hsame. lia.
Qed.

Lemma fill_runs env bits cnt a1 a2 :
  obliging env -> 1 <= bits <= 32 -> 1 <= cnt <= 1024 ->
  wf_array a1 -> wf_array a2 ->
  bitsPerItem a1 = bits -> bitsPerItem a2 = bits ->
  count a1 = cnt -> count a2 = cnt ->
  runs (for_ 0 (to_int32 (PackedArray_bufferSize a1)) (fill_item env) (a1, a2))
    (twins bits cnt).
Proof.
  intros Henv HB Hcnt Hwf1 Hwf2 Hb1 Hb2 Hc1 Hc2.
  assert (Hwords : 0 <= (bits * cnt + 31) / 32 < 1025).
  { assert (0 <= bits * cnt <= 32 * 1024).
    { split; [apply Z.mul_nonneg_nonneg; lia|].
      apply Z.mul_le_mono_nonneg; lia. }
    split; [apply Z.div_pos; lia|].
    apply Z.div_lt_upper_bound; lia. }
  assert (Hsize : to_int32 (PackedArray_bufferSize a1) = (bits * cnt + 31) / 32).
  { rewrite bufferSize_length by exact Hwf1.
    destruct Hwf1 as [_ _ Hl1 _]. rewrite Hl1, Hb1, Hc1.
    apply to_int32_small. lia. }
  rewrite Hsize.
  apply (runs_weaken _ (filled bits cnt ((bits * cnt + 31) / 32))).
  - apply (runs_for (filled bits cnt)); [lia | |].
    + unfold filled. cbn [fst snd]. repeat (split; [assumption|]).
      intros k Hk. lia.
    + intros j t Hj Ht. apply fill_item_runs; assumption.
  - intros [x1 x2] (Hw1 & Hw2 & Hx1 & Hx2 & Hy1 & Hy2 & Hsame).
    cbn [fst snd] in *. unfold twins. cbn [fst snd].
    split; [exact Hw1|]. split; [|split; assumption].
    assert (Hl1 : Z.of_nat (length (buffer x1)) = (bits * cnt + 31) / 32).
    { destruct Hw1 as [_ _ Hl _]. rewrite Hl, Hx1, Hy1. reflexivity. }
    assert (Hl2 : Z.of_nat (length (buffer x2)) = (bits * cnt + 31) / 32).
    { destruct Hw2 as [_ _ Hl _]. rewrite Hl, Hx2, Hy2. reflexivity. }
    apply container_equal; try congruence.
    symmetry. apply blocks_equal; [lia|]. intros k Hk. apply Hsame. lia.
Qed.

Lemma test_create_runs env ndebug bits cnt :
  obliging env -> 1 <= bits <= 32 -> 1 <= cnt < 2 ^ 32 ->
  runs (test_create env ndebug bits cnt)
    (fun p => exists a, p = Some a /\ wf_array a /\
                        bitsPerItem a = bits /\ count a = cnt).
Proof.
  intros [_ Hm] HB Hcnt st. unfold test_create.
  destruct (malloc_result env (malloc_calls st)) as [content|] eqn:Hc;
    [|exfalso; exact (Hm _ Hc)].
  destruct (create_ok ndebug content bits cnt HB Hcnt)
    as (a & Ha & Hb & Hn & Hwf & _).
  rewrite Ha. cbn [bind]. eexists _, _. split; [reflexivity|].
  exists a. auto.
Qed.

Lemma destroy_runs ndebug a (P : unit -> Prop) :
  P tt -> runs (lift (PackedArray_destroy ndebug (Some a))) P.
Proof.
  intros HP. apply (runs_lift _ tt); [|exact HP].
  unfold PackedArray_destroy. apply assert_true_ok.
Qed.

Ltac run_assert :=
  eapply runs_bind;
  [apply (runs_assert _ _ (fun _ => True)); [|exact I] | intros _ _].

Lemma one_by_one_count_runs env ndebug bits cnt :
  obliging env -> 1 <= bits <= 32 -> 1 <= cnt <= 1024 ->
  runs (one_by_one_count env ndebug bits (mask_of bits) cnt tt)
    (fun _ => True).
Proof.
  intros Henv HB Hcnt. unfold one_by_one_count.
  assert (Hw : wrap32 cnt = cnt) by (apply wrap32_small; lia).
  rewrite Hw.
  eapply runs_bind; [apply test_create_runs; assumption || lia|].
  intros p1 (a1 & -> & Hwf1 & Hb1 & Hc1).
  eapply runs_bind; [apply test_create_runs; assumption || lia|].
  intros p2 (a2 & -> & Hwf2 & Hb2 & Hc2).
  eapply runs_bind; [apply (runs_lift _ a1 (fun a => a = a1)); reflexivity|].
  intros ? ->.
  run_assert; [apply Z.eqb_eq; exact Hc1|].
  eapply runs_bind; [apply (runs_lift _ a2 (fun a => a = a2)); reflexivity|].
  intros ? ->.
  run_assert; [apply Z.eqb_eq; exact Hc2|].
  run_assert; [apply Z.eqb_eq; exact Hb1|].
  run_assert; [apply Z.eqb_eq; exact Hb2|].
  run_assert.
  { apply Z.eqb_eq. unfold PackedArray_bufferSize. congruence. }
  eapply runs_bind; [apply (fill_runs env bits cnt); assumption|].
  intros a Ha.
  eapply runs_bind.
  { apply (runs_for (fun _ => twins bits cnt)); [lia | exact Ha|].
    intros j t Hj Ht. apply one_by_one_item_runs; assumption. }
  intros a' Ha'.
  eapply runs_bind.
  { apply (runs_for_down (twins bits cnt)); [exact Ha'|].
    intros j t Hj Ht. apply one_by_one_item_runs; assumption || lia. }
  intros a'' _.
  eapply runs_bind; [apply (destroy_runs _ _ (fun _ => True)); exact I|].
  intros _ _.
  eapply runs_bind; [apply (destroy_runs _ _ (fun _ => True)); exact I|].
  intros _ _. apply runs_ret. exact I.
Qed.

Lemma one_by_one_runs env ndebug :
  obliging env -> runs (one_by_one env ndebug) (fun _ => True).
Proof.
  intros Henv. unfold one_by_one.
  apply (runs_for (fun _ _ => True)); [lia | exact I|].
  intros bits [] Hbits _. cbv zeta.
  apply (runs_for (fun _ _ => True)); [lia | exact I|].
  intros cnt [] Hcnt _.
  apply one_by_one_count_runs; assumption || lia.
Qed.

Lemma firstn_app_exact (l1 l2 : list Z) n :
  length l1 = n -> firstn n (l1 ++ l2) = l1.
Proof.
  intros <-. induction l1 as [|h t IH]; cbn [length firstn app].
  - destruct l2; reflexivity.
  - f_equal. exact IH.
Qed.

Lemma skipn_app_exact (l1 l2 : list Z) n :
  length l1 = n -> skipn n (l1 ++ l2) = l2.
Proof.
  intros <-. induction l1 as [|h t IH]; cbn [length skipn app];
    [reflexivity | exact IH].
Qed.

Lemma memcmp_prefix x y n :
  0 <= n <= Z.of_nat (length x) -> n <= Z.of_nat (length y) ->
  firstn (Z.to_nat n) x = firstn (Z.to_nat n) y ->
  memcmp_is_0 x y n = Ok true.
Proof.
  intros Hx Hy Heq. unfold memcmp_is_0.
  replace (n <=? Z.of_nat (length x)) with true by (symmetry; apply Z.leb_le; lia).
  replace (n <=? Z.of_nat (length y)) with true by (symmetry; apply Z.leb_le; lia).
  cbn [andb]. rewrite Heq, words_eqb_refl. reflexivity.
Qed.

Lemma Forall_fits_u32 B (l : list Z) :
  0 <= B <= 32 -> Forall (fits B) l -> Forall is_u32 l.
Proof.
  intros HB H. apply Forall_forall. intros x Hx.
  apply (fits_u32 B x HB). exact (proj1 (Forall_forall _ _) H x Hx).
Qed.

Lemma width_within tc B (input : list Z) n :
  1 <= B <= 32 -> Forall is_u32 input -> (n <= length input)%nat ->
  Forall (fits B) (firstn n input) ->
  exists w, PackedArray_computeBitsPerItem tc input (Z.of_nat n) = Ok w /\
            (B >=? w) = true.
Proof.
  intros HB Hin Hn Hfit.
  rewrite (computeBitsPerItem_prefix tc input n Hin Hn).
  eexists. split; [reflexivity|].
  destruct (width_of_maximum (firstn n input) (Forall_prefix _ _ n Hin))
    as (_ & _ & Hleast).
  specialize (Hleast B ltac:(lia) Hfit). apply Z.geb_le. exact Hleast.
Qed.

Lemma bulk_item_runs env ndebug tc bits cnt v1 i j s :
  obliging env -> 1 <= bits <= 32 -> 1 <= cnt <= 128 ->
  Z.of_nat (length v1) = cnt -> Forall (fits bits) v1 ->
  0 <= i < cnt -> 1 <= j <= cnt - i ->
  bulk_vars bits cnt s ->
  runs (bulk_item env ndebug tc bits v1 i j s) (bulk_vars bits cnt).
Proof.
  intros Henv HB Hcnt Hl1 Hv1 Hi Hj [Ha [Hl2 Hu2]].
  destruct s as [[a1 a2] v2]. cbn [fst snd] in *.
  destruct Ha as (Hwf & Heq & Hbits & Hc). cbn [fst snd] in *. subst a2.
  set (n := Z.to_nat j).
  assert (Hjn : j = Z.of_nat n) by (unfold n; lia).
  assert (Hwi : wrap32 i = i) by (apply wrap32_small; lia).
  assert (Hwj : wrap32 j = j) by (apply wrap32_small; lia).
  assert (Hpre : Forall (fits (bitsPerItem a1)) (firstn n v1))
    by (rewrite Hbits; apply Forall_prefix; exact Hv1).
  destruct (pack_twins ndebug a1 i v1 n)
    as (b & Hp & Hr & Hlb & Hmb & Hb); try assumption; try lia.
  pose proof (with_buffer_wf a1 b Hwf Hlb Hmb) as Hwf'.
  set (a' := with_buffer a1 b) in *.
  assert (Hcmp : memcmp_is_0 (buffer a') (buffer a') (PackedArray_bufferSize a')
                 = Ok true).
  { apply memcmp_same. rewrite bufferSize_length by exact Hwf'. lia. }
  assert (Hlenpre : length (firstn n v1) = n)
    by (rewrite length_firstn; lia).
  assert (Hitems : items_at (bitsPerItem a') (buffer a') i n = firstn n v1).
  { unfold a', with_buffer. cbn [bitsPerItem buffer].
    rewrite <- Hlenpre at 1.
    apply (items_at_written _ _ (bits_of (buffer a1))); try assumption; lia. }
  set (v2' := firstn n v1 ++ skipn n v2).
  assert (Hun : PackedArray_unpack ndebug a' i v2 j = Ok v2').
  { rewrite Hjn. rewrite unpack_correct; try assumption; try lia.
    - rewrite Hitems. reflexivity.
    - unfold a', with_buffer. cbn [count]. lia. }
  assert (Hlen2' : Z.of_nat (length v2') = cnt).
  { unfold v2'. rewrite length_app, Hlenpre, length_skipn. lia. }
  assert (Hu2' : Forall is_u32 v2').
  { unfold v2'. apply Forall_app. split.
    - apply (Forall_fits_u32 (bitsPerItem a1)); [lia | exact Hpre].
    - apply Forall_forall. intros x Hx.
      apply (proj1 (Forall_forall _ _) Hu2).
      rewrite <- (firstn_skipn n v2). apply in_or_app. right. exact Hx. }
  assert (Hfirst : firstn n v2' = firstn n v1)
    by (apply firstn_app_exact; exact Hlenpre).
  destruct (width_within tc bits v2' n HB Hu2') as (w & Hw & Hge); try lia.
  { rewrite Hfirst, <- Hbits. exact Hpre. }
  assert (Hmem : memcmp_is_0 v1 v2' j = Ok true).
  { apply memcmp_prefix; try lia. fold n. symmetry. exact Hfirst. }
  assert (Hur : PackedArray_unpack_reference false a' i v2' j = Ok v2').
  { rewrite unpack_reference_is_generic by lia. rewrite Hjn.
    rewrite generic_unpack_correct; try assumption; try lia.
    - rewrite Hitems. unfold v2' at 1.
      rewrite skipn_app_exact by exact Hlenpre. reflexivity.
    - unfold a', with_buffer. cbn [count]. lia.
    - unfold a', with_buffer. cbn [count]. lia. }
  intros st. exists (a', a', v2'). eexists.
  unfold bulk_item, test_bind, lift, test_assert, test_ret.
  cbn [bind fst snd]. rewrite Hwi, Hwj.
  rewrite <- Hjn in Hp, Hr, Hw.
  test_step Hp. test_step Hr. test_step Hcmp. test_step (assert_true_ok false).
  test_step Hun. test_step Hw. rewrite Hge. test_step (assert_true_ok false).
  test_step Hmem. test_step (assert_true_ok false).
  test_step Hur. test_step Hmem. test_step (assert_true_ok false).
  split; [reflexivity|].
  unfold bulk_vars, twins. cbn [fst snd].
  split; [|split; assumption].
  split; [exact Hwf'|]. split; [reflexivity|].
  unfold a', with_buffer. cbn [bitsPerItem count]. split; assumption.
Qed.

Lemma draw_item_runs env bits cnt j v1 :
  obliging env -> 1 <= bits <= 32 -> drawn bits cnt j v1 -> 0 <= j < cnt ->
  runs (draw_item env (mask_of bits) j v1) (drawn bits cnt (j + 1)).
Proof.
  intros Henv HB (Hl & Hu & Hk) Hj st.
  set (r := rand_result env (rand_calls st)).
  eexists _, _. unfold draw_item, test_bind, lift, rand.
  cbn [bind fst snd]. fold r. rewrite store_ok by lia. cbn [bind].
  split; [reflexivity|].
  pose proof (drawn_fits bits r HB) as Hf.
  split; [rewrite upd_length; exact Hl|].
  split; [apply Forall_upd; [exact Hu | apply (fits_u32 bits); [lia | exact Hf]]|].
  intros k Hk'. rewrite peek_upd by lia.
  destruct (Z.eqb_spec k j) as [->|Hne]; cbn [andb].
  - replace (j <? Z.of_nat (length v1)) with true
      by (symmetry; apply Z.ltb_lt; lia).
    exact Hf.
  - apply Hk. lia.
Qed.

Lemma drawn_all bits cnt v1 : drawn bits cnt cnt v1 -> Forall (fits bits) v1.
Proof.
  intros (Hl & _ & Hk). apply Forall_forall. intros x Hx.
  apply (In_nth _ _ 0) in Hx. destruct Hx as (n & Hn & <-).
  specialize (Hk (Z.of_nat n) ltac:(lia)). unfold peek in Hk.
  rewrite Nat2Z.id in Hk. exact Hk.
Qed.

Lemma malloc_runs env words :
  obliging env -> 0 <= words ->
  runs (malloc env words)
    (fun p => exists block, p = Some block /\
                            Z.of_nat (length block) = words /\
                            Forall is_u32 block).
Proof.
  intros [_ Hm] Hw st. unfold malloc.
  destruct (malloc_result env (malloc_calls st)) as [content|] eqn:Hc;
    [|exfalso; exact (Hm _ Hc)].
  eexists _, _. split; [reflexivity|]. cbn [option_map].
  eexists. split; [reflexivity|]. split.
  - rewrite length_map, length_seq. lia.
  - apply Forall_forall. intros x Hx. apply in_map_iff in Hx.
    destruct Hx as [i [<- _]]. apply wrap32_range.
Qed.

Lemma bulk_count_runs env ndebug tc bits cnt :
  obliging env -> 1 <= bits <= 32 -> 1 <= cnt <= 128 ->
  runs (bulk_count env ndebug tc bits (mask_of bits) cnt tt) (fun _ => True).
Proof.
  intros Henv HB Hcnt. unfold bulk_count.
  assert (Hw : wrap32 cnt = cnt) by (apply wrap32_small; lia).
  rewrite Hw.
  eapply runs_bind; [apply malloc_runs; assumption || lia|].
  intros p1 (v1 & -> & Hl1 & Hu1). run_assert; [reflexivity|].
  eapply runs_bind; [apply malloc_runs; assumption || lia|].
  intros p2 (v2 & -> & Hl2 & Hu2). run_assert; [reflexivity|].
  eapply runs_bind; [apply test_create_runs; assumption || lia|].
  intros q1 (a1 & -> & Hwf1 & Hb1 & Hc1). run_assert; [reflexivity|].
  eapply runs_bind; [apply test_create_runs; assumption || lia|].
  intros q2 (a2 & -> & Hwf2 & Hb2 & Hc2). run_assert; [reflexivity|].
  eapply runs_bind; [apply (runs_lift _ a1 (fun a => a = a1)); reflexivity|].
  intros ? ->.
  eapply runs_bind; [apply (runs_lift _ a2 (fun a => a = a2)); reflexivity|].
  intros ? ->.
  eapply runs_bind; [apply (fill_runs env bits cnt); assumption || lia|].
  intros a Ha.
  eapply runs_bind; [apply (runs_lift _ v1 (fun v => v = v1)); reflexivity|].
  intros ? ->.
  eapply runs_bind.
  { apply (runs_for (drawn bits cnt)); [lia | |].
    - split; [exact Hl1|]. split; [exact Hu1|]. intros k Hk. lia.
    - intros j t Hj Ht. apply draw_item_runs; assumption. }
  intros w1 Hd. pose proof (drawn_all _ _ _ Hd) as Hfit.
  destruct Hd as (Hlw & Huw & _).
  destruct (width_within tc bits w1 (length w1) HB Huw (le_n _))
    as (w & Hcw & Hge).
  { rewrite firstn_all. exact Hfit. }
  rewrite Hlw in Hcw.
  eapply runs_bind; [apply (runs_lift _ w (fun x => x = w)); [exact Hcw | reflexivity]|].
  intros ? ->. run_assert; [exact Hge|].
  eapply runs_bind; [apply (runs_lift _ v2 (fun v => v = v2)); reflexivity|].
  intros ? ->.
  eapply runs_bind.
  { apply (runs_for (fun _ => bulk_vars bits cnt)); [lia | |].
    - split; [exact Ha | split; assumption].
    - intros i s Hi Hs.
      apply (runs_for (fun _ => bulk_vars bits cnt)); [lia | exact Hs|].
      intros j t Hj Ht.
      apply (bulk_item_runs env ndebug tc bits cnt); assumption || lia. }
  intros s _.
  eapply runs_bind; [apply (destroy_runs _ _ (fun _ => True)); exact I|].
  intros _ _.
  eapply runs_bind; [apply (destroy_runs _ _ (fun _ => True)); exact I|].
  intros _ _. apply runs_ret. exact I.
Qed.

Lemma bulk_runs env ndebug tc :
  obliging env -> runs (bulk env ndebug tc) (fun _ => True).
Proof.
  intros Henv. unfold bulk.
  apply (runs_for (fun _ _ => True)); [lia | exact I|].
  intros bits [] Hbits _. cbv zeta.
  apply (runs_for (fun _ _ => True)); [lia | exact I|].
  intros cnt [] Hcnt _.
  apply bulk_count_runs; assumption || lia.
Qed.

(** X17: the self-test of the specialised implementation passes.  Whatever
    [rand()] returns (an [int] that is not negative), whatever the
    allocated memory holds and whether the library is built with
    assertions or not, none of the assertions of [main] or of the
    reference functions fails, no access is out of bounds, and [main]
    returns 0, provided no allocation fails. *)
Theorem X17_self_test_passes env ndebug tc st :
  obliging env -> exists st', main env ndebug tc st = Ok (0, st').
Proof.
  intros Henv.
  assert (Hmain : runs (main env ndebug tc) (fun r => r = 0)).
  { unfold main.
    eapply runs_bind; [apply one_by_one_runs; exact Henv|]. intros _ _.
    eapply runs_bind; [apply bulk_runs; exact Henv|]. intros _ _.
    apply runs_ret. reflexivity. }
  destruct (Hmain st) as (r & st' & Hr & ->). exists st'. exact Hr.
Qed.

Lemma X17_self_test_passes_witness :
  exists st',
    main (mkTestEnv (fun k => Z.of_nat k mod 1000) (fun k => Some (fun i => i + 7)))
      false Portable (mkTestState 0 0) = Ok (0, st').
Proof.
  apply (X17_self_test_passes
           (mkTestEnv (fun k => Z.of_nat k mod 1000)
              (fun k => Some (fun i => i + 7)))
           false Portable (mkTestState 0 0)).
  split; cbn [rand_result malloc_result].
  - intros k. pose proof (Z.mod_pos_bound (Z.of_nat k) 1000 ltac:(lia)). lia.
  - intros k. discriminate.
Defined.


(** ** The self-test of the width-agnostic implementation passes *)

Lemma runs_checked ndebug (c : test bool) (P : unit -> Prop) :
  runs c (fun e => e = true) -> P tt -> runs (GenericTest.checked ndebug c) P.
Proof.
  intros Hc HP. unfold GenericTest.checked. destruct ndebug.
  - apply runs_ret. exact HP.
  - eapply runs_bind; [exact Hc|]. intros e ->.
    apply (runs_lift _ tt); [reflexivity | exact HP].
Qed.

Ltac run_checked :=
  eapply runs_bind;
  [apply (runs_checked _ _ (fun _ => True)); [|exact I] | intros _ _].

Lemma generic_item_runs env ndebug bits cnt i a :
  obliging env -> 1 <= bits <= 32 -> sized bits cnt a -> 0 <= i < cnt ->
  runs (GenericTest.one_by_one_item env ndebug (mask_of bits) i a)
    (sized bits cnt).
Proof.
  intros Henv HB (Hwf & Hbits & Hcnt) Hi.
  pose proof Hwf as [_ Hc _ _].
  intros st. set (r := rand_result env (rand_calls st)).
  set (v1 := Z.land (wrap32 r) (mask_of bits)).
  assert (Hv : fits (bitsPerItem a) v1)
    by (rewrite Hbits; apply drawn_fits; exact HB).
  assert (Hwi : wrap32 i = i) by (apply wrap32_small; lia).
  destruct (generic_pack_correct ndebug a i [v1] 1)
    as (b & Hp & Hlb & Hmb & Hb); try assumption; cbn [length]; try lia.
  { constructor; [exact Hv | constructor]. }
  change (Z.of_nat 1) with 1 in Hp. cbn [firstn write_items] in Hb.
  pose proof (with_buffer_wf a b Hwf Hlb Hmb) as Hwf'.
  set (a' := with_buffer a b) in *.
  assert (Hi' : 0 <= i < count a') by (unfold a', with_buffer; cbn [count]; lia).
  assert (Hitem : item_at (bitsPerItem a') (buffer a') i = v1).
  { unfold a', with_buffer, item_at. cbn [bitsPerItem buffer]. rewrite Hb.
    apply window_write_same; try assumption; lia. }
  assert (Hun : forall d, generic_unpack a' i [d] 1 = Ok [v1]).
  { intros d. change 1 with (Z.of_nat 1) at 1.
    rewrite generic_unpack_correct; cbn [length]; try assumption; try lia.
    unfold items_at. cbn [seq map app skipn Z.of_nat]. rewrite Z.add_0_r.
    rewrite Hitem. reflexivity. }
  assert (Hchk : forall st',
            GenericTest.checked ndebug (test_ret (v1 =? v1)) st' = Ok (tt, st')).
  { intros st'. unfold GenericTest.checked. destruct ndebug; [reflexivity|].
    unfold test_bind, test_ret, lift. cbn [bind fst snd].
    rewrite Z.eqb_refl. reflexivity. }
  exists a'. eexists.
  unfold GenericTest.one_by_one_item, Generic.PackedArray_pack,
    Generic.PackedArray_unpack, test_bind, lift, rand, test_ret.
  cbv zeta. cbn [bind fst snd]. fold r. fold v1. rewrite Hwi.
  test_step Hp. test_step (Hun (wrap32 (v1 + 1))).
  change (peek [v1] 0) with v1. test_step Hchk.
  split; [reflexivity|].
  split; [exact Hwf'|]. unfold a', with_buffer. cbn [bitsPerItem count].
  split; assumption.
Qed.

Lemma generic_count_runs env ndebug bits cnt :
  obliging env -> 1 <= bits <= 32 -> 1 <= cnt <= 1024 ->
  runs (GenericTest.one_by_one_count env ndebug bits (mask_of bits) cnt tt)
    (fun _ => True).
Proof.
  intros Henv HB Hcnt. unfold GenericTest.one_by_one_count.
  assert (Hw : wrap32 cnt = cnt) by (apply wrap32_small; lia).
  rewrite Hw.
  eapply runs_bind; [apply test_create_runs; assumption || lia|].
  intros p (a & -> & Hwf & Hb & Hc).
  run_checked.
  { eapply runs_bind; [apply (runs_lift _ a (fun x => x = a)); reflexivity|].
    intros ? ->. apply runs_ret. apply Z.eqb_eq. exact Hc. }
  run_checked.
  { eapply runs_bind; [apply (runs_lift _ a (fun x => x = a)); reflexivity|].
    intros ? ->. apply runs_ret. apply Z.eqb_eq. exact Hb. }
  eapply runs_bind; [apply (runs_lift _ a (fun x => x = a)); reflexivity|].
  intros ? ->.
  eapply runs_bind.
  { apply (runs_for (fun _ => sized bits cnt)); [lia | |].
    - split; [exact Hwf | split; assumption].
    - intros j t Hj Ht. apply generic_item_runs; assumption. }
  intros a' Ha'.
  eapply runs_bind.
  { apply (runs_for_down (sized bits cnt)); [exact Ha'|].
    intros j t Hj Ht. apply generic_item_runs; assumption || lia. }
  intros a'' _.
  eapply runs_bind; [apply (destroy_runs _ _ (fun _ => True)); exact I|].
  intros _ _. apply runs_ret. exact I.
Qed.

Lemma generic_bulk_item_runs env ndebug bits cnt v1 i j s :
  obliging env -> 1 <= bits <= 32 -> 1 <= cnt <= 128 ->
  Z.of_nat (length v1) = cnt -> Forall (fits bits) v1 ->
  0 <= i < cnt -> 1 <= j <= cnt - i ->
  generic_bulk_vars bits cnt s ->
  runs (GenericTest.bulk_item env ndebug v1 i j s) (generic_bulk_vars bits cnt).
Proof.
  intros Henv HB Hcnt Hl1 Hv1 Hi Hj [(Hwf & Hbits & Hc) Hl2].
  destruct s as [a v2]. cbn [fst snd] in *.
  set (n := Z.to_nat j).
  assert (Hjn : j = Z.of_nat n) by (unfold n; lia).
  assert (Hwi : wrap32 i = i) by (apply wrap32_small; lia).
  assert (Hwj : wrap32 j = j) by (apply wrap32_small; lia).
  assert (Hpre : Forall (fits (bitsPerItem a)) (firstn n v1))
    by (rewrite Hbits; apply Forall_prefix; exact Hv1).
  destruct (generic_pack_correct ndebug a i v1 n)
    as (b & Hp & Hlb & Hmb & Hb); try assumption; try lia.
  pose proof (with_buffer_wf a b Hwf Hlb Hmb) as Hwf'.
  set (a' := with_buffer a b) in *.
  assert (Hlenpre : length (firstn n v1) = n)
    by (rewrite length_firstn; lia).
  assert (Hitems : items_at (bitsPerItem a') (buffer a') i n = firstn n v1).
  { unfold a', with_buffer. cbn [bitsPerItem buffer].
    rewrite <- Hlenpre at 1.
    apply (items_at_written _ _ (bits_of (buffer a))); try assumption; lia. }
  set (v2' := firstn n v1 ++ skipn n v2).
  assert (Hun : generic_unpack a' i v2 j = Ok v2').
  { rewrite Hjn. rewrite generic_unpack_correct; try assumption; try lia.
    - rewrite Hitems. reflexivity.
    - unfold a', with_buffer. cbn [count]. lia.
    - unfold a', with_buffer. cbn [count]. lia. }
  assert (Hlen2' : Z.of_nat (length v2') = cnt).
  { unfold v2'. rewrite length_app, Hlenpre, length_skipn. lia. }
  assert (Hfirst : firstn n v2' = firstn n v1)
    by (apply firstn_app_exact; exact Hlenpre).
  assert (Hmem : memcmp_is_0 v1 v2' j = Ok true).
  { apply memcmp_prefix; try lia. fold n. symmetry. exact Hfirst. }
  assert (Hchk : forall st',
            GenericTest.checked ndebug (lift (memcmp_is_0 v1 v2' j)) st' =
            Ok (tt, st')).
  { intros st'. unfold GenericTest.checked. destruct ndebug; [reflexivity|].
    unfold test_bind, lift. rewrite Hmem. reflexivity. }
  intros st. exists (a', v2'). eexists.
  unfold GenericTest.bulk_item, Generic.PackedArray_pack,
    Generic.PackedArray_unpack, test_bind, lift, test_ret.
  cbn [bind fst snd]. rewrite Hwi, Hwj. rewrite <- Hjn in Hp.
  test_step Hp. test_step Hun.
  change (fun st0 => x <- memcmp_is_0 v1 v2' j ;; Ok (x, st0))
    with (lift (memcmp_is_0 v1 v2' j)).
  test_step Hchk.
  split; [reflexivity|].
  split; [|exact Hlen2'].
  split; [exact Hwf'|]. unfold a', with_buffer. cbn [bitsPerItem count].
  split; assumption.
Qed.

Lemma generic_bulk_count_runs env ndebug bits cnt :
  obliging env -> 1 <= bits <= 32 -> 1 <= cnt <= 128 ->
  runs (GenericTest.bulk_count env ndebug bits (mask_of bits) cnt tt)
    (fun _ => True).
Proof.
  intros Henv HB Hcnt. unfold GenericTest.bulk_count.
  assert (Hw : wrap32 cnt = cnt) by (apply wrap32_small; lia).
  rewrite Hw.
  eapply runs_bind; [apply malloc_runs; assumption || lia|].
  intros p1 (v1 & -> & Hl1 & Hu1).
  run_checked; [apply runs_ret; reflexivity|].
  eapply runs_bind; [apply malloc_runs; assumption || lia|].
  intros p2 (v2 & -> & Hl2 & Hu2).
  run_checked; [apply runs_ret; reflexivity|].
  eapply runs_bind; [apply test_create_runs; assumption || lia|].
  intros q (a & -> & Hwf & Hb & Hc).
  run_checked; [apply runs_ret; reflexivity|].
  eapply runs_bind; [apply (runs_lift _ v1 (fun v => v = v1)); reflexivity|].
  intros ? ->.
  eapply runs_bind.
  { apply (runs_for (drawn bits cnt)); [lia | |].
    - split; [exact Hl1|]. split; [exact Hu1|]. intros k Hk. lia.
    - intros j t Hj Ht. apply draw_item_runs; assumption. }
  intros w1 Hd. pose proof (drawn_all _ _ _ Hd) as Hfit.
  destruct Hd as (Hlw & Huw & _).
  eapply runs_bind; [apply (runs_lift _ a (fun x => x = a)); reflexivity|].
  intros ? ->.
  eapply runs_bind; [apply (runs_lift _ v2 (fun v => v = v2)); reflexivity|].
  intros ? ->.
  eapply runs_bind.
  { apply (runs_for (fun _ => generic_bulk_vars bits cnt)); [lia | |].
    - split; [split; [exact Hwf | split; assumption] | exact Hl2].
    - intros i s Hi Hs.
      apply (runs_for (fun _ => generic_bulk_vars bits cnt)); [lia | exact Hs|].
      intros j t Hj Ht.
      apply (generic_bulk_item_runs env ndebug bits cnt); assumption || lia. }
  intros s _.
  eapply runs_bind; [apply (destroy_runs _ _ (fun _ => True)); exact I|].
  intros _ _. apply runs_ret. exact I.
Qed.

(** X18: the self-test of the width-agnostic implementation passes, in
    both builds: whatever [rand()] returns (an [int] that is not
    negative) and whatever the allocated memory holds (the containers
    are used as [PackedArray_create] leaves them), no assertion fails, no
    access is out of bounds and [main] returns 0, provided no allocation
    fails. *)
Theorem X18_generic_self_test_passes env ndebug st :
  obliging env -> exists st', GenericTest.main env ndebug st = Ok (0, st').
Proof.
  intros Henv.
  assert (Hmain : runs (GenericTest.main env ndebug) (fun r => r = 0)).
  { unfold GenericTest.main.
    eapply runs_bind.
    { unfold GenericTest.one_by_one.
      apply (runs_for (fun _ _ => True)); [lia | exact I|].
      intros bits [] Hbits _. cbv zeta.
      apply (runs_for (fun _ _ => True)); [lia | exact I|].
      intros cnt [] Hcnt _.
      apply generic_count_runs; assumption || lia. }
    intros _ _.
    eapply runs_bind.
    { unfold GenericTest.bulk.
      apply (runs_for (fun _ _ => True)); [lia | exact I|].
      intros bits [] Hbits _. cbv zeta.
      apply (runs_for (fun _ _ => True)); [lia | exact I|].
      intros cnt [] Hcnt _.
      apply generic_bulk_count_runs; assumption || lia. }
    intros _ _. apply runs_ret. reflexivity. }
  destruct (Hmain st) as (r & st' & Hr & ->). exists st'. exact Hr.
Qed.

Lemma X18_generic_self_test_passes_witness :
  exists st',
    GenericTest.main
      (mkTestEnv (fun k => Z.of_nat k mod 1000) (fun k => Some (fun i => i + 7)))
      true (mkTestState 0 0) = Ok (0, st').
Proof.
  apply (X18_generic_self_test_passes
           (mkTestEnv (fun k => Z.of_nat k mod 1000)
              (fun k => Some (fun i => i + 7)))
           true (mkTestState 0 0)).
  split; cbn [rand_result malloc_result].
  - intros k. pose proof (Z.mod_pos_bound (Z.of_nat k) 1000 ltac:(lia)). lia.
  - intros k. discriminate.
Defined.

